(** * Cardputer text editor: edit buffer, undo ring and key dispatch

    A shallow embedding of [examples/text-editor/text-editor.ino]; the
    sketch [examples/keyboard-diagnostic/keyboard-diagnostic.ino] follows in
    the module [Diagnostic].

    Modelling conventions.
    - The sketch's globals ([ed], [undoStack], [undoHead], [undoCount],
      [prevFn], [prevShift], [needsRedraw]) and the static [lastBlink] are
      gathered in the record [Globals]; every C++ procedure becomes a
      function [Globals -> Globals].  [drawEditor] is the effect of the
      procedure on the globals, the clearing of an expired notification;
      [drawEditor_canvas] is the list of its calls to the canvas.
    - [int] fields are integers of [Z].  Every [int] the editor computes is
      bounded in absolute value by a line length plus one, [MAX_LINES] or
      [UNDO_STACK_SIZE]; signed overflow, undefined behaviour in C++, would
      need a line of 2^31 characters.  The [uint32_t] time difference of
      [loop] and the conversion of an [int] to the [unsigned int] parameter
      of [substring] are written out.  Strings are finite lists of
      characters whose allocation always succeeds.
    - The fixed arrays [String lines[MAX_LINES]] and
      [UndoEntry undoStack[UNDO_STACK_SIZE]] are lists read with [aget] and
      written with [aset].  An index outside the array is undefined behaviour
      in C++; the model reads the default element and drops the write there.
    - [millis()] is the argument [now] of the procedures that call it; one
      pass of [loop] reads one value.
    - The M5Cardputer library is outside the sketch: one pass of [loop] takes
      the three values the library hands over ([isChange()], [isPressed()],
      [keysState()]) as a [Poll].  The characters of [word] are those of the
      library's key map, none of which is NUL. *)

From Stdlib Require Import ZArith Ascii String DecimalString Bool Lia.
From stdpp Require Import base list.

Local Open Scope Z_scope.

(** ** Configuration *)

Definition MAX_LINES : Z := 100.
Definition VISIBLE_LINES : Z := 13.
Definition CHARS_PER_LINE : Z := 38.
Definition TAB_WIDTH : Z := 4.
Definition UNDO_STACK_SIZE : Z := 20.
Definition NOTIFICATION_MS : Z := 1500.

(** ** Arduino Strings *)

(** An Arduino [String] is a sequence of characters. *)
Abbreviation WString := (list ascii) (only parsing).

(** A string literal of the sketch. *)
Definition lit (s : string) : WString := list_ascii_of_string s.

(** [String::length()], converted to [int] as the sketch does. *)
Definition wlen (s : WString) : Z := Z.of_nat (length s).

(** Conversion of an [int] argument to [unsigned int]. *)
Definition unsigned_of_int (z : Z) : Z := if z <? 0 then z + 2 ^ 32 else z.

(** [String::substring(from, to)] of the Arduino core: the bounds are
    swapped when [from > to], an empty String is returned when [from] is at
    or past the end, and [to] is clamped to the length. *)
Definition substring (s : WString) (from to : Z) : WString :=
  let '(from, to) := if from >? to then (to, from) else (from, to) in
  if from >=? wlen s then []
  else
    let to := if to >? wlen s then wlen s else to in
    take (Z.to_nat (to - from)) (drop (Z.to_nat from) s).

(** [String::substring(beginIndex)]. *)
Definition substring_from (s : WString) (beginIndex : Z) : WString :=
  substring s beginIndex (wlen s).

(** ** Fixed arrays *)

Definition aget {A : Type} (d : A) (a : list A) (i : Z) : A :=
  if 0 <=? i then default d (a !! Z.to_nat i) else d.

Definition aset {A : Type} (a : list A) (i : Z) (v : A) : list A :=
  if 0 <=? i then <[Z.to_nat i := v]> a else a.

(** ** Data structures *)

Record EditorState : Type := mkEditorState {
  lines : list WString;
  lineCount : Z;
  cursorLine : Z;
  cursorCol : Z;
  scrollY : Z;
  scrollX : Z;
  capsLock : bool;
  selectAll : bool;
  showLineNumbers : bool;
  notification : WString;
  notificationTime : Z
}.

Record UndoEntry : Type := mkUndoEntry {
  u_lines : list WString;
  u_lineCount : Z;
  u_cursorLine : Z;
  u_cursorCol : Z;
  valid : bool
}.

(** The globals of the sketch.  [kbCapsLocked] is the caps-lock flag kept by
    the keyboard library, written through [setCapsLocked]; [lastBlink] is
    the static local of [loop]. *)
Record Globals : Type := mkGlobals {
  ed : EditorState;
  undoStack : list UndoEntry;
  undoHead : Z;
  undoCount : Z;
  prevFn : bool;
  prevShift : bool;
  needsRedraw : bool;
  kbCapsLocked : bool;
  lastBlink : Z
}.

(** Field updates. *)

Definition with_lines (v : list WString) (e : EditorState) : EditorState :=
  mkEditorState v (lineCount e) (cursorLine e) (cursorCol e) (scrollY e)
    (scrollX e) (capsLock e) (selectAll e) (showLineNumbers e)
    (notification e) (notificationTime e).

Definition with_lineCount (v : Z) (e : EditorState) : EditorState :=
  mkEditorState (lines e) v (cursorLine e) (cursorCol e) (scrollY e)
    (scrollX e) (capsLock e) (selectAll e) (showLineNumbers e)
    (notification e) (notificationTime e).

Definition with_cursorLine (v : Z) (e : EditorState) : EditorState :=
  mkEditorState (lines e) (lineCount e) v (cursorCol e) (scrollY e)
    (scrollX e) (capsLock e) (selectAll e) (showLineNumbers e)
    (notification e) (notificationTime e).

Definition with_cursorCol (v : Z) (e : EditorState) : EditorState :=
  mkEditorState (lines e) (lineCount e) (cursorLine e) v (scrollY e)
    (scrollX e) (capsLock e) (selectAll e) (showLineNumbers e)
    (notification e) (notificationTime e).

Definition with_scrollY (v : Z) (e : EditorState) : EditorState :=
  mkEditorState (lines e) (lineCount e) (cursorLine e) (cursorCol e) v
    (scrollX e) (capsLock e) (selectAll e) (showLineNumbers e)
    (notification e) (notificationTime e).

Definition with_scrollX (v : Z) (e : EditorState) : EditorState :=
  mkEditorState (lines e) (lineCount e) (cursorLine e) (cursorCol e)
    (scrollY e) v (capsLock e) (selectAll e) (showLineNumbers e)
    (notification e) (notificationTime e).

Definition with_capsLock (v : bool) (e : EditorState) : EditorState :=
  mkEditorState (lines e) (lineCount e) (cursorLine e) (cursorCol e)
    (scrollY e) (scrollX e) v (selectAll e) (showLineNumbers e)
    (notification e) (notificationTime e).

Definition with_selectAll (v : bool) (e : EditorState) : EditorState :=
  mkEditorState (lines e) (lineCount e) (cursorLine e) (cursorCol e)
    (scrollY e) (scrollX e) (capsLock e) v (showLineNumbers e)
    (notification e) (notificationTime e).

Definition with_showLineNumbers (v : bool) (e : EditorState) : EditorState :=
  mkEditorState (lines e) (lineCount e) (cursorLine e) (cursorCol e)
    (scrollY e) (scrollX e) (capsLock e) (selectAll e) v
    (notification e) (notificationTime e).

Definition with_notification (v : WString) (e : EditorState) : EditorState :=
  mkEditorState (lines e) (lineCount e) (cursorLine e) (cursorCol e)
    (scrollY e) (scrollX e) (capsLock e) (selectAll e) (showLineNumbers e)
    v (notificationTime e).

Definition with_notificationTime (v : Z) (e : EditorState) : EditorState :=
  mkEditorState (lines e) (lineCount e) (cursorLine e) (cursorCol e)
    (scrollY e) (scrollX e) (capsLock e) (selectAll e) (showLineNumbers e)
    (notification e) v.

(** [ed.notification = msg; ed.notificationTime = millis();] *)
Definition notify (msg : WString) (now : Z) (e : EditorState) : EditorState :=
  with_notificationTime now (with_notification msg e).

Definition with_ed (v : EditorState) (g : Globals) : Globals :=
  mkGlobals v (undoStack g) (undoHead g) (undoCount g) (prevFn g)
    (prevShift g) (needsRedraw g) (kbCapsLocked g) (lastBlink g).

Definition upd_ed (f : EditorState -> EditorState) (g : Globals) : Globals :=
  with_ed (f (ed g)) g.

Definition with_undo (st : list UndoEntry) (head count : Z) (g : Globals)
  : Globals :=
  mkGlobals (ed g) st head count (prevFn g) (prevShift g) (needsRedraw g)
    (kbCapsLocked g) (lastBlink g).

Definition with_prev (f s : bool) (g : Globals) : Globals :=
  mkGlobals (ed g) (undoStack g) (undoHead g) (undoCount g) f s
    (needsRedraw g) (kbCapsLocked g) (lastBlink g).

Definition with_needsRedraw (v : bool) (g : Globals) : Globals :=
  mkGlobals (ed g) (undoStack g) (undoHead g) (undoCount g) (prevFn g)
    (prevShift g) v (kbCapsLocked g) (lastBlink g).

Definition with_kbCapsLocked (v : bool) (g : Globals) : Globals :=
  mkGlobals (ed g) (undoStack g) (undoHead g) (undoCount g) (prevFn g)
    (prevShift g) (needsRedraw g) v (lastBlink g).

Definition with_lastBlink (v : Z) (g : Globals) : Globals :=
  mkGlobals (ed g) (undoStack g) (undoHead g) (undoCount g) (prevFn g)
    (prevShift g) (needsRedraw g) (kbCapsLocked g) v.

(** A zero-initialised [UndoEntry], as the global array starts out. *)
Definition blank_entry : UndoEntry :=
  mkUndoEntry (replicate (Z.to_nat MAX_LINES) []) 0 0 0 false.

(** ** Undo system *)

(** [for (int i = from; i < from + n; i++) dst[i] = src[i];] *)
Fixpoint copy_lines (n : nat) (i : Z) (src dst : list WString)
  : list WString :=
  match n with
  | O => dst
  | S n' => copy_lines n' (i + 1) src (aset dst i (aget [] src i))
  end.

Definition pushUndo (g : Globals) : Globals :=
  let e := ed g in
  let u := aget blank_entry (undoStack g) (undoHead g) in
  let u' :=
    mkUndoEntry
      (copy_lines (Z.to_nat (lineCount e)) 0 (lines e) (u_lines u))
      (lineCount e) (cursorLine e) (cursorCol e) true in
  with_undo
    (aset (undoStack g) (undoHead g) u')
    (Z.rem (undoHead g + 1) UNDO_STACK_SIZE)
    (if undoCount g <? UNDO_STACK_SIZE then undoCount g + 1 else undoCount g)
    g.

Definition popUndo (now : Z) (g : Globals) : Globals :=
  if undoCount g =? 0 then
    upd_ed (notify (lit "Nothing to undo") now) g
  else
    let head := Z.rem (undoHead g - 1 + UNDO_STACK_SIZE) UNDO_STACK_SIZE in
    let g1 := with_undo (undoStack g) head (undoCount g - 1) g in
    let u := aget blank_entry (undoStack g1) head in
    if negb (valid u) then g1
    else
      let e := ed g1 in
      let e := with_lineCount (u_lineCount u) e in
      let e := with_cursorLine (u_cursorLine u) e in
      let e := with_cursorCol (u_cursorCol u) e in
      let e :=
        with_lines
          (copy_lines (Z.to_nat (lineCount e)) 0 (u_lines u) (lines e)) e in
      with_ed (notify (lit "Undo") now e) g1.

(** ** Cursor movement *)

Definition cur_line (e : EditorState) : WString :=
  aget [] (lines e) (cursorLine e).

Definition cursorLeft (g : Globals) : Globals :=
  let e := ed g in
  if cursorCol e >? 0 then
    upd_ed (with_cursorCol (cursorCol e - 1)) g
  else if cursorLine e >? 0 then
    let e := with_cursorLine (cursorLine e - 1) e in
    with_ed (with_cursorCol (wlen (cur_line e)) e) g
  else g.

Definition cursorRight (g : Globals) : Globals :=
  let e := ed g in
  if cursorCol e <? wlen (cur_line e) then
    upd_ed (with_cursorCol (cursorCol e + 1)) g
  else if cursorLine e <? lineCount e - 1 then
    let e := with_cursorLine (cursorLine e + 1) e in
    with_ed (with_cursorCol 0 e) g
  else g.

(** The clamp shared by [cursorUp] and [cursorDown]:
    [if (cursorCol > len(lines[cursorLine])) cursorCol = len(...)]. *)
Definition clampCol (e : EditorState) : EditorState :=
  if cursorCol e >? wlen (cur_line e)
  then with_cursorCol (wlen (cur_line e)) e
  else e.

Definition cursorUp (g : Globals) : Globals :=
  let e := ed g in
  if cursorLine e >? 0 then
    with_ed (clampCol (with_cursorLine (cursorLine e - 1) e)) g
  else g.

Definition cursorDown (g : Globals) : Globals :=
  let e := ed g in
  if cursorLine e <? lineCount e - 1 then
    with_ed (clampCol (with_cursorLine (cursorLine e + 1) e)) g
  else g.

Definition ensureCursorVisible (g : Globals) : Globals :=
  let e := ed g in
  let e := if cursorLine e <? scrollY e
           then with_scrollY (cursorLine e) e else e in
  let e := if cursorLine e >=? scrollY e + VISIBLE_LINES
           then with_scrollY (cursorLine e - VISIBLE_LINES + 1) e else e in
  let leftMargin := if showLineNumbers e then 4 else 0 in
  let visibleChars := CHARS_PER_LINE - leftMargin in
  let e := if cursorCol e <? scrollX e
           then with_scrollX (cursorCol e) e else e in
  let e := if cursorCol e >=? scrollX e + visibleChars
           then with_scrollX (cursorCol e - visibleChars + 1) e else e in
  with_ed e g.

(** ** Text editing *)

(** [ed.lines[ed.cursorLine] = v] *)
Definition set_cur_line (v : WString) (e : EditorState) : EditorState :=
  with_lines (aset (lines e) (cursorLine e) v) e.

Definition insertChar (c : ascii) (g : Globals) : Globals :=
  let g := pushUndo g in
  let e := ed g in
  let line := cur_line e in
  let e :=
    if cursorCol e >=? wlen line then
      set_cur_line (line ++ [c]) e
    else
      set_cur_line
        (substring line 0 (unsigned_of_int (cursorCol e))
           ++ [c] ++ substring_from line (unsigned_of_int (cursorCol e))) e in
  with_ed (with_cursorCol (cursorCol e + 1) e) g.

(** [for (int i = from; i < ed.lineCount - 1; i++) lines[i] = lines[i + 1];]
    with [n] iterations left. *)
Fixpoint shift_up (n : nat) (i : Z) (ls : list WString) : list WString :=
  match n with
  | O => ls
  | S n' => shift_up n' (i + 1) (aset ls i (aget [] ls (i + 1)))
  end.

(** [for (int i = from; i > ed.cursorLine + 1; i--) lines[i] = lines[i - 1];]
    with [n] iterations left. *)
Fixpoint shift_down (n : nat) (i : Z) (ls : list WString) : list WString :=
  match n with
  | O => ls
  | S n' => shift_down n' (i - 1) (aset ls i (aget [] ls (i - 1)))
  end.

Definition handleBackspace (g : Globals) : Globals :=
  if cursorCol (ed g) >? 0 then
    let g := pushUndo g in
    let e := ed g in
    let line := cur_line e in
    let e :=
      set_cur_line
        (substring line 0 (unsigned_of_int (cursorCol e - 1))
           ++ substring_from line (unsigned_of_int (cursorCol e))) e in
    with_ed (with_cursorCol (cursorCol e - 1) e) g
  else if cursorLine (ed g) >? 0 then
    let g := pushUndo g in
    let e := ed g in
    let e := with_cursorCol (wlen (aget [] (lines e) (cursorLine e - 1))) e in
    let e :=
      with_lines
        (aset (lines e) (cursorLine e - 1)
           (aget [] (lines e) (cursorLine e - 1) ++ cur_line e)) e in
    let e :=
      with_lines
        (shift_up (Z.to_nat (lineCount e - 1 - cursorLine e)) (cursorLine e)
           (lines e)) e in
    let e := with_lines (aset (lines e) (lineCount e - 1) []) e in
    let e := with_lineCount (lineCount e - 1) e in
    with_ed (with_cursorLine (cursorLine e - 1) e) g
  else g.

Definition handleForwardDelete (g : Globals) : Globals :=
  let line := cur_line (ed g) in
  if cursorCol (ed g) <? wlen line then
    let g := pushUndo g in
    let e := ed g in
    let line := cur_line e in
    with_ed
      (set_cur_line
         (substring line 0 (unsigned_of_int (cursorCol e))
            ++ substring_from line (unsigned_of_int (cursorCol e + 1))) e) g
  else if cursorLine (ed g) <? lineCount (ed g) - 1 then
    let g := pushUndo g in
    let e := ed g in
    let e :=
      set_cur_line (cur_line e ++ aget [] (lines e) (cursorLine e + 1)) e in
    let e :=
      with_lines
        (shift_up (Z.to_nat (lineCount e - 1 - (cursorLine e + 1)))
           (cursorLine e + 1) (lines e)) e in
    let e := with_lines (aset (lines e) (lineCount e - 1) []) e in
    with_ed (with_lineCount (lineCount e - 1) e) g
  else g.

Definition handleEnter (g : Globals) : Globals :=
  if lineCount (ed g) >=? MAX_LINES then g
  else
    let g := pushUndo g in
    let e := ed g in
    let line := cur_line e in
    let remainder := substring_from line (unsigned_of_int (cursorCol e)) in
    let e :=
      set_cur_line (substring line 0 (unsigned_of_int (cursorCol e))) e in
    let e :=
      with_lines
        (shift_down (Z.to_nat (lineCount e - (cursorLine e + 1)))
           (lineCount e) (lines e)) e in
    let e := with_cursorLine (cursorLine e + 1) e in
    let e := set_cur_line remainder e in
    let e := with_lineCount (lineCount e + 1) e in
    with_ed (with_cursorCol 0 e) g.

(** [for (int i = from; i < TAB_WIDTH; i++) insertChar(' ');] with [n]
    iterations left. *)
Fixpoint tab_loop (n : nat) (g : Globals) : Globals :=
  match n with
  | O => g
  | S n' => tab_loop n' (insertChar " "%char g)
  end.

Definition handleTab (g : Globals) : Globals :=
  tab_loop (Z.to_nat TAB_WIDTH) g.

Definition handleEscape (now : Z) (g : Globals) : Globals :=
  let e := ed g in
  let e :=
    if selectAll e then
      with_notification (lit "Selection cleared") (with_selectAll false e)
    else if wlen (notification e) >? 0 then
      with_notification [] e
    else
      with_notification (lit "ESC") e in
  with_ed (with_notificationTime now e) g.

(** [String(num)] for an [int]: its decimal digits. *)
Definition String_of_int (num : Z) : WString :=
  list_ascii_of_string (DecimalString.NilZero.string_of_int (Z.to_int num)).

Definition handleFKey (now : Z) (num : Z) (g : Globals) : Globals :=
  upd_ed (notify (lit "F" ++ String_of_int num) now) g.

Definition handleSave (now : Z) (g : Globals) : Globals :=
  upd_ed (notify (lit "Saved! (Ctrl+S)") now) g.

Definition handleSelectAll (now : Z) (g : Globals) : Globals :=
  upd_ed
    (fun e => notify (lit "Select All (Ctrl+A)") now (with_selectAll true e))
    g.

Definition handleCopy (now : Z) (g : Globals) : Globals :=
  upd_ed (notify (lit "Copy (Ctrl+C)") now) g.

Definition handlePaste (now : Z) (g : Globals) : Globals :=
  upd_ed (notify (lit "Paste (Ctrl+V)") now) g.

(** ** Setup *)

(** The globals after [setup()]: the zero-initialised arrays, and the editor
    fields [setup] assigns. *)
Definition setup (now : Z) : Globals :=
  mkGlobals
    (mkEditorState (replicate (Z.to_nat MAX_LINES) []) 1 0 0 0 0
       false false false (lit "Ready — type away!") now)
    (replicate (Z.to_nat UNDO_STACK_SIZE) blank_entry) 0 0
    false false true false 0.

(** ** Main loop *)

(** [Keyboard_Class::KeysState], as the library hands it to the sketch. *)
Record KeysState : Type := mkKeysState {
  tab : bool;
  fn : bool;
  shift : bool;
  ctrl : bool;
  opt : bool;
  alt : bool;
  del : bool;
  enter : bool;
  space : bool;
  modifiers : Z;
  word : list ascii;
  hid_keys : list Z;
  modifier_keys : list Z
}.

(** What one pass of [loop] obtains from the keyboard library. *)
Record Poll : Type := mkPoll {
  isChange : bool;
  isPressed : Z;
  keysState : KeysState
}.

Definition code (c : ascii) : Z := Z.of_N (N_of_ascii c).

(** C's [tolower] in the default locale. *)
Definition tolower (c : ascii) : ascii :=
  if (code "A" <=? code c) && (code c <=? code "Z")
  then ascii_of_N (N_of_ascii c + 32)
  else c.

(** The caps-lock toggle on Fn+Shift. *)
Definition capsToggle (now : Z) (s : KeysState) (g : Globals) : Globals :=
  if fn s && shift s && negb (prevFn g && prevShift g) then
    let caps := negb (capsLock (ed g)) in
    let g := upd_ed (with_capsLock caps) g in
    let g := with_kbCapsLocked caps g in
    upd_ed (notify (if caps then lit "CAPS ON" else lit "CAPS OFF") now) g
  else g.

(** The body of the Fn layer's [switch (c)]. *)
Definition fnKey (now : Z) (g : Globals) (c : ascii) : Globals :=
  if Ascii.eqb c ";" then cursorUp g
  else if Ascii.eqb c "," then cursorLeft g
  else if Ascii.eqb c "." then cursorDown g
  else if Ascii.eqb c "/" then cursorRight g
  else if Ascii.eqb c "`" then handleEscape now g
  else if (code "1" <=? code c) && (code c <=? code "9")
  then handleFKey now (code c - code "0") g
  else if Ascii.eqb c "0" then handleFKey now 10 g
  else g.

(** The body of the Ctrl layer's [switch (tolower(c))]. *)
Definition ctrlKey (now : Z) (g : Globals) (c : ascii) : Globals :=
  let c := tolower c in
  if Ascii.eqb c "s" then handleSave now g
  else if Ascii.eqb c "z" then popUndo now g
  else if Ascii.eqb c "a" then handleSelectAll now g
  else if Ascii.eqb c "c" then handleCopy now g
  else if Ascii.eqb c "v" then handlePaste now g
  else g.

(** The body of the printable-text loop: replace everything on the first
    keystroke after select-all, then insert. *)
Definition typeChar (g : Globals) (c : ascii) : Globals :=
  let g :=
    if selectAll (ed g) then
      let g := pushUndo g in
      let e := ed g in
      let e := with_lineCount 1 e in
      let e := with_lines (aset (lines e) 0 []) e in
      let e := with_cursorLine 0 e in
      let e := with_cursorCol 0 e in
      with_ed (with_selectAll false e) g
    else g in
  insertChar c g.

(** [ed.showLineNumbers = !ed.showLineNumbers;] *)
Definition toggleLineNumbers (e : EditorState) : EditorState :=
  with_showLineNumbers (negb (showLineNumbers e)) e.

(** The processing of a changed poll with keys down. *)
Definition keysDown (now : Z) (s : KeysState) (g : Globals) : Globals :=
  let g := capsToggle now s g in
  let g := with_prev (fn s) (shift s) g in
  if fn s then
    let g := fold_left (fnKey now) (word s) g in
    let g := if del s then handleForwardDelete g else g in
    let g := ensureCursorVisible g in
    with_needsRedraw true g
  else if ctrl s then
    let g := fold_left (ctrlKey now) (word s) g in
    with_needsRedraw true g
  else
    let g := if alt s then upd_ed (notify (lit "ALT held") now) g else g in
    let g :=
      if opt s then
        let g := upd_ed toggleLineNumbers g in
        upd_ed
          (notify (if showLineNumbers (ed g) then lit "Line numbers ON"
                   else lit "Line numbers OFF") now) g
      else g in
    let g := if del s then handleBackspace g else g in
    let g := if enter s then handleEnter g else g in
    let g := if tab s then handleTab g else g in
    let g := fold_left typeChar (word s) g in
    let g := ensureCursorVisible g in
    with_needsRedraw true g.

(** The keyboard block of [loop()]. *)
Definition pollKeyboard (now : Z) (p : Poll) (g : Globals) : Globals :=
  if isChange p then
    if negb (isPressed p =? 0) then keysDown now (keysState p) g
    else with_prev false false g
  else g.

(** [millis() - since] in [uint32_t] arithmetic. *)
Definition elapsed (now since : Z) : Z := (now - since) mod 2 ^ 32.

(** What [drawEditor()] does to the globals: a notification that is empty
    or past its display time is cleared. *)
Definition drawEditor (now : Z) (g : Globals) : Globals :=
  let e := ed g in
  if (wlen (notification e) >? 0)
     && (elapsed now (notificationTime e) <? NOTIFICATION_MS)
  then g
  else upd_ed (with_notification []) g.

(** The rest of [loop()]: notification expiry, cursor blink, redraw. *)
Definition redrawIfNeeded (now : Z) (g : Globals) : Globals :=
  let g :=
    if (wlen (notification (ed g)) >? 0)
       && (elapsed now (notificationTime (ed g)) >=? NOTIFICATION_MS)
    then with_needsRedraw true (upd_ed (with_notification []) g)
    else g in
  let g :=
    if elapsed now (lastBlink g) >=? 500
    then with_needsRedraw true (with_lastBlink now g)
    else g in
  if needsRedraw g then with_needsRedraw false (drawEditor now g) else g.

(** One pass of [loop()]. *)
Definition loop (now : Z) (p : Poll) (g : Globals) : Globals :=
  redrawIfNeeded now (pollKeyboard now p g).

(** ** The operations as a closed set of actions *)

Inductive Action : Type :=
| ArrowUp | ArrowLeft | ArrowDown | ArrowRight
| Escape
| FunctionKey (n : Z)
| ForwardDelete
| Backspace
| Enter
| Tab
| InsertChar (c : ascii)
| Save | Undo | SelectAll | Copy | Paste
| AltNotice
| ToggleLineNumbers.

Definition perform (now : Z) (g : Globals) (a : Action) : Globals :=
  match a with
  | ArrowUp => cursorUp g
  | ArrowLeft => cursorLeft g
  | ArrowDown => cursorDown g
  | ArrowRight => cursorRight g
  | Escape => handleEscape now g
  | FunctionKey n => handleFKey now n g
  | ForwardDelete => handleForwardDelete g
  | Backspace => handleBackspace g
  | Enter => handleEnter g
  | Tab => handleTab g
  | InsertChar c => typeChar g c
  | Save => handleSave now g
  | Undo => popUndo now g
  | SelectAll => handleSelectAll now g
  | Copy => handleCopy now g
  | Paste => handlePaste now g
  | AltNotice => upd_ed (notify (lit "ALT held") now) g
  | ToggleLineNumbers =>
      let g := upd_ed toggleLineNumbers g in
      upd_ed
        (notify (if showLineNumbers (ed g) then lit "Line numbers ON"
                 else lit "Line numbers OFF") now) g
  end.

(** The action, if any, of one character of [word] in the Fn layer. *)
Definition fnAction (c : ascii) : list Action :=
  if Ascii.eqb c ";" then [ArrowUp]
  else if Ascii.eqb c "," then [ArrowLeft]
  else if Ascii.eqb c "." then [ArrowDown]
  else if Ascii.eqb c "/" then [ArrowRight]
  else if Ascii.eqb c "`" then [Escape]
  else if (code "1" <=? code c) && (code c <=? code "9")
  then [FunctionKey (code c - code "0")]
  else if Ascii.eqb c "0" then [FunctionKey 10]
  else [].

Definition ctrlAction (c : ascii) : list Action :=
  let c := tolower c in
  if Ascii.eqb c "s" then [Save]
  else if Ascii.eqb c "z" then [Undo]
  else if Ascii.eqb c "a" then [SelectAll]
  else if Ascii.eqb c "c" then [Copy]
  else if Ascii.eqb c "v" then [Paste]
  else [].

(** The handler calls of one processed poll, in the order [loop] makes them. *)
Definition actionsOf (s : KeysState) : list Action :=
  if fn s then
    concat (map fnAction (word s)) ++ (if del s then [ForwardDelete] else [])
  else if ctrl s then
    concat (map ctrlAction (word s))
  else
    (if alt s then [AltNotice] else [])
      ++ (if opt s then [ToggleLineNumbers] else [])
      ++ (if del s then [Backspace] else [])
      ++ (if enter s then [Enter] else [])
      ++ (if tab s then [Tab] else [])
      ++ map InsertChar (word s).

(** What [loop] does after the handler calls of a processed poll. *)
Definition finishPoll (s : KeysState) (g : Globals) : Globals :=
  if fn s then with_needsRedraw true (ensureCursorVisible g)
  else if ctrl s then with_needsRedraw true g
  else with_needsRedraw true (ensureCursorVisible g).

(** ** Vocabulary of the properties *)

(** The logical buffer: the first [lineCount] entries of the array. *)
Definition buffer (e : EditorState) : list WString :=
  take (Z.to_nat (lineCount e)) (lines e).

(** The part of the editor a snapshot records. *)
Definition text (g : Globals) : list WString * Z * Z * Z :=
  (lines (ed g), lineCount (ed g), cursorLine (ed g), cursorCol (ed g)).

(** The undo ring. *)
Definition ring (g : Globals) : list UndoEntry * Z * Z :=
  (undoStack g, undoHead g, undoCount g).

(** The cursor invariant over a line array [ls] of which [n] lines are in
    use, with the cursor at line [l], column [c]. *)
Definition cursor_inv (ls : list WString) (n l c : Z) : Prop :=
  1 <= n <= MAX_LINES /\ 0 <= l < n /\ 0 <= c <= wlen (aget [] ls l).

Definition cursor_ok (e : EditorState) : Prop :=
  cursor_inv (lines e) (lineCount e) (cursorLine e) (cursorCol e).

(** A snapshot that [popUndo] can restore. *)
Definition snapshot_ok (u : UndoEntry) : Prop :=
  valid u = true /\
  cursor_inv (u_lines u) (u_lineCount u) (u_cursorLine u) (u_cursorCol u).

(** The slot of the [k]-th most recent snapshot when the head is [h]. *)
Definition slot (h k : Z) : Z := (h - 1 - k) mod UNDO_STACK_SIZE.

(** The invariant of the globals: array sizes, the cursor invariant, and a
    ring whose [undoCount] most recent slots hold restorable snapshots. *)
Definition Inv (g : Globals) : Prop :=
  length (lines (ed g)) = Z.to_nat MAX_LINES /\
  cursor_ok (ed g) /\
  length (undoStack g) = Z.to_nat UNDO_STACK_SIZE /\
  Forall (fun u => length (u_lines u) = Z.to_nat MAX_LINES) (undoStack g) /\
  0 <= undoHead g < UNDO_STACK_SIZE /\
  0 <= undoCount g <= UNDO_STACK_SIZE /\
  forall k, 0 <= k < undoCount g ->
    snapshot_ok (aget blank_entry (undoStack g) (slot (undoHead g) k)).

(** The states the sketch can be in: [setup], then any operations and any
    passes of [loop]. *)
Inductive reachable : Globals -> Prop :=
| reach_setup now : reachable (setup now)
| reach_perform now g a : reachable g -> reachable (perform now g a)
| reach_loop now p g : reachable g -> reachable (loop now p g).

Definition insertChars (cs : list ascii) (g : Globals) : Globals :=
  fold_left (fun g c => insertChar c g) cs g.

(** [popUndo] once per time stamp of [ts]. *)
Definition undos (ts : list Z) (g : Globals) : Globals :=
  fold_left (fun g t => popUndo t g) ts g.

(** The handler calls of a poll, run in order. *)
Definition performAll (now : Z) (acts : list Action) (g : Globals) : Globals :=
  fold_left (perform now) acts g.

(** *** Results of the handlers, named *)

(** The entry [pushUndo] writes into the head slot. *)
Definition snapshot_of (g : Globals) : UndoEntry :=
  mkUndoEntry
    (copy_lines (Z.to_nat (lineCount (ed g))) 0 (lines (ed g))
       (u_lines (aget blank_entry (undoStack g) (undoHead g))))
    (lineCount (ed g)) (cursorLine (ed g)) (cursorCol (ed g)) true.

(** The editor after a successful [popUndo] that restores [u]. *)
Definition restored (now : Z) (u : UndoEntry) (e : EditorState) : EditorState :=
  notify (lit "Undo") now
    (mkEditorState
       (copy_lines (Z.to_nat (u_lineCount u)) 0 (u_lines u) (lines e))
       (u_lineCount u) (u_cursorLine u) (u_cursorCol u)
       (scrollY e) (scrollX e) (capsLock e) (selectAll e)
       (showLineNumbers e) (notification e) (notificationTime e)).

(** The array after the join that [handleBackspace] and
    [handleForwardDelete] share: line [l] is appended to line [l - 1], the
    lines below move up, and the last line in use is emptied. *)
Definition join_lines (ls : list WString) (n l : Z) : list WString :=
  let ls := aset ls (l - 1) (aget [] ls (l - 1) ++ aget [] ls l) in
  let ls := shift_up (Z.to_nat (n - 1 - l)) l ls in
  aset ls (n - 1) [].

(** The array after the split of [handleEnter]: line [l] keeps [before],
    the lines below move down, and line [l + 1] receives [after]. *)
Definition split_lines (ls : list WString) (n l : Z) (before after : WString)
  : list WString :=
  let ls := aset ls l before in
  let ls := shift_down (Z.to_nat (n - (l + 1))) n ls in
  aset ls (l + 1) after.

(** The editor after [handleBackspace] joined the cursor line onto the
    previous one. *)
Definition joined_back (e : EditorState) : EditorState :=
  mkEditorState
    (join_lines (lines e) (lineCount e) (cursorLine e))
    (lineCount e - 1) (cursorLine e - 1)
    (wlen (aget [] (lines e) (cursorLine e - 1)))
    (scrollY e) (scrollX e) (capsLock e) (selectAll e) (showLineNumbers e)
    (notification e) (notificationTime e).

(** The editor after [handleForwardDelete] joined the next line onto the
    cursor line. *)
Definition joined_forward (e : EditorState) : EditorState :=
  mkEditorState
    (join_lines (lines e) (lineCount e) (cursorLine e + 1))
    (lineCount e - 1) (cursorLine e) (cursorCol e)
    (scrollY e) (scrollX e) (capsLock e) (selectAll e) (showLineNumbers e)
    (notification e) (notificationTime e).

(** The editor after [handleEnter] split the cursor line. *)
Definition split_at_cursor (e : EditorState) : EditorState :=
  mkEditorState
    (split_lines (lines e) (lineCount e) (cursorLine e)
       (take (Z.to_nat (cursorCol e)) (cur_line e))
       (drop (Z.to_nat (cursorCol e)) (cur_line e)))
    (lineCount e + 1) (cursorLine e + 1) 0
    (scrollY e) (scrollX e) (capsLock e) (selectAll e) (showLineNumbers e)
    (notification e) (notificationTime e).

(** The editor after the select-all replacement emptied the buffer. *)
Definition cleared (e : EditorState) : EditorState :=
  mkEditorState (aset (lines e) 0 []) 1 0 0
    (scrollY e) (scrollX e) (capsLock e) false (showLineNumbers e)
    (notification e) (notificationTime e).

(** *** Tab and Enter *)

(** Tab as the specification words it: one burst of [TAB_WIDTH] InsertChar
    operations on a space.  InsertChar is the operation of the
    printable-text loop, [typeChar] ([perform] of [InsertChar]): with a
    select-all pending it replaces the buffer before it inserts. *)
Definition tab_burst (g : Globals) : Globals :=
  fold_left typeChar (replicate (Z.to_nat TAB_WIDTH) " "%char) g.

(** The editor after [xyz] was typed and Ctrl+A pressed: a select-all is
    pending. *)
Definition selected_xyz : Globals :=
  performAll 1
    [InsertChar "x"; InsertChar "y"; InsertChar "z"; SelectAll] (setup 0).

(** A buffer filled to capacity by 99 Enter keys. *)
Definition full_buffer : Globals :=
  Nat.iter 99 handleEnter (setup 0).

(** An operation reports when it leaves a notification or a notification
    time other than the one it found. *)
Definition reports (g g' : Globals) : Prop :=
  notification (ed g') <> notification (ed g) \/
  notificationTime (ed g') <> notificationTime (ed g).

(** *** Frames *)

(** The caps-lock state and the previous-frame flags. *)
Definition ctx (g : Globals) : bool * bool * bool * bool :=
  (capsLock (ed g), kbCapsLocked g, prevFn g, prevShift g).

(** The globals with the selection flag forced to [b]. *)
Definition set_flag (b : bool) (g : Globals) : Globals :=
  upd_ed (with_selectAll b) g.

(** The operations other than character insertion and Escape. *)
Definition keeps_selection (a : Action) : bool :=
  match a with
  | InsertChar _ | Escape => false
  | _ => true
  end.

(** *** The Fn layer *)





(** *** Polls over time *)

(** One pass of [loop]: the value of [millis()] and what the library
    returns. *)
Definition Tick : Type := Z * Poll.

Definition pass (g : Globals) (t : Tick) : Globals := loop (fst t) (snd t) g.

Definition run (ts : list Tick) (g : Globals) : Globals := fold_left pass ts g.

(** The combo-edge signal of a pass: the pass toggled caps lock. *)
Definition fires (g : Globals) (t : Tick) : bool :=
  negb (Bool.eqb (capsLock (ed (pass g t))) (capsLock (ed g))).

(** How often the signal fires along [ts]. *)
Fixpoint fireCount (ts : list Tick) (g : Globals) : nat :=
  match ts with
  | [] => O
  | t :: ts => ((if fires g t then 1 else 0) + fireCount ts (pass g t))%nat
  end.

(** Fn and Shift are both down in the state of the poll. *)
Definition combo (t : Tick) : bool :=
  fn (keysState (snd t)) && shift (keysState (snd t)).

(** Modelled from the spec: the keyboard library is not part of the sketch;
    its change detection (section 4.1: a poll is changed when the set of
    active positions differs from the previous poll's) and its resolver
    (only a pressed Fn or Shift key sets the flag) are taken as a condition
    on what a poll may show after a poll with flags [lastFn], [lastShift]:
    with no key down both flags are clear, and an unchanged poll shows the
    flags of the poll before. *)
Definition tick_ok (lastFn lastShift : bool) (t : Tick) : bool :=
  let s := keysState (snd t) in
  (negb (isPressed (snd t) =? 0) || (negb (fn s) && negb (shift s)))
  && (isChange (snd t)
      || (Bool.eqb (fn s) lastFn && Bool.eqb (shift s) lastShift)).

Fixpoint coherent (lastFn lastShift : bool) (ts : list Tick) : bool :=
  match ts with
  | [] => true
  | t :: ts =>
      tick_ok lastFn lastShift t
      && coherent (fn (keysState (snd t))) (shift (keysState (snd t))) ts
  end.

(** A press-release cycle: a poll with all keys released (and so neither
    modifier down), polls in which the combo is not yet complete, the polls
    during which Fn and Shift are both held, and the polls after one of them
    was let go. *)
Record Cycle : Type := mkCycle {
  c_release : Tick;
  c_before : list Tick;
  c_hold : list Tick;
  c_after : list Tick
}.

Definition cycle_ticks (c : Cycle) : list Tick :=
  c_release c :: c_before c ++ c_hold c ++ c_after c.

Definition cycle_ok (c : Cycle) : bool :=
  (isPressed (snd (c_release c)) =? 0)
  && negb (combo (c_release c))
  && forallb (fun t => negb (combo t)) (c_before c)
  && forallb combo (c_hold c)
  && negb (length (c_hold c) =? 0)%nat
  && forallb (fun t => negb (combo t)) (c_after c).

(** Rising edges of a sequence of levels that follows the level [prev]. *)
Fixpoint edges (prev : bool) (levels : list bool) : nat :=
  match levels with
  | [] => O
  | l :: levels => ((if l && negb prev then 1 else 0) + edges l levels)%nat
  end.

(** The levels of one cycle: low at the release, low until the combo is
    complete, high while it is held, low once it is broken. *)
Definition cycle_levels (ls : list bool) : Prop :=
  exists before hold after,
    ls = false :: before ++ hold ++ after /\
    forallb negb before = true /\
    forallb id hold = true /\ hold <> [] /\
    forallb negb after = true.

(** Sample polls: nothing down, Fn alone, Fn and Shift. *)
Definition no_keys : KeysState :=
  mkKeysState false false false false false false false false false 0 [] [] [].

Definition fn_only : KeysState :=
  mkKeysState false true false false false false false false false 0 [] [] [].

Definition fn_shift : KeysState :=
  mkKeysState false true true false false false false false false 2 [] []
    [129].

(** Fn and the key [a]. *)
Definition fn_a : KeysState :=
  mkKeysState false true false false false false false false false 0
    ["a"%char] [4] [].

(** A cycle in which the combo is completed by letting [a] go and pressing
    Shift between two polls, Fn held: two keys are down before and after,
    and the library, whose [isChange()] compares the number of keys down,
    reports no change. *)
Definition swapped_cycle : Cycle :=
  mkCycle (0, mkPoll true 0 no_keys)
    [(1, mkPoll true 2 fn_a)]
    [(2, mkPoll false 2 fn_shift)]
    [(3, mkPoll true 1 fn_only)].

(** Release, Fn, Fn+Shift held over two polls, Shift let go. *)
Definition sample_cycle (now : Z) : Cycle :=
  mkCycle (now, mkPoll true 0 no_keys)
    [(now + 1, mkPoll true 1 fn_only)]
    [(now + 2, mkPoll true 2 fn_shift); (now + 3, mkPoll false 2 fn_shift)]
    [(now + 4, mkPoll true 1 fn_only)].

(** *** The invariant as a check *)

(** [cursor_inv] as a boolean check. *)
Definition cursor_invb (ls : list WString) (n l c : Z) : bool :=
  (1 <=? n) && (n <=? MAX_LINES) && (0 <=? l) && (l <? n) && (0 <=? c)
  && (c <=? wlen (aget [] ls l)).

Definition snapshot_okb (u : UndoEntry) : bool :=
  valid u
  && cursor_invb (u_lines u) (u_lineCount u) (u_cursorLine u) (u_cursorCol u).

(** [Inv] as a boolean check; the ring condition runs over the
    [undoCount] most recent slots. *)
Definition Invb (g : Globals) : bool :=
  (length (lines (ed g)) =? Z.to_nat MAX_LINES)%nat
  && cursor_invb (lines (ed g)) (lineCount (ed g)) (cursorLine (ed g))
       (cursorCol (ed g))
  && (length (undoStack g) =? Z.to_nat UNDO_STACK_SIZE)%nat
  && forallb (fun u => (length (u_lines u) =? Z.to_nat MAX_LINES)%nat)
       (undoStack g)
  && (0 <=? undoHead g) && (undoHead g <? UNDO_STACK_SIZE)
  && (0 <=? undoCount g) && (undoCount g <=? UNDO_STACK_SIZE)
  && forallb
       (fun k =>
          snapshot_okb
            (aget blank_entry (undoStack g) (slot (undoHead g) (Z.of_nat k))))
       (seq 0 (Z.to_nat (undoCount g))).

(** *** The undo history, abstractly *)

(** What an undo step can bring back: the lines in use, their number and the
    cursor. *)
Definition Doc : Type := list WString * Z * Z * Z.

(** The document of the editor. *)
Definition doc (g : Globals) : Doc :=
  (buffer (ed g), lineCount (ed g), cursorLine (ed g), cursorCol (ed g)).

(** The document a ring entry holds. *)
Definition entry_doc (u : UndoEntry) : Doc :=
  (take (Z.to_nat (u_lineCount u)) (u_lines u), u_lineCount u,
   u_cursorLine u, u_cursorCol u).

(** The documents [popUndo] would restore, most recent first: the
    [undoCount] slots behind the head. *)
Definition history (g : Globals) : list Doc :=
  map (fun k : nat =>
         entry_doc
           (aget blank_entry (undoStack g) (slot (undoHead g) (Z.of_nat k))))
    (seq 0 (Z.to_nat (undoCount g))).

(** *** Polls of printable keys *)

(** The state of a poll that holds no Fn, Ctrl, Backspace, Enter or Tab:
    only printable keys, and possibly Shift, Alt or Opt. *)
Definition printable_only (s : KeysState) : bool :=
  negb (fn s) && negb (ctrl s) && negb (del s) && negb (enter s)
  && negb (tab s).

(** ** The canvas of [drawEditor] *)

(** What [drawEditor()] sends to the canvas, as the list of its drawing
    calls in order.  A [drawString] carries the text colour and the datum in
    force when it is called. *)

Inductive Color : Type :=
| TFT_BLACK | TFT_DARKGREY | TFT_GREEN | TFT_BLUE | TFT_WHITE | TFT_YELLOW
| TFT_CYAN
| color565 (r g b : Z).

Inductive Datum : Type := TL_DATUM | TC_DATUM | TR_DATUM.

Inductive Draw : Type :=
| fillScreen (c : Color)
| drawString (s : WString) (x y : Z) (c : Color) (d : Datum)
| fillRect (x y w h : Z) (c : Color)
| drawLine (x0 y0 x1 y1 : Z) (c : Color)
| pushSprite (x y : Z).

(** [snprintf(numBuf, sizeof(numBuf), "%3d", num)] with [char numBuf[5]]:
    the decimal digits, padded with blanks on the left to three characters,
    of which at most four fit the buffer. *)
Definition fmt_3d (num : Z) : WString :=
  let s := String_of_int num in
  take 4 (replicate (3 - length s) " "%char ++ s).

(** The body of the text loop of [drawEditor] for screen row [i]. *)
Definition draw_row (now : Z) (e : EditorState) (i : Z) : list Draw :=
  let leftMargin := if showLineNumbers e then 24 else 0 in
  let charW := 6 in
  let lineH := 9 in
  let textStartY := 1 in
  let lineIdx := i + scrollY e in
  let y := textStartY + i * lineH in
  (if showLineNumbers e
   then [drawString (fmt_3d (lineIdx + 1)) 0 y TFT_DARKGREY TL_DATUM]
   else [])
  ++ (let line := aget [] (lines e) lineIdx in
      let startCol := scrollX e in
      let maxChars := Z.quot (240 - leftMargin) charW in
      if startCol <? wlen line then
        let visible :=
          substring line (unsigned_of_int startCol)
            (unsigned_of_int (startCol + maxChars)) in
        (if selectAll e
         then [fillRect leftMargin y (wlen visible * charW) lineH TFT_BLUE]
         else [])
        ++ [drawString visible leftMargin y
              (if selectAll e then TFT_BLACK else TFT_GREEN) TL_DATUM]
      else [])
  ++ (if lineIdx =? cursorLine e then
        let cursorX := leftMargin + (cursorCol e - scrollX e) * charW in
        if (cursorX >=? leftMargin) && (cursorX <? 240) then
          if (now / 500) mod 2 =? 0
          then [drawLine cursorX y cursorX (y + lineH - 1) TFT_WHITE]
          else []
        else []
      else []).

(** [for (int i = from; i < VISIBLE_LINES && (i + ed.scrollY) < ed.lineCount;
    i++)] with [n] iterations left. *)
Fixpoint draw_rows (n : nat) (i : Z) (now : Z) (e : EditorState)
  : list Draw :=
  match n with
  | O => []
  | S n' =>
      if (i <? VISIBLE_LINES) && (i + scrollY e <? lineCount e)
      then draw_row now e i ++ draw_rows n' (i + 1) now e
      else []
  end.

(** The centre of the status bar, with its colour. *)
Definition status_center (now : Z) (e : EditorState) : WString * Color :=
  if (wlen (notification e) >? 0)
     && (elapsed now (notificationTime e) <? NOTIFICATION_MS)
  then (notification e, TFT_YELLOW)
  else ((if capsLock e then lit "CAPS " else [])
          ++ (if showLineNumbers e then lit "LN " else []), TFT_CYAN).

(** The drawing calls of [drawEditor()]. *)
Definition drawEditor_canvas (now : Z) (e : EditorState) : list Draw :=
  let statusY := 126 in
  [fillScreen TFT_BLACK]
  ++ draw_rows (Z.to_nat VISIBLE_LINES) 0 now e
  ++ [fillRect 0 (statusY - 1) 240 10 (color565 30 30 60);
      drawString
        (lit "L" ++ String_of_int (cursorLine e + 1) ++ lit ":"
           ++ String_of_int (cursorCol e + 1)) 2 statusY TFT_WHITE TL_DATUM;
      drawString (fst (status_center now e)) 120 statusY
        (snd (status_center now e)) TC_DATUM;
      drawString (String_of_int (lineCount e) ++ lit "L") 238 statusY
        TFT_WHITE TR_DATUM;
      pushSprite 0 0].

(** *** The window *)

(** The cursor lies in the window that [ensureCursorVisible] scrolls to. *)
Definition in_window (e : EditorState) : Prop :=
  scrollY e <= cursorLine e < scrollY e + VISIBLE_LINES /\
  scrollX e <= cursorCol e
    < scrollX e + (CHARS_PER_LINE - (if showLineNumbers e then 4 else 0)).

(** The fields the window depends on. *)
Definition view (g : Globals) : Z * Z * Z * Z * bool :=
  (cursorLine (ed g), cursorCol (ed g), scrollY (ed g), scrollX (ed g),
   showLineNumbers (ed g)).

(** The scroll offsets. *)
Definition scroll (g : Globals) : Z * Z := (scrollY (ed g), scrollX (ed g)).

(** A poll that the keyboard block processes, outside the Ctrl layer. *)
Definition scrolling_poll (p : Poll) : bool :=
  isChange p && negb (isPressed p =? 0)
  && (fn (keysState p) || negb (ctrl (keysState p))).

(** *** The Ctrl layer *)

(** The keys of the Ctrl layer that undo and that select all. *)
Definition is_undo_key (c : ascii) : bool := Ascii.eqb (tolower c) "z".
Definition is_select_key (c : ascii) : bool := Ascii.eqb (tolower c) "a".

(** A processed poll of the Ctrl layer. *)
Definition ctrl_poll (p : Poll) : bool :=
  isChange p && negb (isPressed p =? 0)
  && negb (fn (keysState p)) && ctrl (keysState p).

(** A pass that finds nothing to do: no key event, no redraw pending, no
    notification to expire and no blink due. *)
Definition idle (now : Z) (p : Poll) (g : Globals) : Prop :=
  isChange p = false /\ needsRedraw g = false /\
  (wlen (notification (ed g)) = 0 \/
   elapsed now (notificationTime (ed g)) < NOTIFICATION_MS) /\
  elapsed now (lastBlink g) < 500.

(** * The keyboard diagnostic sketch

    A shallow embedding of
    [examples/keyboard-diagnostic/keyboard-diagnostic.ino], with the
    conventions of the editor: the globals are gathered in records, the
    canvas is the list of the drawing calls, and what goes to [Serial] is
    the list of the lines printed. *)

Module Diagnostic.

Definition LOG_LINES : Z := 16.

(** The scrolling log buffer ([logLines], [logHead], [logCount]) and the
    lines sent to [Serial]. *)
Record Log : Type := mkLog {
  logLines : list WString;
  logHead : Z;
  logCount : Z;
  serial : list WString
}.

Definition logPrint (line : WString) (st : Log) : Log :=
  mkLog
    (aset (logLines st) (logHead st) line)
    (Z.rem (logHead st + 1) LOG_LINES)
    (if logCount st <? LOG_LINES then logCount st + 1 else logCount st)
    (serial st ++ [line]).

(** [for (int i = from; i < logCount && y < 130; i++)] with [n] iterations
    left. *)
Fixpoint draw_log_lines (n : nat) (i y startIdx : Z) (st : Log)
  : list Draw :=
  match n with
  | O => []
  | S n' =>
      if (i <? logCount st) && (y <? 130) then
        let idx := Z.rem (startIdx + i) LOG_LINES in
        drawString (aget [] (logLines st) idx) 0 y TFT_GREEN TL_DATUM
          :: draw_log_lines n' (i + 1) (y + 8) startIdx st
      else []
  end.

Definition drawLog (st : Log) : list Draw :=
  let startIdx := if logCount st <? LOG_LINES then 0 else logHead st in
  [fillScreen TFT_BLACK;
   drawString (lit "KB DIAG | Fn+Shift=CapsToggle") 0 0 TFT_YELLOW TL_DATUM]
  ++ draw_log_lines (Z.to_nat (logCount st)) 0 10 startIdx st
  ++ [pushSprite 0 0].

(** One upper-case hexadecimal digit. *)
Definition hexDigit (d : Z) : ascii :=
  nth (Z.to_nat d) (lit "0123456789ABCDEF") "0"%char.

(** [snprintf(buf, sizeof(buf), "0x%02X", v)] with [char buf[5]] and
    [uint8_t v]: the argument is taken modulo 256, and at most four
    characters fit the buffer. *)
Definition hexByte (v : Z) : WString :=
  let v := v mod 256 in
  take 4 (lit "0x" ++ [hexDigit (v / 16); hexDigit (v mod 16)]).

(** [snprintf(buf, sizeof(buf), "'%c'", c)] with [char buf[4]] for the
    printable characters, [hexByte((uint8_t)c)] for the others.  A [char]
    above 126 fails the test whether [char] is signed or not. *)
Definition printableChar (c : ascii) : WString :=
  if (32 <=? code c) && (code c <=? 126)
  then take 3 (lit "'" ++ [c] ++ lit "'")
  else hexByte (code c).

(** [String(n)] for a [size_t]. *)
Definition String_of_size {A : Type} (l : list A) : WString :=
  String_of_int (Z.of_nat (length l)).

(** The four strings that [dumpKeysState] builds. *)

(** Line 1: Boolean flags *)
Definition flags (s : KeysState) : WString :=
  let flags := lit "F:" in
  let flags := if tab s then flags ++ lit "TAB " else flags in
  let flags := if fn s then flags ++ lit "FN " else flags in
  let flags := if shift s then flags ++ lit "SHF " else flags in
  let flags := if ctrl s then flags ++ lit "CTL " else flags in
  let flags := if opt s then flags ++ lit "OPT " else flags in
  let flags := if alt s then flags ++ lit "ALT " else flags in
  let flags := if del s then flags ++ lit "DEL " else flags in
  let flags := if enter s then flags ++ lit "ENT " else flags in
  let flags := if space s then flags ++ lit "SPC " else flags in
  let flags :=
    if List.list_eq_dec ascii_dec flags (lit "F:")
    then flags ++ lit "(none)" else flags in
  flags ++ lit " mod=" ++ hexByte (modifiers s).

(** Line 2: word[] contents *)
Definition wordStr (s : KeysState) : WString :=
  let wordStr := lit "W[" ++ String_of_size (word s) ++ lit "]:" in
  let wordStr :=
    fold_left (fun w c => w ++ printableChar c ++ lit " ") (word s) wordStr in
  match word s with [] => wordStr ++ lit "(empty)" | _ => wordStr end.

(** Line 3: hid_keys[] contents *)
Definition hidStr (s : KeysState) : WString :=
  let hidStr := lit "H[" ++ String_of_size (hid_keys s) ++ lit "]:" in
  let hidStr :=
    fold_left (fun h k => h ++ hexByte k ++ lit " ") (hid_keys s) hidStr in
  match hid_keys s with [] => hidStr ++ lit "(empty)" | _ => hidStr end.

(** Line 4: modifier_keys[] contents *)
Definition modStr (s : KeysState) : WString :=
  let modStr := lit "M[" ++ String_of_size (modifier_keys s) ++ lit "]:" in
  fold_left (fun m k => m ++ hexByte k ++ lit " ") (modifier_keys s) modStr.

(** [caps] is what [M5Cardputer.Keyboard.capslocked()] returns. *)
Definition dumpKeysState (s : KeysState) (caps : bool) (st : Log) : Log :=
  let st := logPrint (flags s) st in
  let st := logPrint (wordStr s) st in
  let st := logPrint (hidStr s) st in
  let st :=
    match modifier_keys s with
    | [] => st
    | _ => logPrint (modStr s) st
    end in
  (* Line 5: Caps lock state *)
  let st := if caps then logPrint (lit "CAPS: ON") st else st in
  logPrint (lit "---") st.

(** The globals of the sketch: the log, the previous-frame flags, the
    caps-lock flag kept by the keyboard library, and the canvas as last
    pushed to the display. *)
Record Globals : Type := mkGlobals {
  log : Log;
  prevFn : bool;
  prevShift : bool;
  capslocked : bool;
  canvas : list Draw
}.

(** The log before [setup()]: zero-initialised globals. *)
Definition log0 : Log := mkLog (replicate (Z.to_nat LOG_LINES) []) 0 0 [].

Definition setup : Globals :=
  let st := logPrint (lit "Cardputer ADV KB Diag") log0 in
  let st := logPrint (lit "Press any key/combo...") st in
  let st := logPrint (lit "Fn+Shift = toggle caps") st in
  let st := logPrint (lit "Serial @ 115200") st in
  let st := logPrint (lit "---") st in
  mkGlobals st false false false (drawLog st).

(** One pass of [loop()]; [keyList] is what [Keyboard.keyList()] returns,
    the matrix positions of the pressed keys. *)
Definition loop (p : Poll) (keyList : list (Z * Z)) (g : Globals) : Globals :=
  if isChange p then
    if negb (isPressed p =? 0) then
      let status := keysState p in
      (* Fn+Shift = toggle caps lock *)
      let g :=
        if fn status && shift status && negb (prevFn g && prevShift g) then
          let caps := negb (capslocked g) in
          mkGlobals
            (logPrint (if caps then lit ">>> CAPS LOCK ON"
                       else lit ">>> CAPS LOCK OFF") (log g))
            (prevFn g) (prevShift g) caps (canvas g)
        else g in
      let g :=
        mkGlobals (log g) (fn status) (shift status) (capslocked g)
          (canvas g) in
      (* Also dump raw key positions for rollover analysis *)
      let posStr := lit "P[" ++ String_of_size keyList ++ lit "]:" in
      let posStr :=
        fold_left
          (fun s p =>
             s ++ lit "(" ++ String_of_int (fst p) ++ lit ","
               ++ String_of_int (snd p) ++ lit ") ")
          keyList posStr in
      let st := logPrint posStr (log g) in
      let st := dumpKeysState status (capslocked g) st in
      mkGlobals st (prevFn g) (prevShift g) (capslocked g) (drawLog st)
    else
      (* All keys released *)
      mkGlobals (log g) false false (capslocked g) (canvas g)
  else g.

(** The log after [logPrint] on each line of [ls], in order. *)
Definition logPrints (ls : list WString) (st : Log) : Log :=
  fold_left (fun st l => logPrint l st) ls st.

(** The passes of [loop()] over time: what the library returns in each. *)
Definition run (ps : list (Poll * list (Z * Z))) (g : Globals) : Globals :=
  fold_left (fun g t => loop (fst t) (snd t) g) ps g.

(** The rows of the log on the canvas: the header, then [ls] from y = 10
    down, eight pixels apart. *)
Definition log_screen (ls : list WString) : list Draw :=
  [fillScreen TFT_BLACK;
   drawString (lit "KB DIAG | Fn+Shift=CapsToggle") 0 0 TFT_YELLOW TL_DATUM]
  ++ imap (fun i l => drawString l 0 (10 + 8 * Z.of_nat i) TFT_GREEN TL_DATUM)
       ls
  ++ [pushSprite 0 0].

(** A character that [printableChar] quotes. *)
Definition printable (c : ascii) : bool := (32 <=? code c) && (code c <=? 126).

End Diagnostic.

(** * Properties *)

(** ** Arrays *)

Section Arrays.
Context {A : Type}.
Implicit Types (a : list A) (d v : A) (i : Z) (k : nat).

Lemma aget_nat d a k : aget d a (Z.of_nat k) = default d (a !! k).
Proof.
  unfold aget. destruct (Z.leb_spec 0 (Z.of_nat k)); [|lia].
  by rewrite Nat2Z.id.
Qed.

Lemma aset_nat a k v : aset a (Z.of_nat k) v = <[k := v]> a.
Proof.
  unfold aset. destruct (Z.leb_spec 0 (Z.of_nat k)); [|lia].
  by rewrite Nat2Z.id.
Qed.

Lemma aget_Z d a i : 0 <= i -> aget d a i = default d (a !! Z.to_nat i).
Proof. intros H. rewrite <- (Z2Nat.id i) at 1 by done. apply aget_nat. Qed.

Lemma aset_Z a i v : 0 <= i -> aset a i v = <[Z.to_nat i := v]> a.
Proof. intros H. rewrite <- (Z2Nat.id i) at 1 by done. apply aset_nat. Qed.

Lemma length_aset a i v : length (aset a i v) = length a.
Proof. unfold aset. destruct (0 <=? i); [apply length_insert | done]. Qed.

Lemma aget_aset_eq d a i v :
  0 <= i -> (Z.to_nat i < length a)%nat -> aget d (aset a i v) i = v.
Proof.
  intros H0 Hlt. rewrite aget_Z, aset_Z by done.
  by rewrite list_lookup_insert_eq.
Qed.

Lemma aget_aset_ne d a i j v : i <> j -> aget d (aset a i v) j = aget d a j.
Proof.
  intros Hne. unfold aget, aset.
  destruct (Z.leb_spec 0 j); [|done].
  destruct (Z.leb_spec 0 i); [|done].
  rewrite list_lookup_insert_ne by lia. done.
Qed.
End Arrays.

(** ** The copy and shift loops *)

Lemma copy_lines_length n : forall i src dst,
  length (copy_lines n i src dst) = length dst.
Proof.
  induction n as [|n IH]; intros i src dst; simpl; [done|].
  by rewrite IH, length_aset.
Qed.

Lemma copy_lines_lookup n : forall k src dst j,
  (k + n <= length dst)%nat ->
  copy_lines n (Z.of_nat k) src dst !! j =
    if decide (k <= j < k + n)%nat then Some (default [] (src !! j))
    else dst !! j.
Proof.
  induction n as [|n IH]; intros k src dst j Hlen; simpl.
  - case_decide; [lia | done].
  - replace (Z.of_nat k + 1) with (Z.of_nat (S k)) by lia.
    rewrite IH by (rewrite length_aset; lia).
    rewrite aset_nat, aget_nat.
    repeat case_decide; try lia; try done.
    + assert (j = k) as -> by lia. by rewrite list_lookup_insert_eq by lia.
    + by rewrite list_lookup_insert_ne by lia.
Qed.

Lemma shift_up_length n : forall i ls, length (shift_up n i ls) = length ls.
Proof.
  induction n as [|n IH]; intros i ls; simpl; [done|].
  by rewrite IH, length_aset.
Qed.

Lemma shift_up_lookup n : forall k ls j,
  (k + n < length ls)%nat ->
  shift_up n (Z.of_nat k) ls !! j =
    if decide (k <= j < k + n)%nat then ls !! S j else ls !! j.
Proof.
  induction n as [|n IH]; intros k ls j Hlen; simpl.
  - case_decide; [lia | done].
  - replace (Z.of_nat k + 1) with (Z.of_nat (S k)) by lia.
    rewrite IH by (rewrite length_aset; lia).
    rewrite aset_nat, aget_nat.
    destruct (lookup_lt_is_Some_2 ls (S k)) as [x Hx]; [lia|]. rewrite Hx.
    repeat case_decide; try lia.
    + by rewrite list_lookup_insert_ne by lia.
    + assert (j = k) as -> by lia. by rewrite list_lookup_insert_eq by lia.
    + by rewrite list_lookup_insert_ne by lia.
Qed.

Lemma shift_down_length n : forall i ls, length (shift_down n i ls) = length ls.
Proof.
  induction n as [|n IH]; intros i ls; simpl; [done|].
  by rewrite IH, length_aset.
Qed.

(** [n] iterations ending at index [k + 1]: the entries [k + 1 .. k + n]
    receive the former entries [k .. k + n - 1]. *)
Lemma shift_down_lookup n : forall k ls j,
  (k + n < length ls)%nat ->
  shift_down n (Z.of_nat (k + n)) ls !! j =
    if decide (k < j <= k + n)%nat then ls !! pred j else ls !! j.
Proof.
  induction n as [|n IH]; intros k ls j Hlen; simpl.
  - case_decide; [lia | done].
  - replace (Z.of_nat (k + S n) - 1) with (Z.of_nat (k + n)) by lia.
    rewrite IH by (rewrite length_aset; lia).
    rewrite aset_nat.
    replace (Z.of_nat (k + n)) with (Z.of_nat (k + S n) - 1) by lia.
    replace (Z.of_nat (k + S n) - 1) with (Z.of_nat (k + n)) by lia.
    rewrite aget_nat.
    destruct (lookup_lt_is_Some_2 ls (k + n)) as [x Hx]; [lia|]. rewrite Hx.
    repeat case_decide; try lia.
    + by rewrite list_lookup_insert_ne by lia.
    + assert (j = k + S n)%nat as -> by lia.
      rewrite list_lookup_insert_eq by lia.
      by replace (pred (k + S n)) with (k + n)%nat by lia.
    + by rewrite list_lookup_insert_ne by lia.
Qed.

(** ** Strings *)

Lemma unsigned_of_int_nonneg z : 0 <= z -> unsigned_of_int z = z.
Proof. intros H. unfold unsigned_of_int. destruct (Z.ltb_spec z 0); lia. Qed.

Lemma wlen_nonneg (s : WString) : 0 <= wlen s.
Proof. unfold wlen. lia. Qed.

Lemma wlen_app (s t : WString) : wlen (s ++ t) = wlen s + wlen t.
Proof. unfold wlen. rewrite length_app. lia. Qed.

Lemma substring_prefix (s : WString) c :
  0 <= c <= wlen s -> substring s 0 c = take (Z.to_nat c) s.
Proof.
  intros Hc. unfold substring.
  destruct (Z.gtb_spec 0 c); [lia|].
  destruct (Z.geb_spec 0 (wlen s)).
  - assert (s = []) as -> by (destruct s; [done | unfold wlen in *; simpl in *; lia]).
    by rewrite take_nil.
  - destruct (Z.gtb_spec c (wlen s)); [lia|].
    by rewrite Z.sub_0_r.
Qed.

Lemma substring_suffix (s : WString) c :
  0 <= c <= wlen s -> substring_from s c = drop (Z.to_nat c) s.
Proof.
  intros Hc. unfold substring_from, substring.
  destruct (Z.gtb_spec c (wlen s)); [lia|].
  destruct (Z.geb_spec c (wlen s)).
  - rewrite drop_ge; [done | unfold wlen in *; lia].
  - destruct (Z.gtb_spec (wlen s) (wlen s)); [lia|].
    rewrite take_ge; [done|]. rewrite length_drop. unfold wlen. lia.
Qed.

(** ** The undo ring *)

Ltac Zify.zify_post_hook ::= Z.to_euclidean_division_equations.

Lemma ed_pushUndo g : ed (pushUndo g) = ed g.
Proof. reflexivity. Qed.

Lemma slot_push h : 0 <= h < UNDO_STACK_SIZE ->
  slot (Z.rem (h + 1) UNDO_STACK_SIZE) 0 = h.
Proof. unfold slot, UNDO_STACK_SIZE. intros H. lia. Qed.

Lemma slot_push_older h k : 0 <= h < UNDO_STACK_SIZE -> 
  slot (Z.rem (h + 1) UNDO_STACK_SIZE) k = slot h (k - 1).
Proof. unfold slot, UNDO_STACK_SIZE. intros H. lia. Qed.

Lemma slot_distinct h k : 0 <= h < UNDO_STACK_SIZE -> 0 <= k < UNDO_STACK_SIZE - 1 ->
  slot h k <> h.
Proof. unfold slot, UNDO_STACK_SIZE. intros H. lia. Qed.

Lemma slot_pop h : 0 <= h < UNDO_STACK_SIZE ->
  Z.rem (h - 1 + UNDO_STACK_SIZE) UNDO_STACK_SIZE = slot h 0.
Proof. unfold slot, UNDO_STACK_SIZE. intros H. lia. Qed.

Lemma slot_pop_older h k : 0 <= h < UNDO_STACK_SIZE ->
  slot (slot h 0) k = slot h (k + 1).
Proof. unfold slot, UNDO_STACK_SIZE. intros H. lia. Qed.

Lemma slot_range h k : 0 <= slot h k < UNDO_STACK_SIZE.
Proof. unfold slot, UNDO_STACK_SIZE. lia. Qed.

Lemma pushUndo_eq g :
  pushUndo g =
    with_undo (aset (undoStack g) (undoHead g) (snapshot_of g))
      (Z.rem (undoHead g + 1) UNDO_STACK_SIZE)
      (if undoCount g <? UNDO_STACK_SIZE then undoCount g + 1 else undoCount g)
      g.
Proof. reflexivity. Qed.

Lemma blank_lines_length :
  length (u_lines blank_entry) = Z.to_nat MAX_LINES.
Proof. apply length_replicate. Qed.

Lemma entry_lines_length (st : list UndoEntry) i :
  Forall (fun u => length (u_lines u) = Z.to_nat MAX_LINES) st ->
  length (u_lines (aget blank_entry st i)) = Z.to_nat MAX_LINES.
Proof.
  intros Hall. unfold aget. destruct (0 <=? i); [|apply blank_lines_length].
  destruct (st !! Z.to_nat i) as [u|] eqn:Hu; simpl.
  - by apply (Forall_lookup_1 _ _ _ _ Hall Hu).
  - apply blank_lines_length.
Qed.

Lemma copy_lines_prefix n (src dst : list WString) :
  (n <= length src)%nat -> (n <= length dst)%nat ->
  take n (copy_lines n 0 src dst) = take n src.
Proof.
  intros Hs Hd. apply list_eq. intros j.
  destruct (decide (j < n)%nat) as [Hj|Hj].
  - rewrite !lookup_take_lt by done.
    rewrite (copy_lines_lookup n 0%nat) by (simpl; lia).
    case_decide; [|lia].
    destruct (lookup_lt_is_Some_2 src j) as [x Hx]; [lia|]. by rewrite Hx.
  - rewrite !lookup_take_ge by lia. done.
Qed.

Lemma copy_lines_aget n (src dst : list WString) i :
  (n <= length src)%nat -> (n <= length dst)%nat -> 0 <= i < Z.of_nat n ->
  aget [] (copy_lines n 0 src dst) i = aget [] src i.
Proof.
  intros Hs Hd Hi. rewrite !aget_Z by lia.
  rewrite (copy_lines_lookup n 0%nat) by (simpl; lia).
  case_decide; [done|lia].
Qed.

Lemma snapshot_of_ok g : Inv g -> snapshot_ok (snapshot_of g).
Proof.
  intros (Hlen & (Hn & Hl & Hc) & Hst & Hall & Hh & Hcnt & Hring).
  split; [done|]. unfold snapshot_of; simpl.
  split; [done|]. split; [done|].
  rewrite copy_lines_aget; [done | unfold MAX_LINES in *; lia | | lia].
  rewrite entry_lines_length by done. unfold MAX_LINES in *; lia.
Qed.

Lemma pushUndo_Inv g : Inv g -> Inv (pushUndo g).
Proof.
  intros HI. pose proof (snapshot_of_ok g HI) as Hsnap.
  destruct HI as (Hlen & Hcur & Hst & Hall & Hh & Hcnt & Hring).
  rewrite pushUndo_eq. unfold Inv; simpl.
  split; [done|]. split; [done|].
  split; [by rewrite length_aset|].
  split.
  { rewrite aset_Z by lia. apply Forall_insert; [done|].
    unfold snapshot_of; simpl. rewrite copy_lines_length.
    by apply entry_lines_length. }
  split; [unfold UNDO_STACK_SIZE in *; lia|].
  split; [destruct (Z.ltb_spec (undoCount g) UNDO_STACK_SIZE); lia|].
  intros k Hk.
  destruct (Z.eq_dec k 0) as [->|Hk0].
  - rewrite slot_push by done.
    rewrite aget_aset_eq; [done | lia | unfold UNDO_STACK_SIZE in *; lia].
  - rewrite slot_push_older by done.
    assert (0 <= k - 1 < undoCount g) as Hk1
      by (destruct (Z.ltb_spec (undoCount g) UNDO_STACK_SIZE); lia).
    rewrite aget_aset_ne; [by apply Hring|].
    intros Heq. symmetry in Heq. revert Heq. apply slot_distinct; [done|].
    destruct (Z.ltb_spec (undoCount g) UNDO_STACK_SIZE); lia.
Qed.

Lemma popUndo_empty now g :
  undoCount g = 0 ->
  popUndo now g = upd_ed (notify (lit "Nothing to undo") now) g.
Proof. intros H. unfold popUndo. by rewrite H. Qed.

Lemma popUndo_nonempty now g :
  0 <= undoHead g < UNDO_STACK_SIZE ->
  undoCount g <> 0 ->
  valid (aget blank_entry (undoStack g) (slot (undoHead g) 0)) = true ->
  popUndo now g =
    with_ed
      (restored now (aget blank_entry (undoStack g) (slot (undoHead g) 0)) (ed g))
      (with_undo (undoStack g) (slot (undoHead g) 0) (undoCount g - 1) g).
Proof.
  intros Hh Hc Hv. unfold popUndo.
  destruct (Z.eqb_spec (undoCount g) 0); [done|].
  rewrite slot_pop by done. simpl. rewrite Hv. reflexivity.
Qed.

Lemma Inv_with_ed g e :
  Inv g -> length (lines e) = Z.to_nat MAX_LINES -> cursor_ok e ->
  Inv (with_ed e g).
Proof.
  intros (_ & _ & Hst & Hall & Hh & Hcnt & Hring) Hlen Hcur.
  unfold Inv; simpl. done.
Qed.

Lemma Inv_upd_ed g f :
  Inv g ->
  (forall e, lines (f e) = lines e /\ lineCount (f e) = lineCount e /\
             cursorLine (f e) = cursorLine e /\ cursorCol (f e) = cursorCol e) ->
  Inv (upd_ed f g).
Proof.
  intros HI Hf. destruct (Hf (ed g)) as (H1 & H2 & H3 & H4).
  apply Inv_with_ed; [done | rewrite H1; apply HI |].
  destruct HI as (_ & Hcur & _).
  unfold cursor_ok in *. by rewrite H1, H2, H3, H4.
Qed.

Lemma popUndo_Inv now g : Inv g -> Inv (popUndo now g).
Proof.
  intros HI.
  destruct (Z.eq_dec (undoCount g) 0) as [H0|H0].
  - rewrite popUndo_empty by done. by apply Inv_upd_ed.
  - pose proof HI as (Hlen & Hcur & Hst & Hall & Hh & Hcnt & Hring).
    destruct (Hring 0) as (Hv & Hn & Hl & Hc); [lia|].
    rewrite popUndo_nonempty by done.
    unfold Inv; simpl.
    split; [by rewrite copy_lines_length|].
    split.
    { unfold cursor_ok, cursor_inv; simpl.
      split; [done|]. split; [done|].
      rewrite copy_lines_aget; [done | | | lia].
      - rewrite entry_lines_length by done. unfold MAX_LINES in *; lia.
      - unfold MAX_LINES in *; lia. }
    split; [done|]. split; [done|].
    split; [apply slot_range|].
    split; [lia|].
    intros k Hk. rewrite slot_pop_older by done. apply Hring. lia.
Qed.

(** ** Insertion and cursor movement *)

Lemma wlen_take_drop (s : WString) (c : Z) (x : ascii) :
  0 <= c <= wlen s ->
  wlen (take (Z.to_nat c) s ++ x :: drop (Z.to_nat c) s) = wlen s + 1.
Proof.
  intros Hc. unfold wlen in *.
  rewrite length_app, length_take; simpl. rewrite length_drop. lia.
Qed.

Lemma cursorCol_set_cur_line v e :
  cursorCol (set_cur_line v e) = cursorCol e.
Proof. reflexivity. Qed.

Lemma insertChar_eq c g :
  cursor_ok (ed g) ->
  insertChar c g =
    with_ed
      (with_cursorCol (cursorCol (ed g) + 1)
         (set_cur_line
            (take (Z.to_nat (cursorCol (ed g))) (cur_line (ed g))
               ++ c :: drop (Z.to_nat (cursorCol (ed g))) (cur_line (ed g)))
            (ed g)))
      (pushUndo g).
Proof.
  intros (Hn & Hl & Hc). unfold insertChar. rewrite ed_pushUndo.
  fold (cur_line (ed g)) in Hc.
  destruct (Z.geb_spec (cursorCol (ed g)) (wlen (cur_line (ed g)))) as [Hge|Hlt].
  - rewrite cursorCol_set_cur_line.
    rewrite take_ge, drop_ge by (unfold wlen in *; lia). reflexivity.
  - rewrite cursorCol_set_cur_line, unsigned_of_int_nonneg by lia.
    rewrite substring_prefix, substring_suffix by lia. reflexivity.
Qed.

Lemma cursor_ok_set_cur_line e v c :
  cursor_ok e -> length (lines e) = Z.to_nat MAX_LINES -> 0 <= c <= wlen v ->
  cursor_ok (with_cursorCol c (set_cur_line v e)).
Proof.
  intros (Hn & Hl & Hc) Hlen Hv. unfold cursor_ok, cursor_inv; simpl.
  split; [done|]. split; [done|].
  rewrite aget_aset_eq; [done | lia | unfold MAX_LINES in *; lia].
Qed.

Lemma insertChar_Inv c g : Inv g -> Inv (insertChar c g).
Proof.
  intros HI. pose proof HI as (Hlen & Hcur & _).
  rewrite insertChar_eq by done.
  apply Inv_with_ed; [by apply pushUndo_Inv | simpl; by rewrite length_aset |].
  apply cursor_ok_set_cur_line; [done..|].
  destruct Hcur as (_ & _ & Hc). fold (cur_line (ed g)) in Hc.
  rewrite wlen_take_drop by done. lia.
Qed.

Lemma tab_loop_Inv n : forall g, Inv g -> Inv (tab_loop n g).
Proof.
  induction n as [|n IH]; intros g HI; simpl; [done|].
  by apply IH, insertChar_Inv.
Qed.

Lemma handleTab_Inv g : Inv g -> Inv (handleTab g).
Proof. apply tab_loop_Inv. Qed.

(** A cursor move keeps the lines and the line count. *)
Lemma Inv_move g l c :
  Inv g ->
  0 <= l < lineCount (ed g) ->
  0 <= c <= wlen (aget [] (lines (ed g)) l) ->
  Inv (with_ed (with_cursorCol c (with_cursorLine l (ed g))) g).
Proof.
  intros HI Hl Hc. pose proof HI as (Hlen & (Hn & _) & _).
  apply Inv_with_ed; [done | done |].
  unfold cursor_ok, cursor_inv; simpl. done.
Qed.

Lemma clampCol_eq e :
  clampCol e = with_cursorCol (Z.min (cursorCol e) (wlen (cur_line e))) e.
Proof.
  unfold clampCol. destruct (Z.gtb_spec (cursorCol e) (wlen (cur_line e))).
  - by rewrite Z.min_r by lia.
  - rewrite Z.min_l by lia. by destruct e.
Qed.

Lemma cursorLeft_Inv g : Inv g -> Inv (cursorLeft g).
Proof.
  intros HI. pose proof HI as (Hlen & (Hn & Hl & Hc) & _).
  unfold cursorLeft.
  destruct (Z.gtb_spec (cursorCol (ed g)) 0).
  - replace (upd_ed _ g) with
      (with_ed (with_cursorCol (cursorCol (ed g) - 1)
                  (with_cursorLine (cursorLine (ed g)) (ed g))) g)
      by (by destruct g as [[] ?]).
    apply Inv_move; [done | done | lia].
  - destruct (Z.gtb_spec (cursorLine (ed g)) 0); [|done].
    apply Inv_move; [done | lia |]. unfold cur_line; simpl.
    pose proof (wlen_nonneg (aget [] (lines (ed g)) (cursorLine (ed g) - 1))).
    lia.
Qed.

Lemma cursorRight_Inv g : Inv g -> Inv (cursorRight g).
Proof.
  intros HI. pose proof HI as (Hlen & (Hn & Hl & Hc) & _).
  unfold cursorRight. fold (cur_line (ed g)) in Hc.
  destruct (Z.ltb_spec (cursorCol (ed g)) (wlen (cur_line (ed g)))).
  - replace (upd_ed _ g) with
      (with_ed (with_cursorCol (cursorCol (ed g) + 1)
                  (with_cursorLine (cursorLine (ed g)) (ed g))) g)
      by (by destruct g as [[] ?]).
    apply Inv_move; [done | done |]. fold (cur_line (ed g)). lia.
  - destruct (Z.ltb_spec (cursorLine (ed g)) (lineCount (ed g) - 1)); [|done].
    apply Inv_move; [done | lia |].
    pose proof (wlen_nonneg (aget [] (lines (ed g)) (cursorLine (ed g) + 1))).
    lia.
Qed.

Lemma cursorUp_Inv g : Inv g -> Inv (cursorUp g).
Proof.
  intros HI. pose proof HI as (Hlen & (Hn & Hl & Hc) & _).
  unfold cursorUp.
  destruct (Z.gtb_spec (cursorLine (ed g)) 0); [|done].
  rewrite clampCol_eq. unfold cur_line; simpl.
  apply Inv_move; [done | lia |].
  pose proof (wlen_nonneg (aget [] (lines (ed g)) (cursorLine (ed g) - 1))).
  lia.
Qed.

Lemma cursorDown_Inv g : Inv g -> Inv (cursorDown g).
Proof.
  intros HI. pose proof HI as (Hlen & (Hn & Hl & Hc) & _).
  unfold cursorDown.
  destruct (Z.ltb_spec (cursorLine (ed g)) (lineCount (ed g) - 1)); [|done].
  rewrite clampCol_eq. unfold cur_line; simpl.
  apply Inv_move; [done | lia |].
  pose proof (wlen_nonneg (aget [] (lines (ed g)) (cursorLine (ed g) + 1))).
  lia.
Qed.

(** ** Joining and splitting lines *)

Lemma join_lines_length ls n l : length (join_lines ls n l) = length ls.
Proof.
  unfold join_lines. by rewrite length_aset, shift_up_length, length_aset.
Qed.

Lemma join_lines_lookup (ls : list WString) (N L : nat) (j : nat) :
  (1 <= L < N)%nat -> (N <= length ls)%nat ->
  join_lines ls (Z.of_nat N) (Z.of_nat L) !! j =
    if decide (j = L - 1)%nat
    then Some (default [] (ls !! (L - 1)%nat) ++ default [] (ls !! L))
    else if decide (L <= j < N - 1)%nat then ls !! S j
    else if decide (j = N - 1)%nat then Some []
    else ls !! j.
Proof.
  intros HL HN. unfold join_lines.
  replace (Z.of_nat L - 1) with (Z.of_nat (L - 1)) by lia.
  replace (Z.of_nat N - 1) with (Z.of_nat (N - 1)) by lia.
  replace (Z.to_nat (Z.of_nat (N - 1) - Z.of_nat L)) with (N - 1 - L)%nat by lia.
  rewrite !aset_nat, !aget_nat.
  rewrite list_lookup_insert, shift_up_length, length_insert.
  rewrite shift_up_lookup by (rewrite length_insert; lia).
  rewrite !list_lookup_insert.
  repeat case_decide; try lia; done.
Qed.

Lemma join_lines_buffer (ls : list WString) (N L : nat) :
  (1 <= L < N)%nat -> (N <= length ls)%nat ->
  take (N - 1) (join_lines ls (Z.of_nat N) (Z.of_nat L)) =
    delete L
      (<[(L - 1)%nat := default [] (ls !! (L - 1)%nat) ++ default [] (ls !! L)]>
         (take N ls)).
Proof.
  intros HL HN. apply list_eq. intros j.
  destruct (decide (j < N - 1)%nat) as [Hj|Hj].
  - rewrite lookup_take_lt, join_lines_lookup by done.
    destruct (decide (j < L)%nat).
    + rewrite list_lookup_delete_lt, list_lookup_insert, length_take by done.
      rewrite lookup_take_lt by lia.
      repeat case_decide; try lia; done.
    + rewrite list_lookup_delete_ge, list_lookup_insert, length_take by lia.
      rewrite lookup_take_lt by lia.
      repeat case_decide; try lia; done.
  - rewrite lookup_take_ge by lia. symmetry. apply lookup_ge_None_2.
    rewrite length_delete.
    + rewrite length_insert, length_take. lia.
    + apply lookup_lt_is_Some_2. rewrite length_insert, length_take. lia.
Qed.

Lemma split_lines_length ls n l a b : length (split_lines ls n l a b) = length ls.
Proof.
  unfold split_lines. by rewrite length_aset, shift_down_length, length_aset.
Qed.

Lemma split_lines_lookup (ls : list WString) (N L : nat) a b (j : nat) :
  (L < N)%nat -> (N < length ls)%nat ->
  split_lines ls (Z.of_nat N) (Z.of_nat L) a b !! j =
    if decide (j = L) then Some a
    else if decide (j = S L) then Some b
    else if decide (S L < j <= N)%nat then ls !! pred j
    else ls !! j.
Proof.
  intros HL HN. unfold split_lines.
  replace (Z.of_nat L + 1) with (Z.of_nat (S L)) by lia.
  replace (Z.to_nat (Z.of_nat N - Z.of_nat (S L))) with (N - S L)%nat by lia.
  replace (Z.of_nat N) with (Z.of_nat (S L + (N - S L))) at 1 by lia.
  rewrite !aset_nat.
  rewrite list_lookup_insert, shift_down_length, length_insert.
  rewrite shift_down_lookup by (rewrite length_insert; lia).
  rewrite !list_lookup_insert.
  repeat case_decide; try lia; done.
Qed.

Lemma split_lines_buffer (ls : list WString) (N L : nat) a b :
  (L < N)%nat -> (N < length ls)%nat ->
  take (S N) (split_lines ls (Z.of_nat N) (Z.of_nat L) a b) =
    take L (take N ls) ++ [a; b] ++ drop (S L) (take N ls).
Proof.
  intros HL HN. apply list_eq. intros j.
  destruct (decide (j < S N)%nat) as [Hj|Hj].
  - rewrite lookup_take_lt, split_lines_lookup by done.
    destruct (decide (j < L)%nat).
    + rewrite lookup_app_l by (rewrite !length_take; lia).
      rewrite !lookup_take_lt by lia.
      repeat case_decide; try lia; done.
    + rewrite lookup_app_r by (rewrite !length_take; lia).
      rewrite !length_take.
      replace (L `min` (N `min` length ls))%nat with L by lia.
      destruct (decide (j = L)) as [->|].
      { rewrite Nat.sub_diag. simpl. repeat case_decide; try lia; done. }
      destruct (decide (j = S L)) as [->|].
      { replace (S L - L)%nat with 1%nat by lia. simpl.
        repeat case_decide; try lia; done. }
      replace (j - L)%nat with (S (S (j - S (S L)))) by lia. simpl.
      rewrite lookup_drop, lookup_take_lt by lia.
      repeat case_decide; try lia.
      f_equal. lia.
  - rewrite lookup_take_ge by lia. symmetry. apply lookup_ge_None_2.
    rewrite !length_app, length_take, length_drop, length_take. simpl. lia.
Qed.

(** ** Backspace, forward delete and Enter *)

Lemma handleBackspace_char g :
  cursor_ok (ed g) -> 0 < cursorCol (ed g) ->
  handleBackspace g =
    with_ed
      (with_cursorCol (cursorCol (ed g) - 1)
         (set_cur_line
            (take (Z.to_nat (cursorCol (ed g) - 1)) (cur_line (ed g))
               ++ drop (Z.to_nat (cursorCol (ed g))) (cur_line (ed g)))
            (ed g)))
      (pushUndo g).
Proof.
  intros (Hn & Hl & Hc) Hpos. unfold handleBackspace.
  destruct (Z.gtb_spec (cursorCol (ed g)) 0); [|lia].
  rewrite ed_pushUndo, cursorCol_set_cur_line.
  fold (cur_line (ed g)) in Hc.
  rewrite !unsigned_of_int_nonneg by lia.
  rewrite substring_prefix, substring_suffix by lia. reflexivity.
Qed.

Lemma handleBackspace_join g :
  cursorCol (ed g) <= 0 -> 0 < cursorLine (ed g) ->
  handleBackspace g = with_ed (joined_back (ed g)) (pushUndo g).
Proof.
  intros Hc Hl. unfold handleBackspace.
  destruct (Z.gtb_spec (cursorCol (ed g)) 0); [lia|].
  destruct (Z.gtb_spec (cursorLine (ed g)) 0); [|lia].
  reflexivity.
Qed.

Lemma handleBackspace_origin g :
  cursorCol (ed g) <= 0 -> cursorLine (ed g) <= 0 -> handleBackspace g = g.
Proof.
  intros Hc Hl. unfold handleBackspace.
  destruct (Z.gtb_spec (cursorCol (ed g)) 0); [lia|].
  destruct (Z.gtb_spec (cursorLine (ed g)) 0); [lia|]. reflexivity.
Qed.

Lemma handleForwardDelete_char g :
  cursor_ok (ed g) -> cursorCol (ed g) < wlen (cur_line (ed g)) ->
  handleForwardDelete g =
    with_ed
      (set_cur_line
         (take (Z.to_nat (cursorCol (ed g))) (cur_line (ed g))
            ++ drop (Z.to_nat (cursorCol (ed g) + 1)) (cur_line (ed g)))
         (ed g))
      (pushUndo g).
Proof.
  intros (Hn & Hl & Hc) Hlt. unfold handleForwardDelete.
  destruct (Z.ltb_spec (cursorCol (ed g)) (wlen (cur_line (ed g)))); [|lia].
  rewrite ed_pushUndo. rewrite !unsigned_of_int_nonneg by lia.
  rewrite substring_prefix, substring_suffix by lia. reflexivity.
Qed.

Lemma handleForwardDelete_join g :
  wlen (cur_line (ed g)) <= cursorCol (ed g) ->
  cursorLine (ed g) < lineCount (ed g) - 1 ->
  handleForwardDelete g = with_ed (joined_forward (ed g)) (pushUndo g).
Proof.
  intros Hc Hl. unfold handleForwardDelete.
  destruct (Z.ltb_spec (cursorCol (ed g)) (wlen (cur_line (ed g)))); [lia|].
  destruct (Z.ltb_spec (cursorLine (ed g)) (lineCount (ed g) - 1)); [|lia].
  rewrite ed_pushUndo. unfold joined_forward, join_lines, set_cur_line, cur_line.
  simpl. rewrite Z.add_simpl_r. reflexivity.
Qed.

Lemma handleForwardDelete_end g :
  wlen (cur_line (ed g)) <= cursorCol (ed g) ->
  lineCount (ed g) - 1 <= cursorLine (ed g) ->
  handleForwardDelete g = g.
Proof.
  intros Hc Hl. unfold handleForwardDelete.
  destruct (Z.ltb_spec (cursorCol (ed g)) (wlen (cur_line (ed g)))); [lia|].
  destruct (Z.ltb_spec (cursorLine (ed g)) (lineCount (ed g) - 1)); [lia|].
  reflexivity.
Qed.

Lemma handleEnter_full g :
  MAX_LINES <= lineCount (ed g) -> handleEnter g = g.
Proof.
  intros H. unfold handleEnter.
  destruct (Z.geb_spec (lineCount (ed g)) MAX_LINES); [done|lia].
Qed.

Lemma handleEnter_split g :
  cursor_ok (ed g) -> lineCount (ed g) < MAX_LINES ->
  handleEnter g = with_ed (split_at_cursor (ed g)) (pushUndo g).
Proof.
  intros (Hn & Hl & Hc) Hlt. unfold handleEnter.
  destruct (Z.geb_spec (lineCount (ed g)) MAX_LINES); [lia|].
  rewrite ed_pushUndo. fold (cur_line (ed g)) in Hc.
  rewrite !unsigned_of_int_nonneg by lia.
  rewrite substring_prefix, substring_suffix by lia. reflexivity.
Qed.

Lemma join_lines_aget_prev (ls : list WString) n l :
  1 <= l < n -> (Z.to_nat n <= length ls)%nat ->
  aget [] (join_lines ls n l) (l - 1) = aget [] ls (l - 1) ++ aget [] ls l.
Proof.
  intros Hl Hn.
  destruct (Z_of_nat_complete n) as [N ->]; [lia|].
  destruct (Z_of_nat_complete l) as [L ->]; [lia|].
  rewrite Nat2Z.id in Hn.
  replace (Z.of_nat L - 1) with (Z.of_nat (L - 1)) by lia.
  rewrite !aget_nat, join_lines_lookup by lia.
  case_decide; [done|lia].
Qed.

Lemma buffer_joined (ls : list WString) n l :
  1 <= l < n -> (Z.to_nat n <= length ls)%nat ->
  take (Z.to_nat (n - 1)) (join_lines ls n l) =
    delete (Z.to_nat l)
      (<[Z.to_nat (l - 1) := aget [] ls (l - 1) ++ aget [] ls l]>
         (take (Z.to_nat n) ls)).
Proof.
  intros Hl Hn.
  destruct (Z_of_nat_complete n) as [N ->]; [lia|].
  destruct (Z_of_nat_complete l) as [L ->]; [lia|].
  rewrite Nat2Z.id in Hn. rewrite !Nat2Z.id.
  replace (Z.of_nat L - 1) with (Z.of_nat (L - 1)) by lia.
  replace (Z.of_nat N - 1) with (Z.of_nat (N - 1)) by lia.
  rewrite !aget_nat, !Nat2Z.id.
  apply join_lines_buffer; lia.
Qed.

Lemma buffer_split (ls : list WString) n l a b :
  0 <= l < n -> (Z.to_nat n < length ls)%nat ->
  take (Z.to_nat (n + 1)) (split_lines ls n l a b) =
    take (Z.to_nat l) (take (Z.to_nat n) ls) ++ [a; b]
      ++ drop (Z.to_nat (l + 1)) (take (Z.to_nat n) ls).
Proof.
  intros Hl Hn.
  destruct (Z_of_nat_complete n) as [N ->]; [lia|].
  destruct (Z_of_nat_complete l) as [L ->]; [lia|].
  rewrite Nat2Z.id in Hn. rewrite !Nat2Z.id.
  replace (Z.to_nat (Z.of_nat N + 1)) with (S N) by lia.
  replace (Z.to_nat (Z.of_nat L + 1)) with (S L) by lia.
  apply split_lines_buffer; lia.
Qed.

Lemma wlen_take_drop_del (s : WString) (c : Z) :
  0 <= c < wlen s ->
  wlen (take (Z.to_nat c) s ++ drop (Z.to_nat (c + 1)) s) = wlen s - 1.
Proof.
  intros Hc. unfold wlen in *.
  rewrite length_app, length_take, length_drop. lia.
Qed.

Lemma handleBackspace_Inv g : Inv g -> Inv (handleBackspace g).
Proof.
  intros HI. pose proof HI as (Hlen & Hcur & _).
  pose proof Hcur as (Hn & Hl & Hc). fold (cur_line (ed g)) in Hc.
  destruct (Z.lt_ge_cases 0 (cursorCol (ed g))) as [Hpos|Hzero].
  - rewrite handleBackspace_char by done.
    apply Inv_with_ed; [by apply pushUndo_Inv | simpl; by rewrite length_aset |].
    apply cursor_ok_set_cur_line; [done..|].
    pose proof (wlen_take_drop_del (cur_line (ed g)) (cursorCol (ed g) - 1)) as Hw.
    rewrite Z.sub_simpl_r in Hw. rewrite Hw; lia.
  - destruct (Z.lt_ge_cases 0 (cursorLine (ed g))) as [Hlpos|Hlzero].
    + rewrite handleBackspace_join by lia.
      apply Inv_with_ed; [by apply pushUndo_Inv | simpl; by rewrite join_lines_length |].
      unfold cursor_ok, cursor_inv; simpl.
      split; [lia|]. split; [lia|].
      rewrite join_lines_aget_prev by (unfold MAX_LINES in *; lia).
      rewrite wlen_app.
      pose proof (wlen_nonneg (aget [] (lines (ed g)) (cursorLine (ed g) - 1))).
      pose proof (wlen_nonneg (aget [] (lines (ed g)) (cursorLine (ed g)))).
      lia.
    + by rewrite handleBackspace_origin by lia.
Qed.

Lemma handleForwardDelete_Inv g : Inv g -> Inv (handleForwardDelete g).
Proof.
  intros HI. pose proof HI as (Hlen & Hcur & _).
  pose proof Hcur as (Hn & Hl & Hc). fold (cur_line (ed g)) in Hc.
  destruct (Z.lt_ge_cases (cursorCol (ed g)) (wlen (cur_line (ed g))))
    as [Hlt|Hge].
  - rewrite handleForwardDelete_char by done.
    apply Inv_with_ed; [by apply pushUndo_Inv | simpl; by rewrite length_aset |].
    replace (set_cur_line _ (ed g)) with
      (with_cursorCol (cursorCol (ed g))
         (set_cur_line
            (take (Z.to_nat (cursorCol (ed g))) (cur_line (ed g))
               ++ drop (Z.to_nat (cursorCol (ed g) + 1)) (cur_line (ed g)))
            (ed g)))
      by reflexivity.
    apply cursor_ok_set_cur_line; [done..|].
    rewrite wlen_take_drop_del; lia.
  - destruct (Z.lt_ge_cases (cursorLine (ed g)) (lineCount (ed g) - 1))
      as [Hnext|Hlast].
    + rewrite handleForwardDelete_join by lia.
      apply Inv_with_ed; [by apply pushUndo_Inv | simpl; by rewrite join_lines_length |].
      unfold cursor_ok, cursor_inv; simpl.
      split; [lia|]. split; [lia|].
      pose proof (join_lines_aget_prev (lines (ed g)) (lineCount (ed g))
                    (cursorLine (ed g) + 1)) as Hj.
      rewrite Z.add_simpl_r in Hj.
      rewrite Hj by (unfold MAX_LINES in *; lia).
      rewrite wlen_app.
      pose proof (wlen_nonneg (aget [] (lines (ed g)) (cursorLine (ed g) + 1))).
      unfold cur_line in Hc. lia.
    + by rewrite handleForwardDelete_end by lia.
Qed.

Lemma handleEnter_Inv g : Inv g -> Inv (handleEnter g).
Proof.
  intros HI. pose proof HI as (Hlen & Hcur & _).
  pose proof Hcur as (Hn & Hl & Hc).
  destruct (Z.lt_ge_cases (lineCount (ed g)) MAX_LINES) as [Hroom|Hfull].
  - rewrite handleEnter_split by done.
    apply Inv_with_ed; [by apply pushUndo_Inv | simpl; by rewrite split_lines_length |].
    unfold cursor_ok, cursor_inv; simpl.
    split; [lia|]. split; [lia|].
    split; [lia | apply wlen_nonneg].
  - by rewrite handleEnter_full.
Qed.

(** ** The invariant along every operation *)

(** [Inv] only reads the text and the ring. *)
Lemma Inv_frame g g' : Inv g -> text g' = text g -> ring g' = ring g -> Inv g'.
Proof.
  unfold text, ring. intros HI Ht Hr.
  injection Ht as H1 H2 H3 H4. injection Hr as H5 H6 H7.
  unfold Inv, cursor_ok in *. rewrite H1, H2, H3, H4, H5, H6, H7. exact HI.
Qed.

Lemma typeChar_plain g c :
  selectAll (ed g) = false -> typeChar g c = insertChar c g.
Proof. intros H. unfold typeChar. by rewrite H. Qed.

Lemma typeChar_selected g c :
  selectAll (ed g) = true ->
  typeChar g c = insertChar c (with_ed (cleared (ed g)) (pushUndo g)).
Proof. intros H. unfold typeChar. by rewrite H. Qed.

Lemma cleared_Inv g : Inv g -> Inv (with_ed (cleared (ed g)) (pushUndo g)).
Proof.
  intros HI. pose proof HI as (Hlen & _).
  apply Inv_with_ed; [by apply pushUndo_Inv | simpl; by rewrite length_aset |].
  unfold cursor_ok, cursor_inv; simpl.
  rewrite aget_aset_eq; [| lia | unfold MAX_LINES in *; lia].
  unfold MAX_LINES, wlen; simpl. lia.
Qed.

Lemma typeChar_Inv g c : Inv g -> Inv (typeChar g c).
Proof.
  intros HI. destruct (selectAll (ed g)) eqn:Hsel.
  - rewrite typeChar_selected by done. by apply insertChar_Inv, cleared_Inv.
  - rewrite typeChar_plain by done. by apply insertChar_Inv.
Qed.

Lemma handleEscape_Inv now g : Inv g -> Inv (handleEscape now g).
Proof.
  intros HI. apply (Inv_frame g); [done | | done].
  unfold handleEscape.
  destruct (selectAll (ed g)); [done|].
  by destruct (wlen (notification (ed g)) >? 0).
Qed.

Lemma ensureCursorVisible_text g : text (ensureCursorVisible g) = text g.
Proof.
  unfold ensureCursorVisible.
  repeat match goal with |- context [if ?b then _ else _] => destruct b end;
    reflexivity.
Qed.

Lemma ensureCursorVisible_Inv g : Inv g -> Inv (ensureCursorVisible g).
Proof.
  intros HI. apply (Inv_frame g); [done | apply ensureCursorVisible_text | done].
Qed.

Create HintDb editor_inv discriminated.

#[local] Hint Resolve pushUndo_Inv popUndo_Inv insertChar_Inv handleTab_Inv
  cursorLeft_Inv cursorRight_Inv cursorUp_Inv cursorDown_Inv
  handleBackspace_Inv handleForwardDelete_Inv handleEnter_Inv typeChar_Inv
  handleEscape_Inv ensureCursorVisible_Inv : editor_inv.

Lemma perform_Inv now g a : Inv g -> Inv (perform now g a).
Proof.
  intros HI. destruct a; simpl; auto with editor_inv;
    by apply (Inv_frame g).
Qed.

Lemma performAll_Inv now acts : forall g, Inv g -> Inv (performAll now acts g).
Proof.
  induction acts as [|a acts IH]; intros g HI; simpl; [done|].
  by apply IH, perform_Inv.
Qed.

(** ** One poll as a list of handler calls *)

Lemma fnKey_perform now g c : fnKey now g c = performAll now (fnAction c) g.
Proof.
  unfold fnKey, fnAction.
  repeat match goal with |- context [if ?b then _ else _] => destruct b end;
    reflexivity.
Qed.

Lemma ctrlKey_perform now g c : ctrlKey now g c = performAll now (ctrlAction c) g.
Proof.
  unfold ctrlKey, ctrlAction.
  repeat match goal with |- context [if ?b then _ else _] => destruct b end;
    reflexivity.
Qed.

Lemma performAll_app now a1 a2 g :
  performAll now (a1 ++ a2) g = performAll now a2 (performAll now a1 g).
Proof. apply fold_left_app. Qed.

Lemma fold_left_concat_map now (f : Globals -> ascii -> Globals)
    (act : ascii -> list Action) :
  (forall g c, f g c = performAll now (act c) g) ->
  forall cs g, fold_left f cs g = performAll now (concat (map act cs)) g.
Proof.
  intros Hf. induction cs as [|c cs IH]; intros g; simpl; [done|].
  by rewrite performAll_app, IH, Hf.
Qed.

Lemma fold_left_typeChar now cs : forall g,
  fold_left typeChar cs g = performAll now (map InsertChar cs) g.
Proof. induction cs as [|c cs IH]; intros g; simpl; [done|]. apply IH. Qed.

Lemma performAll_opt now (b : bool) a g :
  performAll now (if b then [a] else []) g = if b then perform now g a else g.
Proof. by destruct b. Qed.

(** A processed poll is the caps-lock stage, the handler calls of
    [actionsOf], and the closing redraw bookkeeping. *)
Lemma keysDown_actions now s g :
  keysDown now s g =
    finishPoll s
      (performAll now (actionsOf s)
         (with_prev (fn s) (shift s) (capsToggle now s g))).
Proof.
  unfold keysDown, actionsOf, finishPoll.
  destruct (fn s).
  - rewrite performAll_app.
    rewrite (fold_left_concat_map now _ fnAction) by apply fnKey_perform.
    by destruct (del s).
  - destruct (ctrl s).
    + by rewrite (fold_left_concat_map now _ ctrlAction) by apply ctrlKey_perform.
    + rewrite !performAll_app, (fold_left_typeChar now), !performAll_opt.
      cbn [perform]. reflexivity.
Qed.

Lemma capsToggle_Inv now s g : Inv g -> Inv (capsToggle now s g).
Proof.
  intros HI. apply (Inv_frame g); [done | | ];
    unfold capsToggle; by destruct (_ && _).
Qed.

Lemma finishPoll_Inv s g : Inv g -> Inv (finishPoll s g).
Proof.
  intros HI. unfold finishPoll.
  destruct (fn s); [|destruct (ctrl s)].
  - apply (Inv_frame (ensureCursorVisible g)); [by apply ensureCursorVisible_Inv|done..].
  - by apply (Inv_frame g).
  - apply (Inv_frame (ensureCursorVisible g)); [by apply ensureCursorVisible_Inv|done..].
Qed.

Lemma keysDown_Inv now s g : Inv g -> Inv (keysDown now s g).
Proof.
  intros HI. rewrite keysDown_actions.
  apply finishPoll_Inv, performAll_Inv.
  apply (Inv_frame (capsToggle now s g)); [by apply capsToggle_Inv|done..].
Qed.

Lemma pollKeyboard_Inv now p g : Inv g -> Inv (pollKeyboard now p g).
Proof.
  intros HI. unfold pollKeyboard. destruct (isChange p); [|done].
  destruct (negb _); [by apply keysDown_Inv | by apply (Inv_frame g)].
Qed.

Lemma redrawIfNeeded_frame now g :
  text (redrawIfNeeded now g) = text g /\
  ring (redrawIfNeeded now g) = ring g.
Proof.
  unfold redrawIfNeeded, drawEditor.
  repeat match goal with |- context [if ?b then _ else _] => destruct b end;
    done.
Qed.

Lemma loop_Inv now p g : Inv g -> Inv (loop now p g).
Proof.
  intros HI. unfold loop.
  apply (Inv_frame (pollKeyboard now p g));
    [by apply pollKeyboard_Inv | apply redrawIfNeeded_frame..].
Qed.

Lemma setup_Inv now : Inv (setup now).
Proof.
  unfold Inv. split; [apply length_replicate|].
  split; [unfold cursor_ok, cursor_inv, MAX_LINES, wlen; simpl; lia|].
  split; [apply length_replicate|].
  split; [apply Forall_replicate, length_replicate|].
  unfold UNDO_STACK_SIZE; simpl. split; [lia|]. split; [lia|].
  intros k Hk. lia.
Qed.

Lemma reachable_Inv g : reachable g -> Inv g.
Proof.
  induction 1 as [now | now g a _ IH | now p g _ IH].
  - apply setup_Inv.
  - by apply perform_Inv.
  - by apply loop_Inv.
Qed.

(** ** The invariant as a check *)




Lemma cursor_invb_sound ls n l c :
  cursor_invb ls n l c = true -> cursor_inv ls n l c.
Proof.
  unfold cursor_invb, cursor_inv. intros H.
  repeat (apply andb_true_iff in H as [H ?]).
  repeat match goal with
         | H : (_ <=? _) = true |- _ => apply Z.leb_le in H
         | H : (_ <? _) = true |- _ => apply Z.ltb_lt in H
         end.
  lia.
Qed.

Lemma Invb_sound g : Invb g = true -> Inv g.
Proof.
  unfold Invb, Inv. intros H.
  apply andb_true_iff in H as [H Hring].
  apply andb_true_iff in H as [H Hc2%Z.leb_le].
  apply andb_true_iff in H as [H Hc1%Z.leb_le].
  apply andb_true_iff in H as [H Hh2%Z.ltb_lt].
  apply andb_true_iff in H as [H Hh1%Z.leb_le].
  apply andb_true_iff in H as [H Hall].
  apply andb_true_iff in H as [H Hst%Nat.eqb_eq].
  apply andb_true_iff in H as [Hlen%Nat.eqb_eq Hcur%cursor_invb_sound].
  rewrite forallb_forall in Hall, Hring.
  split; [done|]. split; [done|]. split; [done|]. split.
  { apply Forall_forall. intros u Hu.
    by apply Nat.eqb_eq, Hall, list_elem_of_In. }
  split; [lia|]. split; [lia|].
  intros k Hk. specialize (Hring (Z.to_nat k)).
  rewrite Z2Nat.id in Hring by lia.
  assert (snapshot_okb
            (aget blank_entry (undoStack g) (slot (undoHead g) k)) = true)
    as Hs by (apply Hring, in_seq; lia).
  apply andb_true_iff in Hs as [Hv Hc].
  split; [done | by apply cursor_invb_sound].
Qed.

(** * The undo ring *)

(** C1.  From a fresh buffer, 21 consecutive [insertChar] followed by 20
    [popUndo] bring lines, line count and cursor back to the state right
    after the first insertion: slot 0 of the ring, which held the snapshot
    taken before insertion 1, holds the one taken before insertion 21.  The
    history is then empty, and a 21st [popUndo] keeps the buffer and reports
    "Nothing to undo". *)
Theorem undo_ring_wraparound (now t21 : Z) (c1 : ascii) (cs : list ascii)
    (ts : list Z) :
  length cs = 20%nat -> length ts = 20%nat ->
  let g1 := insertChar c1 (setup now) in
  let g21 := insertChars cs g1 in
  let g' := undos ts g21 in
  u_cursorCol (aget blank_entry (undoStack g1) 0) = 0 /\
  u_cursorCol (aget blank_entry (undoStack g21) 0) = 20 /\
  undoCount g21 = UNDO_STACK_SIZE /\
  text g' = text g1 /\
  undoCount g' = 0 /\
  text (popUndo t21 g') = text g' /\
  ring (popUndo t21 g') = ring g' /\
  notification (ed (popUndo t21 g')) = lit "Nothing to undo".
Proof.
  intros Hcs Hts.
  do 21 (destruct cs as [|? cs]; try discriminate Hcs).
  do 21 (destruct ts as [|? ts]; try discriminate Hts).
  vm_compute. repeat split.
Qed.

Lemma undo_ring_wraparound_witness :
  let g1 := insertChar "a" (setup 0) in
  let g' :=
    undos (replicate 20 7)
      (insertChars (list_ascii_of_string "bcdefghijklmnopqrstu") g1) in
  text g' = text g1 /\
  notification (ed (popUndo 9 g')) = lit "Nothing to undo".
Proof.
  pose proof (undo_ring_wraparound 0 9 "a"
                (list_ascii_of_string "bcdefghijklmnopqrstu")
                (replicate 20 7) eq_refl eq_refl) as H.
  cbv zeta in H. destruct H as (_ & _ & _ & Ht & _ & _ & _ & Hn).
  split; [exact Ht | exact Hn].
Defined.

Lemma pushUndo_buffer g :
  Inv g ->
  let u := aget blank_entry (undoStack (pushUndo g)) (undoHead g) in
  u = snapshot_of g /\
  take (Z.to_nat (u_lineCount u)) (u_lines u) = buffer (ed g).
Proof.
  intros HI. pose proof HI as (Hlen & (Hn & _) & Hst & Hall & Hh & _).
  assert (aget blank_entry (undoStack (pushUndo g)) (undoHead g)
          = snapshot_of g) as Hu.
  { rewrite pushUndo_eq; simpl.
    rewrite aget_aset_eq; [done | lia | unfold UNDO_STACK_SIZE in *; lia]. }
  cbv zeta. rewrite Hu. split; [done|].
  unfold snapshot_of, buffer; simpl.
  apply copy_lines_prefix; [unfold MAX_LINES in *; lia|].
  rewrite entry_lines_length by done. unfold MAX_LINES in *; lia.
Qed.

(** C6.  With an empty history [popUndo] sets the notification "Nothing to
    undo" and keeps lines, line count, cursor and ring.  With a non-empty
    history it steps the head back onto the most recent snapshot, drops it
    from the count, and replaces the buffer and the cursor by the
    snapshot's; after [pushUndo] and any edit of the editor fields, that
    snapshot is the buffer and cursor [pushUndo] saw. *)
Theorem popUndo_contract (now : Z) (g : Globals) :
  (undoCount g = 0 ->
     notification (ed (popUndo now g)) = lit "Nothing to undo" /\
     text (popUndo now g) = text g /\
     ring (popUndo now g) = ring g) /\
  (Inv g -> undoCount g <> 0 ->
     let u := aget blank_entry (undoStack g) (slot (undoHead g) 0) in
     let g' := popUndo now g in
     buffer (ed g') = take (Z.to_nat (u_lineCount u)) (u_lines u) /\
     lineCount (ed g') = u_lineCount u /\
     cursorLine (ed g') = u_cursorLine u /\
     cursorCol (ed g') = u_cursorCol u /\
     notification (ed g') = lit "Undo" /\
     ring g' = (undoStack g, slot (undoHead g) 0, undoCount g - 1)) /\
  (Inv g ->
     forall e, length (lines e) = Z.to_nat MAX_LINES ->
     let g' := popUndo now (with_ed e (pushUndo g)) in
     buffer (ed g') = buffer (ed g) /\
     lineCount (ed g') = lineCount (ed g) /\
     cursorLine (ed g') = cursorLine (ed g) /\
     cursorCol (ed g') = cursorCol (ed g) /\
     undoHead g' = undoHead g).
Proof.
  split; [|split].
  - intros H0. by rewrite popUndo_empty by done.
  - intros HI Hne. pose proof HI as (Hlen & _ & _ & Hall & Hh & Hcnt & Hring).
    destruct (Hring 0) as (Hv & Hn & _); [lia|].
    cbv zeta. rewrite popUndo_nonempty by done.
    unfold buffer; simpl. repeat split.
    apply copy_lines_prefix.
    + rewrite entry_lines_length by done. unfold MAX_LINES in *; lia.
    + unfold MAX_LINES in *; lia.
  - intros HI e He.
    pose proof (pushUndo_Inv g HI) as HI'.
    pose proof HI as (Hlen & (Hn & _) & _ & _ & Hh & Hcnt & _).
    pose proof HI' as (_ & _ & _ & Hall' & Hh' & Hcnt' & Hring').
    destruct (pushUndo_buffer g HI) as (Hu & Hbuf).
    assert (slot (undoHead (pushUndo g)) 0 = undoHead g) as Hslot
      by (rewrite pushUndo_eq; simpl; by apply slot_push).
    assert (undoCount (pushUndo g) <> 0) as Hne.
    { rewrite pushUndo_eq; simpl.
      destruct (Z.ltb_spec (undoCount g) UNDO_STACK_SIZE);
        unfold UNDO_STACK_SIZE in *; lia. }
    pose proof (popUndo_nonempty now (with_ed e (pushUndo g))) as Hpop.
    change (undoHead (with_ed e (pushUndo g)))
      with (undoHead (pushUndo g)) in Hpop.
    change (undoStack (with_ed e (pushUndo g)))
      with (undoStack (pushUndo g)) in Hpop.
    change (undoCount (with_ed e (pushUndo g)))
      with (undoCount (pushUndo g)) in Hpop.
    change (ed (with_ed e (pushUndo g))) with e in Hpop.
    rewrite Hslot, Hu in Hpop.
    cbv zeta. rewrite Hpop; [| exact Hh' | exact Hne | reflexivity].
    unfold buffer, restored, snapshot_of; simpl. repeat split.
    rewrite copy_lines_prefix.
    + apply copy_lines_prefix; [unfold MAX_LINES in *; lia|].
      rewrite entry_lines_length by apply HI. unfold MAX_LINES in *; lia.
    + rewrite copy_lines_length, entry_lines_length by apply HI.
      unfold MAX_LINES in *; lia.
    + unfold MAX_LINES in *; lia.
Qed.

Lemma popUndo_contract_witness :
  notification (ed (popUndo 5 (setup 0))) = lit "Nothing to undo" /\
  (let g := insertChar "b" (insertChar "a" (setup 0)) in
   buffer (ed (popUndo 5 g)) = [["a"%char]] /\
   cursorCol (ed (popUndo 5 g)) = 1) /\
  (let g := insertChar "a" (setup 0) in
   buffer (ed (popUndo 5 (handleEnter g))) = [["a"%char]]).
Proof.
  split; [|split].
  - pose proof (popUndo_contract 5 (setup 0)) as (H & _ & _).
    destruct H as (Hn & _); [reflexivity | exact Hn].
  - pose proof
      (popUndo_contract 5 (insertChar "b" (insertChar "a" (setup 0))))
      as (_ & H & _).
    assert (Inv (insertChar "b" (insertChar "a" (setup 0)))) as HI
      by (apply Invb_sound; by vm_compute).
    specialize (H HI).
    cbv zeta in H. destruct H as (Hb & _ & _ & Hc & _); [by vm_compute|].
    cbv zeta. split; [rewrite Hb | rewrite Hc]; by vm_compute.
  - pose proof (popUndo_contract 5 (insertChar "a" (setup 0))) as (_ & _ & H).
    assert (Inv (insertChar "a" (setup 0))) as HI
      by (apply Invb_sound; by vm_compute).
    specialize (H HI).
    cbv zeta.
    replace (handleEnter (insertChar "a" (setup 0))) with
      (with_ed (ed (handleEnter (insertChar "a" (setup 0))))
         (pushUndo (insertChar "a" (setup 0)))) by (by vm_compute).
    destruct (H (ed (handleEnter (insertChar "a" (setup 0)))))
      as (Hb & _); [by vm_compute|].
    rewrite Hb. by vm_compute.
Defined.

(** * Tab *)

(** The counting loop of [handleTab] is a burst of insertions, whatever
    the width. *)
Lemma tab_loop_burst n : forall g,
  tab_loop n g = insertChars (replicate n " "%char) g.
Proof.
  induction n as [|n IH]; intros g; [reflexivity|].
  cbn [tab_loop replicate]. rewrite IH. reflexivity.
Qed.

Lemma insertChar_selectAll c g :
  selectAll (ed (insertChar c g)) = selectAll (ed g).
Proof. unfold insertChar. by destruct (_ >=? _). Qed.

Lemma insertChars_selectAll cs : forall g,
  selectAll (ed (insertChars cs g)) = selectAll (ed g).
Proof.
  induction cs as [|c cs IH]; intros g; [done|].
  change (insertChars (c :: cs) g) with (insertChars cs (insertChar c g)).
  by rewrite IH, insertChar_selectAll.
Qed.

Lemma typeChars_plain cs : forall g,
  selectAll (ed g) = false -> fold_left typeChar cs g = insertChars cs g.
Proof.
  induction cs as [|c cs IH]; intros g Hsel; [done|].
  simpl. rewrite typeChar_plain by done.
  apply IH. by rewrite insertChar_selectAll.
Qed.

Lemma typeChars_selected c cs g :
  selectAll (ed g) = true ->
  fold_left typeChar (c :: cs) g =
    insertChars (c :: cs) (with_ed (cleared (ed g)) (pushUndo g)).
Proof.
  intros Hsel. simpl. rewrite typeChar_selected by done.
  apply typeChars_plain. by rewrite insertChar_selectAll.
Qed.

Lemma reachable_performAll now acts : forall g,
  reachable g -> reachable (performAll now acts g).
Proof.
  induction acts as [|a acts IH]; intros g Hr; [done|].
  apply IH. by apply reach_perform.
Qed.

(** C9, counterexample.  With a select-all pending, Tab is not a burst of
    four InsertChar: in the reachable state that holds [xyz] with the
    selection flag set, [handleTab] appends four spaces to the line and
    leaves the flag set, while four InsertChar replace the buffer by the
    four spaces, clear the flag and push one snapshot more. *)
Lemma handleTab_not_burst_under_selection :
  reachable selected_xyz /\
  selectAll (ed selected_xyz) = true /\
  (buffer (ed (handleTab selected_xyz)) = [lit "xyz    "] /\
   cursorCol (ed (handleTab selected_xyz)) = 7 /\
   selectAll (ed (handleTab selected_xyz)) = true /\
   undoCount (handleTab selected_xyz) = 7) /\
  (buffer (ed (tab_burst selected_xyz)) = [lit "    "] /\
   cursorCol (ed (tab_burst selected_xyz)) = 4 /\
   selectAll (ed (tab_burst selected_xyz)) = false /\
   undoCount (tab_burst selected_xyz) = 8) /\
  text (handleTab selected_xyz) <> text (tab_burst selected_xyz) /\
  ring (handleTab selected_xyz) <> ring (tab_burst selected_xyz).
Proof.
  split; [apply reachable_performAll, reach_setup|].
  split; [vm_compute; reflexivity|].
  split; [repeat split; vm_compute; reflexivity|].
  split; [repeat split; vm_compute; reflexivity|].
  split; intros H.
  - apply (f_equal snd) in H. vm_compute in H. discriminate H.
  - apply (f_equal snd) in H. vm_compute in H. discriminate H.
Qed.

(** C9, amended.  [handleTab] is four calls of [insertChar(' ')] in a row,
    which keep the selection flag as it is.  With no select-all pending
    that is the burst of four InsertChar operations: the whole state, and so
    lines, line count, cursor and undo ring, is that of the burst. *)
Theorem handleTab_is_insert_burst (g : Globals) :
  selectAll (ed g) = false ->
  handleTab g = tab_burst g /\
  handleTab g =
    insertChar " " (insertChar " " (insertChar " " (insertChar " " g))) /\
  text (handleTab g) = text (tab_burst g) /\
  ring (handleTab g) = ring (tab_burst g) /\
  selectAll (ed (handleTab g)) = false.
Proof.
  intros Hsel.
  assert (handleTab g = tab_burst g) as H.
  { unfold handleTab, tab_burst.
    by rewrite tab_loop_burst, typeChars_plain. }
  split; [exact H|]. split; [reflexivity|].
  rewrite <- H. split; [done|]. split; [done|].
  unfold handleTab. by rewrite tab_loop_burst, insertChars_selectAll.
Qed.

Lemma handleTab_is_insert_burst_witness :
  let g := insertChars (lit "xyz") (setup 0) in
  handleTab g = tab_burst g /\
  buffer (ed (tab_burst g)) = [lit "xyz    "].
Proof.
  cbv zeta.
  destruct (handleTab_is_insert_burst (insertChars (lit "xyz") (setup 0)))
    as (H & _); [vm_compute; reflexivity|].
  split; [exact H|]. vm_compute. reflexivity.
Defined.

(** * Backspace and Enter *)

Lemma buffer_set_cur_line v e :
  0 <= cursorLine e < lineCount e ->
  buffer (set_cur_line v e) = <[Z.to_nat (cursorLine e) := v]> (buffer e).
Proof.
  intros Hl. unfold buffer, set_cur_line; simpl.
  rewrite aset_Z by lia. apply take_insert_lt. lia.
Qed.

(** C4.  With the cursor past column 0, [handleBackspace] pushes one
    snapshot, removes the character left of the cursor and moves one column
    left.  At column 0 of a line other than the first it pushes one
    snapshot, appends the cursor line to the previous line, deletes the
    cursor line from the buffer (the lines below move up, one line fewer),
    and puts the cursor on the previous line at that line's former length.
    At line 0, column 0 it returns the globals as they were. *)
Theorem handleBackspace_contract (g : Globals) :
  Inv g ->
  let e := ed g in
  let e' := ed (handleBackspace g) in
  let prev := aget [] (lines e) (cursorLine e - 1) in
  (0 < cursorCol e ->
     ring (handleBackspace g) = ring (pushUndo g) /\
     buffer e' =
       <[Z.to_nat (cursorLine e) :=
           take (Z.to_nat (cursorCol e - 1)) (cur_line e)
             ++ drop (Z.to_nat (cursorCol e)) (cur_line e)]> (buffer e) /\
     lineCount e' = lineCount e /\
     cursorLine e' = cursorLine e /\
     cursorCol e' = cursorCol e - 1) /\
  (cursorCol e = 0 -> 0 < cursorLine e ->
     ring (handleBackspace g) = ring (pushUndo g) /\
     buffer e' =
       delete (Z.to_nat (cursorLine e))
         (<[Z.to_nat (cursorLine e - 1) := prev ++ cur_line e]> (buffer e)) /\
     lineCount e' = lineCount e - 1 /\
     cursorLine e' = cursorLine e - 1 /\
     cursorCol e' = wlen prev) /\
  (cursorCol e = 0 -> cursorLine e = 0 -> handleBackspace g = g).
Proof.
  intros HI. pose proof HI as (Hlen & Hcur & _).
  pose proof Hcur as (Hn & Hl & Hc).
  cbv zeta. split; [|split].
  - intros Hpos. rewrite handleBackspace_char by done.
    split; [done|]. split; [|done].
    change (ed (with_ed ?x _)) with x.
    change (buffer (with_cursorCol ?c ?x)) with (buffer x).
    by apply buffer_set_cur_line.
  - intros Hzero Hlpos. rewrite handleBackspace_join by lia.
    split; [done|]. split; [|done].
    change (ed (with_ed ?x _)) with x.
    unfold buffer, joined_back; simpl.
    apply buffer_joined; unfold MAX_LINES in *; lia.
  - intros Hzero Hlzero. apply handleBackspace_origin; lia.
Qed.

Lemma handleBackspace_contract_witness :
  let ab := list_ascii_of_string "ab" in
  let g1 := insertChars ab (setup 0) in
  let g2 := handleEnter (cursorLeft g1) in
  (buffer (ed (handleBackspace g1)) = [["a"%char]] /\
   cursorCol (ed (handleBackspace g1)) = 1) /\
  (buffer (ed g2) = [["a"%char]; ["b"%char]] /\
   buffer (ed (handleBackspace g2)) = [ab] /\
   lineCount (ed (handleBackspace g2)) = 1 /\
   cursorLine (ed (handleBackspace g2)) = 0 /\
   cursorCol (ed (handleBackspace g2)) = 1) /\
  handleBackspace (setup 0) = setup 0.
Proof.
  cbv zeta.
  assert (Inv (insertChars (list_ascii_of_string "ab") (setup 0))) as HI1
    by (apply Invb_sound; by vm_compute).
  assert (Inv (handleEnter
                 (cursorLeft
                    (insertChars (list_ascii_of_string "ab") (setup 0)))))
    as HI2 by (apply Invb_sound; by vm_compute).
  split; [|split].
  - destruct (handleBackspace_contract _ HI1) as (H & _ & _).
    destruct H as (_ & Hb & _ & _ & Hc); [by vm_compute|].
    split; [rewrite Hb | rewrite Hc]; by vm_compute.
  - destruct (handleBackspace_contract _ HI2) as (_ & H & _).
    destruct H as (_ & Hb & Hn & Hl & Hc); [by vm_compute..|].
    split; [by vm_compute|].
    split; [rewrite Hb; by vm_compute|].
    split; [rewrite Hn; by vm_compute|].
    split; [rewrite Hl | rewrite Hc]; by vm_compute.
  - destruct (handleBackspace_contract (setup 0)) as (_ & _ & H).
    + apply Invb_sound. by vm_compute.
    + apply H; reflexivity.
Defined.

(** C5, counterexample.  Enter at capacity reports nothing: on the
    reachable buffer of [MAX_LINES] lines, [handleEnter] returns the globals
    as they were, the notification and its time stamp included. *)
Lemma handleEnter_at_capacity_not_reported :
  lineCount (ed full_buffer) = MAX_LINES /\
  reachable full_buffer /\
  ~ reports full_buffer (handleEnter full_buffer).
Proof.
  split; [by vm_compute|]. split.
  - unfold full_buffer.
    assert (forall n, reachable (Nat.iter n handleEnter (setup 0))) as H.
    { induction n as [|n IH]; simpl; [apply reach_setup|].
      apply (reach_perform 0 _ Enter IH). }
    apply H.
  - rewrite handleEnter_full by (by vm_compute).
    intros [H|H]; by apply H.
Qed.

(** C5, amended.  With fewer than [MAX_LINES] lines, [handleEnter] pushes
    one snapshot, keeps the text left of the cursor on the cursor line,
    inserts the text from the cursor on as a new line directly below (one
    line more), and puts the cursor at column 0 of the new line.  With
    [MAX_LINES] lines it returns the globals as they were: buffer, cursor,
    undo ring and notification are unchanged, so nothing is reported. *)
Theorem handleEnter_contract (g : Globals) :
  Inv g ->
  let e := ed g in
  let e' := ed (handleEnter g) in
  (lineCount e < MAX_LINES ->
     ring (handleEnter g) = ring (pushUndo g) /\
     buffer e' =
       take (Z.to_nat (cursorLine e)) (buffer e)
         ++ [take (Z.to_nat (cursorCol e)) (cur_line e);
             drop (Z.to_nat (cursorCol e)) (cur_line e)]
         ++ drop (Z.to_nat (cursorLine e + 1)) (buffer e) /\
     lineCount e' = lineCount e + 1 /\
     cursorLine e' = cursorLine e + 1 /\
     cursorCol e' = 0) /\
  (lineCount e = MAX_LINES ->
     handleEnter g = g /\ ~ reports g (handleEnter g)).
Proof.
  intros HI. pose proof HI as (Hlen & Hcur & _).
  pose proof Hcur as (Hn & Hl & Hc).
  cbv zeta. split.
  - intros Hroom. rewrite handleEnter_split by done.
    split; [done|]. split; [|done].
    change (ed (with_ed ?x _)) with x.
    unfold buffer, split_at_cursor; simpl.
    apply buffer_split; unfold MAX_LINES in *; lia.
  - intros Hfull. rewrite handleEnter_full by lia.
    split; [done|]. intros [H|H]; by apply H.
Qed.

Lemma handleEnter_contract_witness :
  let ab := list_ascii_of_string "ab" in
  let g := cursorLeft (insertChars ab (setup 0)) in
  (buffer (ed (handleEnter g)) = [["a"%char]; ["b"%char]] /\
   cursorLine (ed (handleEnter g)) = 1 /\
   cursorCol (ed (handleEnter g)) = 0) /\
  handleEnter full_buffer = full_buffer.
Proof.
  cbv zeta.
  assert (Inv (cursorLeft (insertChars (list_ascii_of_string "ab") (setup 0))))
    as HI by (apply Invb_sound; by vm_compute).
  split.
  - destruct (handleEnter_contract _ HI) as (H & _).
    destruct H as (_ & Hb & _ & Hl & Hc); [by vm_compute|].
    split; [rewrite Hb; by vm_compute|].
    split; [rewrite Hl | rewrite Hc]; by vm_compute.
  - assert (Inv full_buffer) as HF by (apply Invb_sound; by vm_compute).
    destruct (handleEnter_contract _ HF) as (_ & H).
    apply H. by vm_compute.
Defined.

(** * The cursor invariant *)

(** C7.  In every reachable state the line count lies in
    [1 .. MAX_LINES], the cursor line in [0 .. lineCount - 1] and the cursor
    column in [0 .. length of the cursor line]; every operation (character
    insertion with or without a pending select-all, Backspace, forward
    delete, Enter, Tab, the four cursor moves, SelectAll, Escape, Undo and
    the notification-only handlers) and every pass of [loop] leads to a
    state where this holds again. *)
Theorem cursor_invariant_preserved (g : Globals) :
  reachable g ->
  cursor_ok (ed g) /\
  (forall now a, cursor_ok (ed (perform now g a))) /\
  (forall c, cursor_ok (ed (insertChar c g))) /\
  (forall now p, cursor_ok (ed (loop now p g))).
Proof.
  intros Hr. pose proof (reachable_Inv g Hr) as HI.
  split; [apply HI|]. split; [|split].
  - intros now a. by apply perform_Inv.
  - intros c. by apply insertChar_Inv.
  - intros now p. by apply loop_Inv.
Qed.

Lemma cursor_invariant_preserved_witness :
  let g := perform 0 (perform 0 (setup 0) (InsertChar "a")) Enter in
  cursor_ok (ed g) /\ cursor_ok (ed (perform 1 g Backspace)) /\
  cursor_ok (ed (perform 2 g Undo)).
Proof.
  cbv zeta.
  destruct (cursor_invariant_preserved
              (perform 0 (perform 0 (setup 0) (InsertChar "a")) Enter))
    as (H0 & Hp & _).
  - apply reach_perform, reach_perform, reach_setup.
  - split; [exact H0|]. split; [apply (Hp 1 Backspace) | apply (Hp 2 Undo)].
Defined.

(** * Select-all *)

Lemma buffer_one_line (ls : list WString) (v : WString) :
  (0 < length ls)%nat -> take 1 (aset ls 0 v) = [v].
Proof. intros H. destruct ls as [|x ls]; [simpl in H; lia | done]. Qed.

(** C8.  [handleSelectAll] sets the selection flag and [handleEscape]
    leaves it cleared.  A character typed while the flag is set pushes a
    snapshot, empties the buffer to one empty line with the cursor at
    (0, 0), clears the flag and then runs [insertChar]: the buffer is the
    single line holding that character, the cursor is at line 0, column 1,
    and the ring is that of the two pushes. *)
Theorem select_all_replace (now : Z) (g : Globals) (c : ascii) :
  selectAll (ed (handleSelectAll now g)) = true /\
  selectAll (ed (handleEscape now g)) = false /\
  (Inv g -> selectAll (ed g) = true ->
     let g1 := with_ed (cleared (ed g)) (pushUndo g) in
     let g' := typeChar g c in
     buffer (ed g1) = [[]] /\
     cursorLine (ed g1) = 0 /\ cursorCol (ed g1) = 0 /\
     selectAll (ed g1) = false /\
     g' = insertChar c g1 /\
     buffer (ed g') = [[c]] /\
     lineCount (ed g') = 1 /\
     cursorLine (ed g') = 0 /\
     cursorCol (ed g') = 1 /\
     selectAll (ed g') = false /\
     ring g' = ring (pushUndo g1)).
Proof.
  split; [done|]. split.
  { unfold handleEscape. destruct (selectAll (ed g)) eqn:Hs; [done|].
    destruct (wlen (notification (ed g)) >? 0); simpl; by rewrite Hs. }
  intros HI Hsel. pose proof HI as (Hlen & _).
  assert (0 < length (lines (ed g)))%nat as Hpos
    by (unfold MAX_LINES in *; lia).
  pose proof (cleared_Inv g HI) as HI1.
  cbv zeta. rewrite typeChar_selected by done.
  rewrite insertChar_eq by apply HI1.
  unfold buffer; simpl.
  rewrite buffer_one_line by done.
  unfold cur_line; simpl.
  rewrite !aget_aset_eq by (simpl; lia). simpl.
  rewrite aset_Z by lia. simpl.
  destruct (lines (ed g)) as [|x ls]; [simpl in Hpos; lia|].
  repeat split.
Qed.

Lemma select_all_replace_witness :
  let g := handleSelectAll 1 (insertChars (list_ascii_of_string "xyz") (setup 0)) in
  buffer (ed (typeChar g "q")) = [["q"%char]] /\
  cursorCol (ed (typeChar g "q")) = 1.
Proof.
  cbv zeta.
  destruct (select_all_replace 1
    (handleSelectAll 1 (insertChars (list_ascii_of_string "xyz") (setup 0)))
    "q") as (_ & _ & H).
  destruct H as (_ & _ & _ & _ & _ & Hb & _ & _ & Hc & _).
  - apply Invb_sound. by vm_compute.
  - reflexivity.
  - split; [exact Hb | exact Hc].
Defined.

(** * What the handlers leave alone *)

Ltac split_ifs :=
  repeat match goal with
         | |- context [if ?b then _ else _] => destruct b
         end.

Lemma insertChar_ctx c g : ctx (insertChar c g) = ctx g.
Proof. unfold insertChar. split_ifs; reflexivity. Qed.

Lemma tab_loop_ctx n : forall g, ctx (tab_loop n g) = ctx g.
Proof.
  induction n as [|n IH]; intros g; simpl; [done|].
  by rewrite IH, insertChar_ctx.
Qed.

Lemma typeChar_ctx g c : ctx (typeChar g c) = ctx g.
Proof.
  unfold typeChar. rewrite insertChar_ctx. by destruct (selectAll (ed g)).
Qed.

Lemma perform_ctx now g a : ctx (perform now g a) = ctx g.
Proof.
  destruct a; simpl;
    try apply typeChar_ctx; try apply tab_loop_ctx; try reflexivity.
  - unfold cursorUp, clampCol; simpl. split_ifs; reflexivity.
  - unfold cursorLeft. split_ifs; reflexivity.
  - unfold cursorDown, clampCol; simpl. split_ifs; reflexivity.
  - unfold cursorRight. split_ifs; reflexivity.
  - unfold handleEscape. split_ifs; reflexivity.
  - unfold handleForwardDelete. split_ifs; reflexivity.
  - unfold handleBackspace. split_ifs; reflexivity.
  - unfold handleEnter. split_ifs; reflexivity.
  - unfold popUndo. split_ifs; reflexivity.
Qed.

Lemma performAll_ctx now acts : forall g, ctx (performAll now acts g) = ctx g.
Proof.
  induction acts as [|a acts IH]; intros g; simpl; [done|].
  by rewrite IH, perform_ctx.
Qed.

Lemma ensureCursorVisible_ctx g : ctx (ensureCursorVisible g) = ctx g.
Proof. unfold ensureCursorVisible. split_ifs; reflexivity. Qed.

Lemma finishPoll_ctx s g : ctx (finishPoll s g) = ctx g.
Proof.
  unfold finishPoll. destruct (fn s); [|destruct (ctrl s)];
    try apply ensureCursorVisible_ctx; reflexivity.
Qed.

(** The selection flag does not steer the handlers that keep it. *)

Lemma set_flag_id g : set_flag (selectAll (ed g)) g = g.
Proof. by destruct g as [[] ?]. Qed.

Lemma pushUndo_flag b g : pushUndo (set_flag b g) = set_flag b (pushUndo g).
Proof. reflexivity. Qed.

Lemma insertChar_flag b c g :
  insertChar c (set_flag b g) = set_flag b (insertChar c g).
Proof.
  destruct g as [[] ?]. unfold insertChar, set_flag, upd_ed, cur_line, set_cur_line; simpl.
  split_ifs; reflexivity.
Qed.

Lemma tab_loop_flag b n : forall g,
  tab_loop n (set_flag b g) = set_flag b (tab_loop n g).
Proof.
  induction n as [|n IH]; intros g; simpl; [done|].
  by rewrite insertChar_flag, IH.
Qed.

Lemma perform_flag now b g a :
  keeps_selection a = true -> a <> SelectAll ->
  perform now (set_flag b g) a = set_flag b (perform now g a).
Proof.
  intros Hk Hne. destruct a; try discriminate Hk; try done; simpl;
    try apply tab_loop_flag; destruct g as [[] ?].
  - unfold cursorUp, clampCol, set_flag, upd_ed, cur_line, set_cur_line; simpl. split_ifs; reflexivity.
  - unfold cursorLeft, set_flag, upd_ed, cur_line, set_cur_line; simpl. split_ifs; reflexivity.
  - unfold cursorDown, clampCol, set_flag, upd_ed, cur_line, set_cur_line; simpl. split_ifs; reflexivity.
  - unfold cursorRight, set_flag, upd_ed, cur_line, set_cur_line; simpl. split_ifs; reflexivity.
  - unfold handleForwardDelete, set_flag, upd_ed, cur_line, set_cur_line; simpl. split_ifs; reflexivity.
  - unfold handleBackspace, set_flag, upd_ed, cur_line, set_cur_line; simpl. split_ifs; reflexivity.
  - unfold handleEnter, set_flag, upd_ed, cur_line, set_cur_line; simpl. split_ifs; reflexivity.
  - unfold popUndo, set_flag, upd_ed, cur_line, set_cur_line; simpl. split_ifs; reflexivity.
Qed.

(** * Operations under a pending select-all *)

Lemma handleBackspace_char_buffer g :
  Inv g -> 0 < cursorCol (ed g) ->
  buffer (ed (handleBackspace g)) =
    <[Z.to_nat (cursorLine (ed g)) :=
        take (Z.to_nat (cursorCol (ed g) - 1)) (cur_line (ed g))
          ++ drop (Z.to_nat (cursorCol (ed g))) (cur_line (ed g))]>
      (buffer (ed g)).
Proof.
  intros (_ & Hcur & _) Hpos. rewrite handleBackspace_char by done.
  change (ed (with_ed ?x _)) with x.
  change (buffer (with_cursorCol ?c ?x)) with (buffer x).
  apply buffer_set_cur_line, Hcur.
Qed.

Lemma handleBackspace_join_buffer g :
  Inv g -> cursorCol (ed g) = 0 -> 0 < cursorLine (ed g) ->
  buffer (ed (handleBackspace g)) =
    delete (Z.to_nat (cursorLine (ed g)))
      (<[Z.to_nat (cursorLine (ed g) - 1) :=
           aget [] (lines (ed g)) (cursorLine (ed g) - 1) ++ cur_line (ed g)]>
         (buffer (ed g))).
Proof.
  intros (Hlen & (Hn & Hl & _) & _) Hzero Hpos.
  rewrite handleBackspace_join by lia.
  change (ed (with_ed ?x _)) with x.
  unfold buffer, joined_back; simpl.
  apply buffer_joined; unfold MAX_LINES in *; lia.
Qed.

Lemma handleEnter_split_buffer g :
  Inv g -> lineCount (ed g) < MAX_LINES ->
  buffer (ed (handleEnter g)) =
    take (Z.to_nat (cursorLine (ed g))) (buffer (ed g))
      ++ [take (Z.to_nat (cursorCol (ed g))) (cur_line (ed g));
          drop (Z.to_nat (cursorCol (ed g))) (cur_line (ed g))]
      ++ drop (Z.to_nat (cursorLine (ed g) + 1)) (buffer (ed g)).
Proof.
  intros (Hlen & Hcur & _) Hroom. pose proof Hcur as (Hn & Hl & _).
  rewrite handleEnter_split by done.
  change (ed (with_ed ?x _)) with x.
  unfold buffer, split_at_cursor; simpl.
  apply buffer_split; unfold MAX_LINES in *; lia.
Qed.

(** C10.  An operation other than character insertion and Escape leaves a
    set selection flag set (and, unless it is SelectAll itself, leaves the
    flag as it was, so Undo too), and its effect on lines, line count,
    cursor and undo ring is the one it has with the flag clear.  With the
    flag set, Backspace still removes one character or joins two lines, and
    Enter still splits the cursor line. *)
Theorem selection_survives_other_operations (now : Z) (g : Globals)
    (a : Action) :
  keeps_selection a = true ->
  (selectAll (ed g) = true -> selectAll (ed (perform now g a)) = true) /\
  (a <> SelectAll -> selectAll (ed (perform now g a)) = selectAll (ed g)) /\
  (forall b,
     text (perform now (set_flag b g) a) = text (perform now g a) /\
     ring (perform now (set_flag b g) a) = ring (perform now g a)) /\
  (Inv g -> selectAll (ed g) = true ->
     (0 < cursorCol (ed g) ->
        buffer (ed (handleBackspace g)) =
          <[Z.to_nat (cursorLine (ed g)) :=
              take (Z.to_nat (cursorCol (ed g) - 1)) (cur_line (ed g))
                ++ drop (Z.to_nat (cursorCol (ed g))) (cur_line (ed g))]>
            (buffer (ed g))) /\
     (cursorCol (ed g) = 0 -> 0 < cursorLine (ed g) ->
        buffer (ed (handleBackspace g)) =
          delete (Z.to_nat (cursorLine (ed g)))
            (<[Z.to_nat (cursorLine (ed g) - 1) :=
                 aget [] (lines (ed g)) (cursorLine (ed g) - 1)
                   ++ cur_line (ed g)]> (buffer (ed g)))) /\
     (lineCount (ed g) < MAX_LINES ->
        buffer (ed (handleEnter g)) =
          take (Z.to_nat (cursorLine (ed g))) (buffer (ed g))
            ++ [take (Z.to_nat (cursorCol (ed g))) (cur_line (ed g));
                drop (Z.to_nat (cursorCol (ed g))) (cur_line (ed g))]
            ++ drop (Z.to_nat (cursorLine (ed g) + 1)) (buffer (ed g))) /\
     selectAll (ed (handleBackspace g)) = true /\
     selectAll (ed (handleEnter g)) = true /\
     selectAll (ed (popUndo now g)) = true).
Proof.
  intros Hk.
  assert (a <> SelectAll ->
          selectAll (ed (perform now g a)) = selectAll (ed g)) as Hsame.
  { intros Hne. rewrite <- (set_flag_id g) at 1.
    by rewrite perform_flag by done. }
  assert (forall a', keeps_selection a' = true -> a' <> SelectAll ->
          selectAll (ed g) = true ->
          selectAll (ed (perform now g a')) = true) as Hkeep.
  { intros a' Hk' Hne' Hsel. rewrite <- (set_flag_id g).
    rewrite perform_flag by done. by rewrite Hsel. }
  assert (a = SelectAll \/ a <> SelectAll) as Hdec
    by (destruct a; (by left) || (by right)).
  split; [|split; [|split]].
  - intros Hsel. destruct Hdec as [->|Hne]; [done|]. by rewrite Hsame.
  - exact Hsame.
  - intros b. destruct Hdec as [->|Hne]; [done|].
    by rewrite perform_flag by done.
  - intros HI Hsel.
    split; [by apply handleBackspace_char_buffer|].
    split; [by apply handleBackspace_join_buffer|].
    split; [by apply handleEnter_split_buffer|].
    split; [by apply (Hkeep Backspace)|].
    split; [by apply (Hkeep Enter) | by apply (Hkeep Undo)].
Qed.

Lemma selection_survives_other_operations_witness :
  let g :=
    handleSelectAll 1 (insertChars (list_ascii_of_string "xyz") (setup 0)) in
  selectAll (ed (perform 2 g Backspace)) = true /\
  buffer (ed (handleBackspace g)) = [list_ascii_of_string "xy"] /\
  selectAll (ed (perform 2 g Undo)) = true.
Proof.
  cbv zeta.
  assert (Inv (handleSelectAll 1
                 (insertChars (list_ascii_of_string "xyz") (setup 0)))) as HI.
  { apply Invb_sound. by vm_compute. }
  pose proof (selection_survives_other_operations 2
    (handleSelectAll 1 (insertChars (list_ascii_of_string "xyz") (setup 0))))
    as H.
  destruct (H Backspace eq_refl) as (Hk & _ & _ & Hb).
  destruct (H Undo eq_refl) as (Hu & _).
  destruct (Hb HI eq_refl) as (Hbuf & _).
  split; [by apply Hk|]. split; [|by apply Hu].
  rewrite Hbuf by (by vm_compute). by vm_compute.
Defined.

(** * The Fn layer *)





(** * The Fn+Shift edge *)

Lemma keysDown_ctx now s g :
  ctx (keysDown now s g) =
    (let fire := fn s && shift s && negb (prevFn g && prevShift g) in
     (xorb (capsLock (ed g)) fire,
      if fire then negb (capsLock (ed g)) else kbCapsLocked g,
      fn s, shift s)).
Proof.
  rewrite keysDown_actions, finishPoll_ctx, performAll_ctx.
  unfold capsToggle, ctx; cbv zeta.
  destruct (fn s && shift s && negb (prevFn g && prevShift g)); simpl.
  - by destruct (capsLock (ed g)).
  - by rewrite xorb_false_r.
Qed.

Lemma redrawIfNeeded_ctx now g : ctx (redrawIfNeeded now g) = ctx g.
Proof.
  unfold redrawIfNeeded, drawEditor. split_ifs; reflexivity.
Qed.

(** What one pass does to the caps-lock state and the context. *)
Lemma pass_ctx g t :
  ctx (pass g t) =
    (let s := keysState (snd t) in
     let fire :=
       isChange (snd t) && negb (isPressed (snd t) =? 0)
       && (fn s && shift s && negb (prevFn g && prevShift g)) in
     (xorb (capsLock (ed g)) fire,
      if fire then negb (capsLock (ed g)) else kbCapsLocked g,
      if isChange (snd t)
      then negb (isPressed (snd t) =? 0) && fn s else prevFn g,
      if isChange (snd t)
      then negb (isPressed (snd t) =? 0) && shift s else prevShift g)).
Proof.
  unfold pass, loop. rewrite redrawIfNeeded_ctx.
  unfold pollKeyboard. cbv zeta.
  destruct (isChange (snd t)); simpl.
  - destruct (isPressed (snd t) =? 0); simpl.
    + unfold ctx; simpl. by rewrite xorb_false_r.
    + apply keysDown_ctx.
  - unfold ctx. by rewrite xorb_false_r.
Qed.

Lemma fires_eq g t :
  fires g t =
    isChange (snd t) && negb (isPressed (snd t) =? 0)
    && (fn (keysState (snd t)) && shift (keysState (snd t))
        && negb (prevFn g && prevShift g)).
Proof.
  unfold fires. pose proof (pass_ctx g t) as H. unfold ctx in H.
  cbv zeta in H. injection H as Hcaps _ _ _. rewrite Hcaps.
  destruct (capsLock (ed g)), (isChange (snd t) && _ && _); reflexivity.
Qed.

(** Along a coherent trace the context is the pair of flags of the poll
    before, and the signal is the rising edge of the combo. *)
Lemma pass_coherent g t :
  tick_ok (prevFn g) (prevShift g) t = true ->
  prevFn (pass g t) = fn (keysState (snd t)) /\
  prevShift (pass g t) = shift (keysState (snd t)) /\
  fires g t = combo t && negb (prevFn g && prevShift g).
Proof.
  intros Hok. rewrite fires_eq.
  pose proof (pass_ctx g t) as H. unfold ctx in H. cbv zeta in H.
  injection H as _ _ Hf Hs. rewrite Hf, Hs. clear Hf Hs.
  unfold tick_ok, combo in *. cbv zeta in Hok.
  destruct (isChange (snd t)), (isPressed (snd t) =? 0),
    (fn (keysState (snd t))), (shift (keysState (snd t))),
    (prevFn g), (prevShift g); simpl in *; try done.
Qed.

Lemma fireCount_edges ts : forall g,
  coherent (prevFn g) (prevShift g) ts = true ->
  fireCount ts g = edges (prevFn g && prevShift g) (map combo ts).
Proof.
  induction ts as [|t ts IH]; intros g Hco; simpl; [done|].
  simpl in Hco. apply andb_true_iff in Hco as [Hok Hco].
  destruct (pass_coherent g t Hok) as (Hf & Hs & Hfire).
  rewrite Hfire, IH by (by rewrite Hf, Hs).
  rewrite Hf, Hs. reflexivity.
Qed.

Lemma run_app ts1 ts2 g : run (ts1 ++ ts2) g = run ts2 (run ts1 g).
Proof. apply fold_left_app. Qed.

Lemma coherent_app ts1 : forall lf ls ts2,
  coherent lf ls (ts1 ++ ts2) = true ->
  coherent lf ls ts1 = true /\
  forall g, prevFn g = lf -> prevShift g = ls ->
    coherent (prevFn (run ts1 g)) (prevShift (run ts1 g)) ts2 = true.
Proof.
  induction ts1 as [|t ts1 IH]; intros lf ls ts2 Hco; simpl in *.
  - split; [done|]. intros g <- <-. exact Hco.
  - apply andb_true_iff in Hco as [Hok Hco].
    destruct (IH _ _ _ Hco) as [H1 H2]. rewrite Hok, H1. split; [done|].
    intros g <- <-. destruct (pass_coherent g t Hok) as (Hf & Hs & _).
    by apply H2.
Qed.

(** Rising edges of the level sequences that cycles produce. *)

Lemma edges_low prev ls :
  forallb negb ls = true -> edges prev ls = 0%nat.
Proof.
  revert prev. induction ls as [|l ls IH]; intros prev H; simpl in *; [done|].
  apply andb_true_iff in H as [Hl H]. destruct l; [done|].
  by rewrite IH.
Qed.

Lemma edges_high ls :
  forallb id ls = true -> edges true ls = 0%nat.
Proof.
  induction ls as [|l ls IH]; intros H; simpl in *; [done|].
  apply andb_true_iff in H as [Hl H]. destruct l; [|done].
  by rewrite IH.
Qed.

Lemma edges_after_low prev ls1 ls2 :
  edges prev (ls1 ++ false :: ls2) = (edges prev ls1 + edges false ls2)%nat.
Proof.
  revert prev. induction ls1 as [|l ls1 IH]; intros prev; simpl; [done|].
  rewrite IH. lia.
Qed.

Lemma edges_skip_low before rest :
  forallb negb before = true ->
  edges false (before ++ rest) = edges false rest.
Proof.
  induction before as [|l before IH]; intros H; simpl in *; [done|].
  apply andb_true_iff in H as [Hl H]. destruct l; [done|]. by apply IH.
Qed.

Lemma edges_high_low hold after :
  forallb id hold = true -> forallb negb after = true ->
  edges true (hold ++ after) = 0%nat.
Proof.
  induction hold as [|l hold IH]; intros Hh Ha; simpl in *.
  - by apply edges_low.
  - apply andb_true_iff in Hh as [Hl Hh]. destruct l; [|done]. by apply IH.
Qed.

Lemma edges_cycle prev ls : cycle_levels ls -> edges prev ls = 1%nat.
Proof.
  intros (before & hold & after & -> & Hb & Hh & Hne & Ha).
  cbn [edges]. simpl. rewrite edges_skip_low by done.
  destruct hold as [|h hold]; [done|].
  simpl in Hh. apply andb_true_iff in Hh as [Hh1 Hh]. destruct h; [|done].
  simpl. by rewrite edges_high_low.
Qed.

Lemma edges_cycles cs : forall prev,
  Forall cycle_levels cs -> edges prev (concat cs) = length cs.
Proof.
  induction cs as [|c cs IH]; intros prev Hall; [done|].
  apply Forall_cons in Hall as [Hc Hcs]. simpl.
  destruct cs as [|c' cs].
  - simpl. rewrite app_nil_r. by apply edges_cycle.
  - pose proof Hcs as Hcs'. apply Forall_cons in Hcs' as [Hc' _].
    destruct Hc' as (before & hold & after & -> & _).
    change (concat ((false :: before ++ hold ++ after) :: cs))
      with (false :: ((before ++ hold ++ after) ++ concat cs)).
    rewrite edges_after_low, (edges_cycle prev c) by done.
    specialize (IH true Hcs). simpl in IH. simpl. by rewrite IH.
Qed.

Lemma forallb_map_negb (f : Tick -> bool) ts :
  forallb (fun t => negb (f t)) ts = forallb negb (map f ts).
Proof. induction ts as [|t ts IH]; simpl; [done|]. by rewrite IH. Qed.

Lemma forallb_map_id (f : Tick -> bool) ts :
  forallb f ts = forallb id (map f ts).
Proof. induction ts as [|t ts IH]; simpl; [done|]. by rewrite IH. Qed.

Lemma cycle_ok_levels c :
  cycle_ok c = true -> cycle_levels (map combo (cycle_ticks c)).
Proof.
  unfold cycle_ok. intros H.
  repeat (apply andb_true_iff in H as [H ?]).
  exists (map combo (c_before c)), (map combo (c_hold c)),
    (map combo (c_after c)).
  unfold cycle_ticks. rewrite map_cons, !map_app.
  split; [f_equal; by apply negb_true_iff|].
  split; [by rewrite <- forallb_map_negb|].
  split; [by rewrite <- forallb_map_id|].
  split; [|by rewrite <- forallb_map_negb].
  destruct (c_hold c); [done | discriminate].
Qed.

Lemma cycles_levels cs :
  forallb cycle_ok cs = true ->
  map combo (concat (map cycle_ticks cs)) =
    concat (map (fun c => map combo (cycle_ticks c)) cs) /\
  Forall cycle_levels (map (fun c => map combo (cycle_ticks c)) cs).
Proof.
  induction cs as [|c cs IH]; intros H; simpl in *; [done|].
  apply andb_true_iff in H as [Hc H]. destruct (IH H) as [IH1 IH2].
  split.
  - rewrite map_app. by rewrite IH1.
  - apply Forall_cons. split; [by apply cycle_ok_levels | done].
Qed.

(** C2, counterexample.  Not every press-release cycle fires the signal:
    in [swapped_cycle] all keys are released, Fn and Shift are then both
    down in one poll, and the rule holds on that poll (the combo is set, the
    context is not), but the poll is reported as unchanged, [loop] skips it,
    and the signal fires on no poll of the cycle; caps lock stays off. *)
Lemma combo_edge_missed_on_unchanged_poll :
  cycle_ok swapped_cycle = true /\
  (let g := run [c_release swapped_cycle; (1, mkPoll true 2 fn_a)] (setup 0) in
   let t := (2, mkPoll false 2 fn_shift) in
   combo t = true /\ prevFn g && prevShift g = false /\
   fires g t = false) /\
  fireCount (cycle_ticks swapped_cycle) (setup 0) = 0%nat /\
  capsLock (ed (run (cycle_ticks swapped_cycle) (setup 0))) = false /\
  coherent false false (cycle_ticks swapped_cycle) = false.
Proof.
  split; [reflexivity|].
  split; [repeat split; vm_compute; reflexivity|].
  repeat split; vm_compute; reflexivity.
Qed.

(** C2, amended.  On a pass that processes a poll (the library reports a change and
    keys are down) the signal fires exactly when Fn and Shift are both set
    in the current state and were not both set in the context, and the
    context becomes the current pair of flags; a changed poll with no key
    down resets the context to (false, false) and does not fire; on an
    unchanged poll only the redraw bookkeeping runs.  Along every sequence
    of polls in which an unchanged poll shows the flags of the poll before
    and a poll without keys shows no flags, the signal fires on a poll
    exactly when the combo holds on it and did not hold in the context, the
    context after a poll without keys is (false, false), and over any number
    of press-release cycles the signal fires once per cycle. *)
Theorem combo_edge_once_per_cycle :
  (forall g t,
     fires g t =
       isChange (snd t) && negb (isPressed (snd t) =? 0)
       && (combo t && negb (prevFn g && prevShift g))) /\
  (forall g t,
     isChange (snd t) = true -> isPressed (snd t) <> 0 ->
     (fires g t = true <->
        combo t = true /\ ~ (prevFn g = true /\ prevShift g = true)) /\
     capsLock (ed (pass g t)) = xorb (capsLock (ed g)) (fires g t) /\
     prevFn (pass g t) = fn (keysState (snd t)) /\
     prevShift (pass g t) = shift (keysState (snd t))) /\
  (forall g t,
     isChange (snd t) = true -> isPressed (snd t) = 0 ->
     prevFn (pass g t) = false /\ prevShift (pass g t) = false /\
     fires g t = false) /\
  (forall g t,
     isChange (snd t) = false -> pass g t = redrawIfNeeded (fst t) g) /\
  (forall g ts t,
     coherent (prevFn g) (prevShift g) (ts ++ [t]) = true ->
     let g' := run ts g in
     (fires g' t = true <->
        combo t = true /\ ~ (prevFn g' = true /\ prevShift g' = true)) /\
     (isPressed (snd t) = 0 ->
        prevFn (pass g' t) = false /\ prevShift (pass g' t) = false)) /\
  (forall g cs,
     coherent (prevFn g) (prevShift g) (concat (map cycle_ticks cs)) = true ->
     forallb cycle_ok cs = true ->
     fireCount (concat (map cycle_ticks cs)) g = length cs).
Proof.
  assert (forall b1 b2 : bool,
            b1 && negb b2 = true <-> b1 = true /\ ~ b2 = true) as Hedge
    by (intros [] []; simpl; intuition congruence).
  assert (forall b1 b2 : bool,
            b1 && b2 = true <-> b1 = true /\ b2 = true) as Hand
    by (intros; apply andb_true_iff).
  split; [|split; [|split; [|split; [|split]]]].
  - intros g t. rewrite fires_eq. reflexivity.
  - intros g t Hch Hpr.
    pose proof (pass_ctx g t) as H. unfold ctx in H. cbv zeta in H.
    injection H as Hcaps _ Hf Hs.
    rewrite Hcaps, Hf, Hs, fires_eq, Hch.
    destruct (Z.eqb_spec (isPressed (snd t)) 0); [done|]. simpl.
    split; [|done].
    fold (combo t). rewrite Hedge, Hand. reflexivity.
  - intros g t Hch Hpr.
    pose proof (pass_ctx g t) as H. unfold ctx in H. cbv zeta in H.
    injection H as _ _ Hf Hs. rewrite Hf, Hs, fires_eq, Hch, Hpr. done.
  - intros g t Hch. unfold pass, loop, pollKeyboard. by rewrite Hch.
  - intros g ts t Hco. cbv zeta.
    destruct (coherent_app ts _ _ [t] Hco) as [_ Hco'].
    specialize (Hco' g eq_refl eq_refl). simpl in Hco'.
    rewrite andb_true_r in Hco'.
    destruct (pass_coherent _ _ Hco') as (Hf & Hs & Hfire).
    split.
    + rewrite Hfire, Hedge, Hand. reflexivity.
    + intros Hpr. rewrite Hf, Hs. unfold tick_ok in Hco'. cbv zeta in Hco'.
      rewrite Hpr in Hco'. simpl in Hco'.
      apply andb_true_iff in Hco' as [Hflags _].
      apply andb_true_iff in Hflags as [H1 H2].
      by apply negb_true_iff in H1, H2.
  - intros g cs Hco Hok.
    rewrite fireCount_edges by done.
    destruct (cycles_levels cs Hok) as [-> Hall].
    rewrite edges_cycles by done. by rewrite length_map.
Qed.

Lemma combo_edge_once_per_cycle_witness :
  fireCount
    (concat (map cycle_ticks [sample_cycle 10; sample_cycle 20; sample_cycle 30]))
    (setup 0) = 3%nat /\
  fires (setup 0) (1, mkPoll true 2 fn_shift) = true /\
  prevFn (pass (pass (setup 0) (1, mkPoll true 2 fn_shift))
            (2, mkPoll true 0 no_keys)) = false.
Proof.
  destruct combo_edge_once_per_cycle as (_ & Hrule & Hreset & _ & _ & Hcyc).
  split; [|split].
  - apply (Hcyc (setup 0)
             [sample_cycle 10; sample_cycle 20; sample_cycle 30]);
      reflexivity.
  - destruct (Hrule (setup 0) (1, mkPoll true 2 fn_shift))
      as ((_ & Hfire) & _); [reflexivity | discriminate |].
    apply Hfire. split; [reflexivity | intros [H _]; discriminate H].
  - destruct (Hreset (pass (setup 0) (1, mkPoll true 2 fn_shift))
                (2, mkPoll true 0 no_keys)) as (H & _);
      [reflexivity | reflexivity | exact H].
Defined.

(** * The undo ring as a bounded stack *)

(** Closed goals are settled by evaluation, with the context out of the
    way. *)
Ltac by_compute := clear; vm_compute; done.

Lemma history_length g :
  length (history g) = Z.to_nat (undoCount g).
Proof. unfold history. by rewrite length_map, length_seq. Qed.

Lemma history_with_ed e g : history (with_ed e g) = history g.
Proof. reflexivity. Qed.

Lemma snapshot_of_doc g : Inv g -> entry_doc (snapshot_of g) = doc g.
Proof.
  intros (Hlen & (Hn & _) & _ & Hall & _). unfold entry_doc, doc, buffer.
  cbn [snapshot_of u_lines u_lineCount u_cursorLine u_cursorCol].
  rewrite copy_lines_prefix; [done | unfold MAX_LINES in *; lia |].
  rewrite entry_lines_length by done. unfold MAX_LINES in *; lia.
Qed.

Lemma map_seq_shift {A} (f : nat -> A) n :
  map f (seq 1 n) = map (fun k => f (S k)) (seq 0 n).
Proof. by rewrite <- seq_shift, map_map. Qed.

Lemma take_map_seq {A} (f : nat -> A) m n :
  (m <= n)%nat -> take m (map f (seq 0 n)) = map f (seq 0 m).
Proof.
  intros Hmn. rewrite firstn_map, take_seq. by rewrite Nat.min_l.
Qed.

(** [pushUndo] puts the current document on top and keeps at most
    [UNDO_STACK_SIZE] documents. *)
Lemma history_pushUndo g :
  Inv g ->
  history (pushUndo g) =
    take (Z.to_nat UNDO_STACK_SIZE) (doc g :: history g).
Proof.
  intros HI. pose proof HI as (_ & _ & Hst & _ & Hh & Hcnt & _).
  unfold history at 1. rewrite pushUndo_eq.
  cbn [undoStack undoHead undoCount with_undo].
  set (c' := if undoCount g <? UNDO_STACK_SIZE
             then undoCount g + 1 else undoCount g).
  assert (Z.to_nat c' = S (Z.to_nat (c' - 1)) /\ 0 <= c' - 1 <= undoCount g
          /\ c' - 1 < UNDO_STACK_SIZE) as (Hc' & Hc1 & Hc2).
  { unfold c'. destruct (Z.ltb_spec (undoCount g) UNDO_STACK_SIZE);
      unfold UNDO_STACK_SIZE in *; lia. }
  rewrite Hc'. cbn [seq map]. change (Z.of_nat 0) with 0.
  rewrite slot_push by done.
  rewrite aget_aset_eq by (unfold UNDO_STACK_SIZE in *; lia).
  rewrite snapshot_of_doc by done.
  replace (Z.to_nat UNDO_STACK_SIZE) with (S (Z.to_nat (UNDO_STACK_SIZE - 1)))
    by (unfold UNDO_STACK_SIZE; lia).
  cbn [take]. f_equal.
  rewrite map_seq_shift.
  transitivity (map (fun k : nat =>
                  entry_doc (aget blank_entry (undoStack g)
                               (slot (undoHead g) (Z.of_nat k))))
                  (seq 0 (Z.to_nat (c' - 1)))).
  - apply map_ext_in. intros k Hk%in_seq.
    rewrite slot_push_older by done.
    replace (Z.of_nat (S k) - 1) with (Z.of_nat k) by lia.
    rewrite aget_aset_ne; [done|].
    intros Heq. symmetry in Heq. revert Heq.
    apply slot_distinct; [done | unfold UNDO_STACK_SIZE in *; lia].
  - unfold history.
    destruct (Z.ltb_spec (undoCount g) UNDO_STACK_SIZE) as [Hlt|Hge].
    + replace (c' - 1) with (undoCount g) by (unfold c';
        destruct (Z.ltb_spec (undoCount g) UNDO_STACK_SIZE); lia).
      rewrite take_ge; [done|]. rewrite length_map, length_seq.
      unfold UNDO_STACK_SIZE in *; lia.
    + assert (c' = undoCount g) as -> by (unfold c';
        destruct (Z.ltb_spec (undoCount g) UNDO_STACK_SIZE); lia).
      assert (undoCount g = UNDO_STACK_SIZE) as -> by lia.
      rewrite take_map_seq; [done | unfold UNDO_STACK_SIZE; lia].
Qed.

(** [popUndo] on an empty history keeps the document. *)
Lemma popUndo_history_empty now g :
  history g = [] ->
  0 <= undoCount g ->
  doc (popUndo now g) = doc g /\ history (popUndo now g) = [].
Proof.
  intros Hh Hc. assert (undoCount g = 0) as H0.
  { apply (f_equal length) in Hh. rewrite history_length in Hh.
    simpl in Hh. lia. }
  rewrite popUndo_empty by done. split; [done|].
  unfold history; simpl. by rewrite H0.
Qed.

(** [popUndo] restores the top document and removes it. *)
Lemma popUndo_history now g d hs :
  Inv g -> history g = d :: hs ->
  doc (popUndo now g) = d /\ history (popUndo now g) = hs.
Proof.
  intros HI Hh. pose proof HI as (Hlen & _ & _ & Hall & Hhd & Hcnt & Hring).
  assert (undoCount g <> 0) as Hne.
  { intros H0. unfold history in Hh. by rewrite H0 in Hh. }
  destruct (Hring 0) as (Hv & Hn & _); [lia|].
  rewrite popUndo_nonempty by done.
  unfold history in Hh.
  replace (Z.to_nat (undoCount g)) with (S (Z.to_nat (undoCount g - 1)))
    in Hh by lia.
  cbn [seq map] in Hh. change (Z.of_nat 0) with 0 in Hh.
  injection Hh as Hd Hhs. split.
  - rewrite <- Hd. unfold doc, entry_doc, buffer, restored; simpl.
    rewrite copy_lines_prefix; [done | | unfold MAX_LINES in *; lia].
    rewrite entry_lines_length by done. unfold MAX_LINES in *; lia.
  - rewrite <- Hhs. unfold history.
    cbn [undoStack undoHead undoCount with_ed with_undo ed].
    rewrite map_seq_shift. apply map_ext_in. intros k _.
    rewrite slot_pop_older by done. do 3 f_equal. lia.
Qed.
Lemma history_bound g : Inv g -> (length (history g) <= 20)%nat.
Proof.
  intros (_ & _ & _ & _ & _ & Hcnt & _). rewrite history_length.
  unfold UNDO_STACK_SIZE in *. lia.
Qed.

(** X1.  Seen through [history], the ring is a stack of at most 20
    documents: [pushUndo] keeps the document and puts it on top, dropping
    the oldest entry of a full stack; [popUndo] restores the top entry and
    removes it, and on an empty stack keeps the document. *)
Theorem undo_ring_is_bounded_stack (now : Z) (g : Globals) :
  Inv g ->
  (length (history g) <= 20)%nat /\
  doc (pushUndo g) = doc g /\
  history (pushUndo g) = take 20 (doc g :: history g) /\
  match history g with
  | [] => doc (popUndo now g) = doc g /\ history (popUndo now g) = []
  | d :: hs => doc (popUndo now g) = d /\ history (popUndo now g) = hs
  end.
Proof.
  intros HI. split; [by apply history_bound|]. split; [done|].
  split; [by apply history_pushUndo|].
  destruct (history g) as [|d hs] eqn:Hh.
  - apply popUndo_history_empty; [done | apply HI].
  - by apply popUndo_history.
Qed.

Lemma undo_ring_is_bounded_stack_witness :
  let g := insertChar "b" (insertChar "a" (setup 0)) in
  history g =
    [([["a"%char]], 1, 0, 1); ([[]], 1, 0, 0)] /\
  doc (popUndo 3 g) = ([["a"%char]], 1, 0, 1) /\
  history (popUndo 3 g) = [([[]], 1, 0, 0)].
Proof.
  cbv zeta.
  assert (Inv (insertChar "b" (insertChar "a" (setup 0)))) as HI
    by (apply Invb_sound; by_compute).
  destruct (undo_ring_is_bounded_stack 3 _ HI) as (_ & _ & _ & H).
  assert (history (insertChar "b" (insertChar "a" (setup 0))) =
          [([["a"%char]], 1, 0, 1); ([[]], 1, 0, 0)]) as Hh
    by (by_compute).
  rewrite Hh in H. destruct H as [Hd Hhs]. by rewrite Hd, Hhs.
Defined.

(** ** Undoing edits *)

Lemma history_insertChar c g :
  Inv g -> history (insertChar c g) = take 20 (doc g :: history g).
Proof.
  intros HI. rewrite insertChar_eq by apply HI.
  rewrite history_with_ed. by apply history_pushUndo.
Qed.

Lemma insertChars_snoc cs c g :
  insertChars (cs ++ [c]) g = insertChar c (insertChars cs g).
Proof. unfold insertChars. by rewrite fold_left_app. Qed.

Lemma insertChars_Inv cs : forall g, Inv g -> Inv (insertChars cs g).
Proof.
  induction cs as [|c cs IH]; intros g HI; [done|].
  apply IH. by apply insertChar_Inv.
Qed.

Lemma undos_Inv ts : forall g, Inv g -> Inv (undos ts g).
Proof.
  induction ts as [|t ts IH]; intros g HI; [done|].
  apply IH. by apply popUndo_Inv.
Qed.

(** The [j]-th entry of the history after a burst of insertions is the
    document [j + 1] insertions back. *)
Lemma history_insertChars g : Inv g -> forall cs j,
  (j < length cs)%nat -> (j < 20)%nat ->
  history (insertChars cs g) !! j =
    Some (doc (insertChars (take (length cs - 1 - j) cs) g)).
Proof.
  intros HI cs. induction cs as [|c cs IH] using rev_ind; intros j Hj H20.
  { simpl in Hj. lia. }
  rewrite length_app in *. simpl in Hj.
  rewrite insertChars_snoc, history_insertChar by by apply insertChars_Inv.
  rewrite lookup_take_lt by done.
  destruct j as [|j]; simpl.
  - replace (length cs + 1 - 1 - 0)%nat with (length cs) by lia.
    by rewrite take_app_length.
  - rewrite IH by lia.
    replace (length cs + 1 - 1 - S j)%nat with (length cs - 1 - j)%nat by lia.
    by rewrite take_app_le by lia.
Qed.

(** [k] undo steps restore the [k]-th entry of the history. *)
Lemma undos_history ts : forall g d,
  Inv g -> ts <> [] -> history g !! (length ts - 1)%nat = Some d ->
  doc (undos ts g) = d.
Proof.
  induction ts as [|t ts IH]; intros g d HI Hne Hd; [done|].
  destruct (history g) as [|d0 hs] eqn:Hh; [done|].
  destruct (popUndo_history t g d0 hs HI Hh) as [Hdoc Hhs].
  destruct ts as [|t' ts].
  - simpl in *. injection Hd as <-. exact Hdoc.
  - change (undos (t :: t' :: ts) g) with (undos (t' :: ts) (popUndo t g)).
    apply IH; [by apply popUndo_Inv | done |].
    rewrite Hhs. simpl in Hd. simpl. by rewrite Nat.sub_0_r in *.
Qed.

(** X2.  After any number of insertions, [k] undo steps ([k] at most the
    number of insertions and at most 20) bring back the document as it was
    [k] insertions earlier. *)
Theorem undo_goes_back_k_insertions (g : Globals) (cs : list ascii)
    (ts : list Z) :
  Inv g ->
  (1 <= length ts <= length cs)%nat -> (length ts <= 20)%nat ->
  doc (undos ts (insertChars cs g)) =
    doc (insertChars (take (length cs - length ts) cs) g).
Proof.
  intros HI Hk H20.
  apply undos_history.
  - by apply insertChars_Inv.
  - destruct ts; [simpl in Hk; lia | done].
  - rewrite history_insertChars by (done || lia).
    by replace (length cs - 1 - (length ts - 1))%nat
      with (length cs - length ts)%nat by lia.
Qed.

Lemma undo_goes_back_k_insertions_witness :
  doc (undos [1; 2] (insertChars (list_ascii_of_string "abc") (setup 0))) =
    ([["a"%char]], 1, 0, 1).
Proof.
  rewrite (undo_goes_back_k_insertions (setup 0)
             (list_ascii_of_string "abc") [1; 2]).
  - by_compute.
  - apply Invb_sound. by_compute.
  - simpl. lia.
  - simpl. lia.
Defined.

(** An edit that is [pushUndo] followed by a change of the editor is undone
    by one [popUndo]. *)
Lemma popUndo_after_edit now g e :
  Inv g -> Inv (with_ed e (pushUndo g)) ->
  doc (popUndo now (with_ed e (pushUndo g))) = doc g.
Proof.
  intros HI HI'.
  assert (history (with_ed e (pushUndo g)) =
          doc g :: take 19 (history g)) as Hh.
  { rewrite history_with_ed, history_pushUndo by done. reflexivity. }
  by destruct (popUndo_history now _ _ _ HI' Hh).
Qed.

(** X3.  One Undo takes back one edit: after [insertChar] it restores the
    document, and after [handleBackspace], [handleForwardDelete] or
    [handleEnter] it restores the document unless the handler was at a
    boundary and left the globals as they were. *)
Theorem one_undo_takes_back_one_edit (now : Z) (g : Globals) (c : ascii) :
  Inv g ->
  doc (popUndo now (insertChar c g)) = doc g /\
  (handleBackspace g = g \/ doc (popUndo now (handleBackspace g)) = doc g) /\
  (handleForwardDelete g = g \/
   doc (popUndo now (handleForwardDelete g)) = doc g) /\
  (handleEnter g = g \/ doc (popUndo now (handleEnter g)) = doc g).
Proof.
  intros HI. pose proof HI as (_ & Hcur & _).
  pose proof Hcur as (Hn & Hl & Hc). fold (cur_line (ed g)) in Hc.
  split; [|split; [|split]].
  - pose proof (insertChar_Inv c g HI) as HI'.
    rewrite insertChar_eq in * by done. by apply popUndo_after_edit.
  - pose proof (handleBackspace_Inv g HI) as HI'.
    destruct (Z.lt_ge_cases 0 (cursorCol (ed g))) as [Hpos|Hzero].
    + right. rewrite handleBackspace_char in * by done.
      by apply popUndo_after_edit.
    + destruct (Z.lt_ge_cases 0 (cursorLine (ed g))) as [Hlpos|Hlzero].
      * right. rewrite handleBackspace_join in * by lia.
        by apply popUndo_after_edit.
      * left. apply handleBackspace_origin; lia.
  - pose proof (handleForwardDelete_Inv g HI) as HI'.
    destruct (Z.lt_ge_cases (cursorCol (ed g)) (wlen (cur_line (ed g))))
      as [Hlt|Hge].
    + right. rewrite handleForwardDelete_char in * by done.
      by apply popUndo_after_edit.
    + destruct (Z.lt_ge_cases (cursorLine (ed g)) (lineCount (ed g) - 1))
        as [Hnext|Hlast].
      * right. rewrite handleForwardDelete_join in * by lia.
        by apply popUndo_after_edit.
      * left. apply handleForwardDelete_end; lia.
  - pose proof (handleEnter_Inv g HI) as HI'.
    destruct (Z.lt_ge_cases (lineCount (ed g)) MAX_LINES) as [Hroom|Hfull].
    + right. rewrite handleEnter_split in * by done.
      by apply popUndo_after_edit.
    + left. by apply handleEnter_full.
Qed.

Lemma one_undo_takes_back_one_edit_witness :
  let g := cursorLeft (insertChars (list_ascii_of_string "ab") (setup 0)) in
  doc (popUndo 5 (handleEnter g)) = doc g /\
  doc (popUndo 5 (handleForwardDelete g)) = doc g.
Proof.
  cbv zeta.
  destruct (one_undo_takes_back_one_edit 5
              (cursorLeft (insertChars (list_ascii_of_string "ab") (setup 0)))
              "x") as (_ & _ & Hfd & Hen).
  - apply Invb_sound. by_compute.
  - split.
    + destruct Hen as [Hen|Hen]; [|exact Hen].
      exfalso. apply (f_equal (fun x => lineCount (ed x))) in Hen.
      by vm_compute in Hen.
    + destruct Hfd as [Hfd|Hfd]; [|exact Hfd].
      exfalso. apply (f_equal (fun x => undoCount x)) in Hfd.
      by vm_compute in Hfd.
Defined.

(** * Forward delete *)

(** X4.  With the cursor before the end of its line, [handleForwardDelete]
    pushes one snapshot and removes the character at the cursor.  At the end
    of a line other than the last it pushes one snapshot, appends the next
    line to the cursor line and deletes the next line from the buffer.  At
    the end of the last line it returns the globals as they were.  The
    cursor never moves. *)
Theorem handleForwardDelete_contract (g : Globals) :
  Inv g ->
  let e := ed g in
  let e' := ed (handleForwardDelete g) in
  let next := aget [] (lines e) (cursorLine e + 1) in
  cursorLine e' = cursorLine e /\ cursorCol e' = cursorCol e /\
  (cursorCol e < wlen (cur_line e) ->
     ring (handleForwardDelete g) = ring (pushUndo g) /\
     buffer e' =
       <[Z.to_nat (cursorLine e) :=
           take (Z.to_nat (cursorCol e)) (cur_line e)
             ++ drop (Z.to_nat (cursorCol e + 1)) (cur_line e)]> (buffer e) /\
     lineCount e' = lineCount e) /\
  (cursorCol e = wlen (cur_line e) -> cursorLine e < lineCount e - 1 ->
     ring (handleForwardDelete g) = ring (pushUndo g) /\
     buffer e' =
       delete (Z.to_nat (cursorLine e + 1))
         (<[Z.to_nat (cursorLine e) := cur_line e ++ next]> (buffer e)) /\
     lineCount e' = lineCount e - 1) /\
  (cursorCol e = wlen (cur_line e) -> cursorLine e = lineCount e - 1 ->
     handleForwardDelete g = g).
Proof.
  intros HI. pose proof HI as (Hlen & Hcur & _).
  pose proof Hcur as (Hn & Hl & Hc). fold (cur_line (ed g)) in Hc.
  cbv zeta.
  assert (cursorLine (ed (handleForwardDelete g)) = cursorLine (ed g) /\
          cursorCol (ed (handleForwardDelete g)) = cursorCol (ed g))
    as [Hsl Hsc].
  { destruct (Z.lt_ge_cases (cursorCol (ed g)) (wlen (cur_line (ed g)))).
    - by rewrite handleForwardDelete_char.
    - destruct (Z.lt_ge_cases (cursorLine (ed g)) (lineCount (ed g) - 1)).
      + by rewrite handleForwardDelete_join.
      + by rewrite handleForwardDelete_end. }
  split; [done|]. split; [done|]. split; [|split].
  - intros Hlt. rewrite handleForwardDelete_char by done.
    split; [done|]. split; [|done].
    change (ed (with_ed ?x _)) with x. by apply buffer_set_cur_line.
  - intros Hend Hnext. rewrite handleForwardDelete_join by lia.
    split; [done|]. split; [|done].
    change (ed (with_ed ?x _)) with x.
    unfold buffer, joined_forward; simpl.
    rewrite buffer_joined by (unfold MAX_LINES in *; lia).
    by rewrite Z.add_simpl_r.
  - intros Hend Hlast. apply handleForwardDelete_end; lia.
Qed.

Lemma handleForwardDelete_contract_witness :
  let ab := list_ascii_of_string "ab" in
  let g1 := cursorLeft (insertChars ab (setup 0)) in
  let g2 := cursorLeft (handleEnter g1) in
  buffer (ed (handleForwardDelete g1)) = [["a"%char]] /\
  (buffer (ed g2) = [["a"%char]; ["b"%char]] /\
   buffer (ed (handleForwardDelete g2)) = [ab]) /\
  handleForwardDelete (setup 0) = setup 0.
Proof.
  cbv zeta.
  assert (Inv (cursorLeft (insertChars (list_ascii_of_string "ab") (setup 0))))
    as HI1 by (apply Invb_sound; by_compute).
  assert (Inv (cursorLeft (handleEnter
            (cursorLeft (insertChars (list_ascii_of_string "ab") (setup 0))))))
    as HI2 by (apply Invb_sound; by_compute).
  split; [|split].
  - destruct (handleForwardDelete_contract _ HI1) as (_ & _ & H & _).
    destruct H as (_ & Hb & _); [by_compute|].
    rewrite Hb. by_compute.
  - destruct (handleForwardDelete_contract _ HI2) as (_ & _ & _ & H & _).
    destruct H as (_ & Hb & _); [by_compute..|].
    split; [by_compute|]. rewrite Hb. by_compute.
  - destruct (handleForwardDelete_contract (setup 0)) as (_ & _ & _ & _ & H).
    + apply Invb_sound. by_compute.
    + apply H; reflexivity.
Defined.

(** * Typing *)

Lemma doc_insertChar c g :
  Inv g ->
  buffer (ed (insertChar c g)) =
    <[Z.to_nat (cursorLine (ed g)) :=
        take (Z.to_nat (cursorCol (ed g))) (cur_line (ed g))
          ++ c :: drop (Z.to_nat (cursorCol (ed g))) (cur_line (ed g))]>
      (buffer (ed g)) /\
  lineCount (ed (insertChar c g)) = lineCount (ed g) /\
  cursorLine (ed (insertChar c g)) = cursorLine (ed g) /\
  cursorCol (ed (insertChar c g)) = cursorCol (ed g) + 1.
Proof.
  intros (_ & Hcur & _). rewrite insertChar_eq by done.
  change (ed (with_ed ?x _)) with x.
  change (buffer (with_cursorCol ?c ?x)) with (buffer x).
  rewrite buffer_set_cur_line by apply Hcur. done.
Qed.

Lemma cur_line_insertChar c g :
  Inv g ->
  cur_line (ed (insertChar c g)) =
    take (Z.to_nat (cursorCol (ed g))) (cur_line (ed g))
      ++ c :: drop (Z.to_nat (cursorCol (ed g))) (cur_line (ed g)).
Proof.
  intros (Hlen & (Hn & Hl & Hc) & _).
  rewrite insertChar_eq by done. unfold cur_line; simpl.
  rewrite aget_aset_eq; [done | lia | unfold MAX_LINES in *; lia].
Qed.

(** The spliced document of [insertChars], as a lemma to build on. *)
Lemma insertChars_doc cs g :
  Inv g ->
  doc (insertChars cs g) =
    (<[Z.to_nat (cursorLine (ed g)) :=
         take (Z.to_nat (cursorCol (ed g))) (cur_line (ed g)) ++ cs
           ++ drop (Z.to_nat (cursorCol (ed g))) (cur_line (ed g))]>
       (buffer (ed g)),
     lineCount (ed g), cursorLine (ed g), cursorCol (ed g) + wlen cs).
Proof.
  revert g. induction cs as [|c cs IH]; intros g HI.
  - pose proof HI as (Hlen & (Hn & Hl & Hc) & _).
    unfold insertChars, doc; simpl. rewrite take_drop, Z.add_0_r.
    rewrite list_insert_id; [done|].
    unfold buffer, cur_line. rewrite lookup_take_lt by lia.
    rewrite aget_Z by lia.
    destruct (lookup_lt_is_Some_2 (lines (ed g)) (Z.to_nat (cursorLine (ed g))))
      as [x Hx]; [unfold MAX_LINES in *; lia|]. by rewrite Hx.
  - pose proof HI as (Hlen & (Hn & Hl & Hc) & _).
    fold (cur_line (ed g)) in Hc.
    change (insertChars (c :: cs) g) with (insertChars cs (insertChar c g)).
    rewrite IH by by apply insertChar_Inv.
    rewrite cur_line_insertChar by done.
    destruct (doc_insertChar c g HI) as (Hb & Hn' & Hl' & Hc').
    rewrite Hb, Hn', Hl', Hc'.
    rewrite list_insert_insert_eq.
    replace (Z.to_nat (cursorCol (ed g) + 1))
      with (S (Z.to_nat (cursorCol (ed g)))) by lia.
    assert (length (take (Z.to_nat (cursorCol (ed g))) (cur_line (ed g)))
            = Z.to_nat (cursorCol (ed g))) as Htl
      by (rewrite length_take; unfold wlen in *; lia).
    set (pre := take (Z.to_nat (cursorCol (ed g))) (cur_line (ed g))) in *.
    set (post := drop (Z.to_nat (cursorCol (ed g))) (cur_line (ed g))) in *.
    replace (take (S (Z.to_nat (cursorCol (ed g)))) (pre ++ c :: post))
      with (pre ++ [c]).
    2:{ change (pre ++ c :: post) with (pre ++ [c] ++ post).
        rewrite app_assoc, take_app_length'; [done|].
        rewrite length_app; simpl. lia. }
    replace (drop (S (Z.to_nat (cursorCol (ed g)))) (pre ++ c :: post))
      with post.
    2:{ change (pre ++ c :: post) with (pre ++ [c] ++ post).
        rewrite app_assoc, drop_app_length'; [done|].
        rewrite length_app; simpl. lia. }
    rewrite <- app_assoc. cbn [app].
    unfold wlen. cbn [length]. f_equal. lia.
Qed.

(** X5.  A burst of insertions splices the characters, in order, into the
    cursor line at the cursor, moves the cursor behind them, and touches no
    other line. *)
Theorem insertChars_splices (cs : list ascii) (g : Globals) :
  Inv g ->
  let line := cur_line (ed g) in
  let col := Z.to_nat (cursorCol (ed g)) in
  doc (insertChars cs g) =
    (<[Z.to_nat (cursorLine (ed g)) := take col line ++ cs ++ drop col line]>
       (buffer (ed g)),
     lineCount (ed g), cursorLine (ed g), cursorCol (ed g) + wlen cs).
Proof. intros HI. cbv zeta. by apply insertChars_doc. Qed.

Lemma insertChars_splices_witness :
  let g := cursorLeft (insertChars (list_ascii_of_string "ad") (setup 0)) in
  doc (insertChars (list_ascii_of_string "bc") g) =
    ([list_ascii_of_string "abcd"], 1, 0, 3).
Proof.
  cbv zeta.
  rewrite insertChars_splices by (apply Invb_sound; by_compute).
  by_compute.
Defined.

(** ** The two passes that follow the handlers *)

Ltac window_step :=
  cbn [with_scrollY with_scrollX cursorLine cursorCol scrollY scrollX
       showLineNumbers lines lineCount capsLock selectAll notification
       notificationTime].

(** [ensureCursorVisible] as one update of the two scroll offsets. *)
Lemma ensureCursorVisible_eq g :
  let e := ed g in
  let sy1 := if cursorLine e <? scrollY e then cursorLine e else scrollY e in
  let sy2 := if cursorLine e >=? sy1 + VISIBLE_LINES
             then cursorLine e - VISIBLE_LINES + 1 else sy1 in
  let visibleChars :=
    CHARS_PER_LINE - (if showLineNumbers e then 4 else 0) in
  let sx1 := if cursorCol e <? scrollX e then cursorCol e else scrollX e in
  let sx2 := if cursorCol e >=? sx1 + visibleChars
             then cursorCol e - visibleChars + 1 else sx1 in
  ensureCursorVisible g = with_ed (with_scrollX sx2 (with_scrollY sy2 e)) g.
Proof.
  destruct g as [[ls n l c sy sx cp sel sh nt ntt] st hd cnt pf ps nr kb lb].
  unfold ensureCursorVisible.
  cbn [ed cursorLine cursorCol scrollY scrollX showLineNumbers].
  destruct (l <? sy); window_step; destruct (l >=? _); window_step;
    destruct (c <? sx); window_step;
    destruct (c >=? _); reflexivity.
Qed.

Ltac redraw_step :=
  cbn [with_needsRedraw with_lastBlink upd_ed with_ed with_notification ed
       notification notificationTime lastBlink needsRedraw lines lineCount
       cursorLine cursorCol scrollY scrollX capsLock selectAll
       showLineNumbers undoStack undoHead undoCount prevFn prevShift
       kbCapsLocked].

Ltac redraw_norm :=
  cbv [with_needsRedraw with_lastBlink upd_ed with_ed with_notification ed
       notification notificationTime lastBlink needsRedraw lines lineCount
       cursorLine cursorCol scrollY scrollX capsLock selectAll
       showLineNumbers undoStack undoHead undoCount prevFn prevShift
       kbCapsLocked].

(** [redrawIfNeeded] writes the notification, [needsRedraw] and
    [lastBlink], and nothing else. *)
Lemma redrawIfNeeded_eq now g :
  exists nt nr lb,
    redrawIfNeeded now g =
      with_lastBlink lb (with_needsRedraw nr (upd_ed (with_notification nt) g)).
Proof.
  destruct g as [[ls n l c sy sx cp sel sh nt ntt] st hd cnt pf ps nr kb lb].
  unfold redrawIfNeeded, drawEditor.
  cbn [ed notification notificationTime lastBlink needsRedraw].
  destruct (_ && _); redraw_step; destruct (elapsed now lb >=? 500);
    redraw_step; try destruct nr; redraw_step; try destruct (_ && _);
    redraw_step; eexists _, _, _; redraw_norm; reflexivity.
Qed.

(** ** A poll of printable keys *)

Lemma doc_text g g' : text g' = text g -> doc g' = doc g.
Proof.
  unfold text, doc, buffer. intros H. injection H as H1 H2 H3 H4.
  by rewrite H1, H2, H3, H4.
Qed.


(** What a poll of printable keys runs: the notification stages, then the
    printable-text loop. *)
Lemma loop_printable now p g :
  isChange p = true -> isPressed p <> 0 ->
  printable_only (keysState p) = true ->
  exists g0,
    text g0 = text g /\ ring g0 = ring g /\
    selectAll (ed g0) = selectAll (ed g) /\
    text (loop now p g) = text (fold_left typeChar (word (keysState p)) g0) /\
    ring (loop now p g) = ring (fold_left typeChar (word (keysState p)) g0) /\
    selectAll (ed (loop now p g)) =
      selectAll (ed (fold_left typeChar (word (keysState p)) g0)).
Proof.
  intros Hch Hpr Hp. unfold printable_only in Hp.
  repeat (apply andb_true_iff in Hp as [Hp ?]).
  repeat match goal with
         | H : negb _ = true |- _ => apply negb_true_iff in H
         end.
  unfold loop, pollKeyboard. rewrite Hch.
  destruct (Z.eqb_spec (isPressed p) 0); [done|]. cbn [negb].
  unfold keysDown, capsToggle.
  repeat match goal with
         | H : _ (keysState p) = false |- _ => rewrite H
         end.
  cbn [andb].
  eexists. split; [|split; [|split; [|split; [|split]]]].
  4:{ rewrite (proj1 (redrawIfNeeded_frame _ _)).
      change (text (with_needsRedraw true ?x)) with (text x).
      rewrite ensureCursorVisible_text. reflexivity. }
  4:{ rewrite (proj2 (redrawIfNeeded_frame _ _)).
      change (ring (with_needsRedraw true ?x)) with (ring x).
      by rewrite ensureCursorVisible_eq. }
  4:{ match goal with
      | |- context [redrawIfNeeded now ?x] =>
          destruct (redrawIfNeeded_eq now x) as (nt & nr & lb & ->)
      end.
      by rewrite ensureCursorVisible_eq. }
  all: destruct (alt (keysState p)), (opt (keysState p)); reflexivity.
Qed.

(** X6.  A processed poll that holds only printable keys types its word.
    With no select-all pending the characters are spliced into the cursor
    line at the cursor; with a select-all pending and at least one
    character, the document becomes the single line of those characters and
    the selection flag is cleared.  In both cases the cursor ends behind the
    typed text. *)
Theorem typing_poll (now : Z) (p : Poll) (g : Globals) :
  Inv g ->
  isChange p = true -> isPressed p <> 0 ->
  printable_only (keysState p) = true ->
  let cs := word (keysState p) in
  (selectAll (ed g) = false ->
     doc (loop now p g) =
       (<[Z.to_nat (cursorLine (ed g)) :=
            take (Z.to_nat (cursorCol (ed g))) (cur_line (ed g)) ++ cs
              ++ drop (Z.to_nat (cursorCol (ed g))) (cur_line (ed g))]>
          (buffer (ed g)),
        lineCount (ed g), cursorLine (ed g), cursorCol (ed g) + wlen cs) /\
     selectAll (ed (loop now p g)) = false) /\
  (selectAll (ed g) = true -> cs <> [] ->
     doc (loop now p g) = ([cs], 1, 0, wlen cs) /\
     selectAll (ed (loop now p g)) = false).
Proof.
  intros HI Hch Hpr Hp. cbv zeta.
  destruct (loop_printable now p g Hch Hpr Hp)
    as (g0 & Ht & Hr & Hs & Hlt & Hlr & Hls).
  assert (Inv g0) as HI0 by by apply (Inv_frame g).
  assert (forall cs g1, selectAll (ed (insertChars cs g1)) = selectAll (ed g1))
    as Hkeep.
  { induction cs as [|c cs IH]; intros g1; [done|].
    change (insertChars (c :: cs) g1) with (insertChars cs (insertChar c g1)).
    by rewrite IH, insertChar_selectAll. }
  unfold text in Ht. injection Ht as Ht1 Ht2 Ht3 Ht4.
  split.
  - intros Hsel. rewrite Hls, (doc_text _ _ Hlt).
    rewrite typeChars_plain by by rewrite Hs.
    rewrite Hkeep, Hs. split; [|done].
    rewrite insertChars_doc by done.
    unfold buffer, cur_line. by rewrite Ht1, Ht2, Ht3, Ht4.
  - intros Hsel Hne. rewrite Hls, (doc_text _ _ Hlt).
    destruct (word (keysState p)) as [|c cs]; [done|].
    rewrite typeChars_selected by by rewrite Hs.
    rewrite Hkeep. split; [|done].
    rewrite insertChars_doc by by apply cleared_Inv.
    pose proof HI0 as (Hlen & _).
    unfold buffer, cur_line; simpl.
    rewrite aget_aset_eq by (simpl; unfold MAX_LINES in *; lia).
    rewrite buffer_one_line by (unfold MAX_LINES in *; lia).
    change (Z.to_nat 0) with 0%nat. cbn [take drop app].
    rewrite app_nil_r. reflexivity.
Qed.

Lemma typing_poll_witness :
  let s :=
    mkKeysState false false true false false false false false false 2
      (list_ascii_of_string "HI") [11; 12] [129] in
  let g := insertChars (list_ascii_of_string "ab") (setup 0) in
  doc (loop 7 (mkPoll true 3 s) g) = ([list_ascii_of_string "abHI"], 1, 0, 4) /\
  doc (loop 7 (mkPoll true 3 s) (handleSelectAll 5 g))
  = ([list_ascii_of_string "HI"], 1, 0, 2).
Proof.
  cbv zeta. split.
  - destruct (typing_poll 7
      (mkPoll true 3
         (mkKeysState false false true false false false false false false 2
            (list_ascii_of_string "HI") [11; 12] [129]))
      (insertChars (list_ascii_of_string "ab") (setup 0))) as [H _];
      [apply Invb_sound; by_compute | reflexivity | discriminate
      | reflexivity |].
    destruct H as [Hd _]; [reflexivity|]. rewrite Hd. by_compute.
  - destruct (typing_poll 7
      (mkPoll true 3
         (mkKeysState false false true false false false false false false 2
            (list_ascii_of_string "HI") [11; 12] [129]))
      (handleSelectAll 5 (insertChars (list_ascii_of_string "ab") (setup 0))))
      as [_ H];
      [apply Invb_sound; by_compute | reflexivity | discriminate
      | reflexivity |].
    destruct H as [Hd _]; [reflexivity | discriminate |]. exact Hd.
Defined.

(** * Edits and their inverses *)

Lemma buffer_lookup g i :
  Inv g -> 0 <= i < lineCount (ed g) ->
  buffer (ed g) !! Z.to_nat i = Some (aget [] (lines (ed g)) i).
Proof.
  intros (Hlen & (Hn & _) & _) Hi. unfold buffer.
  rewrite lookup_take_lt by lia. rewrite aget_Z by lia.
  destruct (lookup_lt_is_Some_2 (lines (ed g)) (Z.to_nat i)) as [x Hx];
    [unfold MAX_LINES in *; lia|].
  by rewrite Hx.
Qed.

Lemma aget_of_buffer g i x :
  Inv g -> 0 <= i < lineCount (ed g) ->
  buffer (ed g) !! Z.to_nat i = Some x -> aget [] (lines (ed g)) i = x.
Proof. intros HI Hi Hx. rewrite buffer_lookup in Hx by done. congruence. Qed.

Lemma buffer_length g :
  Inv g -> length (buffer (ed g)) = Z.to_nat (lineCount (ed g)).
Proof.
  intros (Hlen & (Hn & _) & _). unfold buffer.
  rewrite length_take. unfold MAX_LINES in *. lia.
Qed.

Lemma doc_fields g b n l c :
  doc g = (b, n, l, c) ->
  buffer (ed g) = b /\ lineCount (ed g) = n /\ cursorLine (ed g) = l
  /\ cursorCol (ed g) = c.
Proof. unfold doc. intros H. by injection H. Qed.

Lemma doc_cursorLeft_col g :
  0 < cursorCol (ed g) ->
  doc (cursorLeft g) =
    (buffer (ed g), lineCount (ed g), cursorLine (ed g), cursorCol (ed g) - 1).
Proof.
  intros Hc. unfold cursorLeft.
  destruct (Z.gtb_spec (cursorCol (ed g)) 0); [done | lia].
Qed.

Lemma doc_cursorLeft_line g :
  cursorCol (ed g) = 0 -> 0 < cursorLine (ed g) ->
  doc (cursorLeft g) =
    (buffer (ed g), lineCount (ed g), cursorLine (ed g) - 1,
     wlen (aget [] (lines (ed g)) (cursorLine (ed g) - 1))).
Proof.
  intros Hc Hl. unfold cursorLeft.
  destruct (Z.gtb_spec (cursorCol (ed g)) 0); [lia|].
  destruct (Z.gtb_spec (cursorLine (ed g)) 0); [done | lia].
Qed.

Lemma doc_handleBackspace_char g :
  Inv g -> 0 < cursorCol (ed g) ->
  doc (handleBackspace g) =
    (<[Z.to_nat (cursorLine (ed g)) :=
         take (Z.to_nat (cursorCol (ed g) - 1)) (cur_line (ed g))
           ++ drop (Z.to_nat (cursorCol (ed g))) (cur_line (ed g))]>
       (buffer (ed g)),
     lineCount (ed g), cursorLine (ed g), cursorCol (ed g) - 1).
Proof.
  intros HI Hpos. unfold doc.
  rewrite handleBackspace_char_buffer by done.
  rewrite handleBackspace_char by (done || apply HI). done.
Qed.

Lemma doc_handleBackspace_join g :
  Inv g -> cursorCol (ed g) = 0 -> 0 < cursorLine (ed g) ->
  doc (handleBackspace g) =
    (delete (Z.to_nat (cursorLine (ed g)))
       (<[Z.to_nat (cursorLine (ed g) - 1) :=
            aget [] (lines (ed g)) (cursorLine (ed g) - 1)
              ++ cur_line (ed g)]> (buffer (ed g))),
     lineCount (ed g) - 1, cursorLine (ed g) - 1,
     wlen (aget [] (lines (ed g)) (cursorLine (ed g) - 1))).
Proof.
  intros HI Hc Hl. unfold doc.
  rewrite handleBackspace_join_buffer by done.
  rewrite handleBackspace_join by lia. done.
Qed.

Lemma doc_handleForwardDelete_char g :
  Inv g -> cursorCol (ed g) < wlen (cur_line (ed g)) ->
  doc (handleForwardDelete g) =
    (<[Z.to_nat (cursorLine (ed g)) :=
         take (Z.to_nat (cursorCol (ed g))) (cur_line (ed g))
           ++ drop (Z.to_nat (cursorCol (ed g) + 1)) (cur_line (ed g))]>
       (buffer (ed g)),
     lineCount (ed g), cursorLine (ed g), cursorCol (ed g)).
Proof.
  intros HI Hlt. pose proof HI as (_ & Hcur & _).
  rewrite handleForwardDelete_char by done. unfold doc.
  change (ed (with_ed ?x _)) with x.
  rewrite buffer_set_cur_line by apply Hcur. done.
Qed.

Lemma doc_handleForwardDelete_join g :
  Inv g -> cursorCol (ed g) = wlen (cur_line (ed g)) ->
  cursorLine (ed g) < lineCount (ed g) - 1 ->
  doc (handleForwardDelete g) =
    (delete (Z.to_nat (cursorLine (ed g) + 1))
       (<[Z.to_nat (cursorLine (ed g)) :=
            cur_line (ed g) ++ aget [] (lines (ed g)) (cursorLine (ed g) + 1)]>
          (buffer (ed g))),
     lineCount (ed g) - 1, cursorLine (ed g), cursorCol (ed g)).
Proof.
  intros HI Hend Hnext. pose proof HI as (Hlen & (Hn & Hl & _) & _).
  rewrite handleForwardDelete_join by lia. unfold doc.
  change (ed (with_ed ?x _)) with x.
  unfold buffer, joined_forward; simpl.
  rewrite buffer_joined by (unfold MAX_LINES in *; lia).
  by rewrite Z.add_simpl_r.
Qed.

Lemma doc_handleEnter g :
  Inv g -> lineCount (ed g) < MAX_LINES ->
  doc (handleEnter g) =
    (take (Z.to_nat (cursorLine (ed g))) (buffer (ed g))
       ++ [take (Z.to_nat (cursorCol (ed g))) (cur_line (ed g));
           drop (Z.to_nat (cursorCol (ed g))) (cur_line (ed g))]
       ++ drop (Z.to_nat (cursorLine (ed g) + 1)) (buffer (ed g)),
     lineCount (ed g) + 1, cursorLine (ed g) + 1, 0).
Proof.
  intros HI Hroom. unfold doc.
  rewrite handleEnter_split_buffer by done.
  rewrite handleEnter_split by (done || apply HI). done.
Qed.

(** Joining the two halves of a split line gives the buffer back. *)
Lemma join_of_split (buf : list WString) (l : nat) (line a b : WString) :
  buf !! l = Some line -> a ++ b = line ->
  delete (S l) (<[l := a ++ b]> (take l buf ++ [a; b] ++ drop (S l) buf))
  = buf.
Proof.
  intros Hl Hab. pose proof (lookup_lt_Some _ _ _ Hl) as Hlt.
  assert (length (take l buf) = l) as Htl by (rewrite length_take; lia).
  rewrite Hab.
  replace (<[l := line]> (take l buf ++ [a; b] ++ drop (S l) buf))
    with (take l buf ++ [line; b] ++ drop (S l) buf).
  2:{ symmetry. rewrite <- (Nat.add_0_r l) at 1. rewrite <- Htl at 1.
      by rewrite insert_app_r. }
  change (take l buf ++ [line; b] ++ drop (S l) buf)
    with (take l buf ++ [line] ++ b :: drop (S l) buf).
  rewrite app_assoc.
  replace (S l) with (length (take l buf ++ [line])) at 1
    by (rewrite length_app; simpl; lia).
  rewrite delete_middle, <- app_assoc. by apply take_drop_middle.
Qed.

(** X7.  Backspace, and Left followed by forward delete, take back an
    insertion, and, when there was room for one more line, an Enter: lines,
    line count and cursor are as before the edit. *)
Theorem edits_are_taken_back (g : Globals) (c : ascii) :
  Inv g ->
  doc (handleBackspace (insertChar c g)) = doc g /\
  doc (handleForwardDelete (cursorLeft (insertChar c g))) = doc g /\
  (lineCount (ed g) < MAX_LINES ->
     doc (handleBackspace (handleEnter g)) = doc g /\
     doc (handleForwardDelete (cursorLeft (handleEnter g))) = doc g).
Proof.
  intros HI. pose proof HI as (Hlen & Hcur & _).
  pose proof Hcur as (Hn & Hl & Hc). fold (cur_line (ed g)) in Hc.
  pose proof (buffer_lookup g _ HI Hl) as Hline.
  fold (cur_line (ed g)) in Hline.
  assert (length (take (Z.to_nat (cursorCol (ed g))) (cur_line (ed g)))
          = Z.to_nat (cursorCol (ed g))) as Htl
    by (rewrite length_take; unfold wlen in *; lia).
  (* after the insertion *)
  pose proof (insertChar_Inv c g HI) as HI1.
  destruct (doc_insertChar c g HI) as (Hb1 & Hn1 & Hl1 & Hc1).
  pose proof (cur_line_insertChar c g HI) as Hcl1.
  assert (forall k : nat, k = Z.to_nat (cursorCol (ed g)) ->
            take k (cur_line (ed (insertChar c g)))
              ++ drop (S k) (cur_line (ed (insertChar c g)))
            = cur_line (ed g)) as Hdel.
  { intros k ->. rewrite Hcl1.
    rewrite take_app_length' by done.
    change (?p ++ c :: ?q) with (p ++ [c] ++ q). rewrite app_assoc.
    rewrite drop_app_length' by (rewrite length_app; simpl; lia).
    apply take_drop. }
  split; [|split].
  - rewrite doc_handleBackspace_char by (done || lia).
    rewrite Hb1, Hn1, Hl1, Hc1, Z.add_simpl_r.
    replace (Z.to_nat (cursorCol (ed g) + 1))
      with (S (Z.to_nat (cursorCol (ed g)))) by lia.
    rewrite Hdel by done.
    rewrite list_insert_insert_eq, list_insert_id by done. done.
  - assert (Inv (cursorLeft (insertChar c g))) as HI2
      by by apply cursorLeft_Inv.
    pose proof (doc_cursorLeft_col (insertChar c g)) as Hd2.
    rewrite Hc1 in Hd2. specialize (Hd2 ltac:(lia)).
    destruct (doc_fields _ _ _ _ _ Hd2) as (Hb2 & Hn2 & Hl2 & Hc2).
    assert (cur_line (ed (cursorLeft (insertChar c g)))
            = cur_line (ed (insertChar c g))) as Hcl2.
    { unfold cur_line at 1.
      apply (aget_of_buffer _ _ _ HI2); [lia|].
      rewrite Hl2, Hb2. unfold cur_line. apply buffer_lookup; [done | lia]. }
    rewrite doc_handleForwardDelete_char; [|done|].
    2:{ rewrite Hcl2, Hc2, Hcl1, wlen_take_drop by lia. lia. }
    rewrite Hb2, Hn2, Hl2, Hc2, Hcl2, Hb1, Hn1, Hl1, Z.add_simpl_r.
    replace (Z.to_nat (cursorCol (ed g) + 1))
      with (S (Z.to_nat (cursorCol (ed g)))) by lia.
    rewrite Hdel by done.
    rewrite list_insert_insert_eq, list_insert_id by done. done.
  - intros Hroom.
    pose proof (handleEnter_Inv g HI) as HI1'.
    pose proof (doc_handleEnter g HI Hroom) as Hd.
    destruct (doc_fields _ _ _ _ _ Hd) as (Hb & Hn' & Hl' & Hc').
    assert (length (take (Z.to_nat (cursorLine (ed g))) (buffer (ed g)))
            = Z.to_nat (cursorLine (ed g))) as Htb
      by (rewrite length_take, buffer_length by done; lia).
    assert (aget [] (lines (ed (handleEnter g))) (cursorLine (ed g))
            = take (Z.to_nat (cursorCol (ed g))) (cur_line (ed g))) as Hbefore.
    { apply (aget_of_buffer _ _ _ HI1'); [lia|]. rewrite Hb.
      rewrite lookup_app_r by lia. rewrite Htb, Nat.sub_diag. done. }
    assert (aget [] (lines (ed (handleEnter g))) (cursorLine (ed g) + 1)
            = drop (Z.to_nat (cursorCol (ed g))) (cur_line (ed g))) as Hafter.
    { apply (aget_of_buffer _ _ _ HI1'); [lia|]. rewrite Hb.
      rewrite lookup_app_r by lia. rewrite Htb.
      replace (Z.to_nat (cursorLine (ed g) + 1) - Z.to_nat (cursorLine (ed g)))%nat
        with 1%nat by lia. done. }
    assert (wlen (take (Z.to_nat (cursorCol (ed g))) (cur_line (ed g)))
            = cursorCol (ed g)) as Hwl by (unfold wlen; lia).
    split.
    + rewrite doc_handleBackspace_join by (done || lia).
      unfold cur_line at 1.
      rewrite Hb, Hn', Hl', !Z.add_simpl_r, Hbefore, Hafter, Hwl.
      replace (Z.to_nat (cursorLine (ed g) + 1))
        with (S (Z.to_nat (cursorLine (ed g)))) by lia.
      rewrite (join_of_split _ _ (cur_line (ed g))); [done..|].
      apply take_drop.
    + assert (Inv (cursorLeft (handleEnter g))) as HI2
        by by apply cursorLeft_Inv.
      pose proof (doc_cursorLeft_line (handleEnter g) Hc' ltac:(lia)) as Hd2.
      rewrite Hl', Z.add_simpl_r, Hbefore, Hwl in Hd2.
      destruct (doc_fields _ _ _ _ _ Hd2) as (Hb2 & Hn2 & Hl2 & Hc2).
      assert (forall i, 0 <= i < lineCount (ed g) + 1 ->
                aget [] (lines (ed (cursorLeft (handleEnter g)))) i
                = aget [] (lines (ed (handleEnter g))) i) as Hsame.
      { intros i Hi. apply (aget_of_buffer _ _ _ HI2); [lia|].
        rewrite Hb2. apply buffer_lookup; [done | lia]. }
      rewrite doc_handleForwardDelete_join; [|done|..].
      2:{ unfold cur_line. rewrite Hl2, Hc2, Hsame, Hbefore by lia. lia. }
      2:{ lia. }
      unfold cur_line at 1.
      rewrite Hl2, Hc2, Hn2, Hb2, !Hsame, Hbefore, Hafter, Hb, Hn' by lia.
      rewrite Z.add_simpl_r.
      replace (Z.to_nat (cursorLine (ed g) + 1))
        with (S (Z.to_nat (cursorLine (ed g)))) by lia.
      rewrite (join_of_split _ _ (cur_line (ed g))); [done..|].
      apply take_drop.
Qed.

Lemma edits_are_taken_back_witness :
  let g := cursorLeft (insertChars (list_ascii_of_string "ab") (setup 0)) in
  doc g = ([list_ascii_of_string "ab"], 1, 0, 1) /\
  doc (handleEnter g) = ([["a"%char]; ["b"%char]], 2, 1, 0) /\
  doc (handleBackspace (handleEnter g)) = doc g /\
  doc (handleForwardDelete (cursorLeft (insertChar "x" g))) = doc g.
Proof.
  cbv zeta.
  destruct (edits_are_taken_back
              (cursorLeft (insertChars (list_ascii_of_string "ab") (setup 0)))
              "x"%char)
    as (_ & Hfd & Hen); [apply Invb_sound; by_compute|].
  destruct Hen as [Hbs _]; [by_compute|].
  split; [by_compute|]. split; [by_compute|]. by split.
Defined.

(** * Cursor movement *)

(** X8.  Away from the two ends of the document, Left and Right are inverse
    to each other, line wraps included: the globals are the same after
    Right then Left, and after Left then Right.  At the end of the last line
    Right does nothing, at the origin Left does nothing. *)
Theorem left_right_inverse (g : Globals) :
  Inv g ->
  let e := ed g in
  (cursorCol e < wlen (cur_line e) \/ cursorLine e < lineCount e - 1 ->
     cursorLeft (cursorRight g) = g) /\
  (0 < cursorCol e \/ 0 < cursorLine e ->
     cursorRight (cursorLeft g) = g) /\
  (cursorCol e = wlen (cur_line e) -> cursorLine e = lineCount e - 1 ->
     cursorRight g = g) /\
  (cursorCol e = 0 -> cursorLine e = 0 -> cursorLeft g = g).
Proof.
  intros (_ & (Hn & Hl & Hc) & _).
  destruct g as [[ls n l c sy sx cp sel sh nt ntt] st hd cnt pf ps nr kb lb].
  cbn [ed lines lineCount cursorLine cursorCol] in *.
  unfold cursorLeft, cursorRight, upd_ed, with_ed, with_cursorCol,
    with_cursorLine, cur_line; cbn.
  repeat split.
  - intros Hnot. destruct (Z.ltb_spec c (wlen (aget [] ls l))); cbn.
    + destruct (Z.gtb_spec (c + 1) 0); [|lia]. do 2 f_equal. lia.
    + destruct (Z.ltb_spec l (n - 1)); [|lia]. cbn.
      destruct (Z.gtb_spec (l + 1) 0); [|lia].
      rewrite Z.add_simpl_r. do 2 f_equal. lia.
  - intros Hnot. destruct (Z.gtb_spec c 0); cbn.
    + destruct (Z.ltb_spec (c - 1) (wlen (aget [] ls l))); [|lia].
      do 2 f_equal. lia.
    + destruct (Z.gtb_spec l 0); [|lia]. cbn.
      rewrite Z.ltb_irrefl.
      destruct (Z.ltb_spec (l - 1) (n - 1)); [|lia].
      do 2 f_equal; lia.
  - intros Hend Hlast.
    destruct (Z.ltb_spec c (wlen (aget [] ls l))); [lia|].
    destruct (Z.ltb_spec l (n - 1)); [lia | done].
  - intros Hc0 Hl0.
    destruct (Z.gtb_spec c 0); [lia|].
    destruct (Z.gtb_spec l 0); [lia | done].
Qed.

Lemma left_right_inverse_witness :
  let g := handleEnter (insertChars (list_ascii_of_string "ab") (setup 0)) in
  doc g = ([list_ascii_of_string "ab"; []], 2, 1, 0) /\
  doc (cursorLeft g) = ([list_ascii_of_string "ab"; []], 2, 0, 2) /\
  cursorRight (cursorLeft g) = g /\
  cursorRight g = g.
Proof.
  cbv zeta.
  destruct (left_right_inverse
              (handleEnter (insertChars (list_ascii_of_string "ab") (setup 0))))
    as (_ & Hrl & Hend & _); [apply Invb_sound; by_compute|].
  split; [by_compute|]. split; [by_compute|]. split.
  - apply Hrl. right. by_compute.
  - apply Hend; by_compute.
Defined.

(** X9.  Up and Down keep the column where the destination line is long
    enough and clamp it to that line's length otherwise; nothing but the
    cursor changes.  Coming back with the opposite key returns to the line
    the cursor left, at the clamped column.  On the first line Up does
    nothing, on the last line Down does nothing. *)
Theorem up_down_clamp (g : Globals) :
  Inv g ->
  let e := ed g in
  let len i := wlen (aget [] (lines e) i) in
  (cursorLine e < lineCount e - 1 ->
     let c' := Z.min (cursorCol e) (len (cursorLine e + 1)) in
     cursorDown g =
       with_ed (with_cursorCol c' (with_cursorLine (cursorLine e + 1) e)) g /\
     cursorUp (cursorDown g) = with_ed (with_cursorCol c' e) g) /\
  (0 < cursorLine e ->
     let c' := Z.min (cursorCol e) (len (cursorLine e - 1)) in
     cursorUp g =
       with_ed (with_cursorCol c' (with_cursorLine (cursorLine e - 1) e)) g /\
     cursorDown (cursorUp g) = with_ed (with_cursorCol c' e) g) /\
  (cursorLine e = lineCount e - 1 -> cursorDown g = g) /\
  (cursorLine e = 0 -> cursorUp g = g).
Proof.
  intros (_ & (Hn & Hl & Hc) & _).
  destruct g as [[ls n l c sy sx cp sel sh nt ntt] st hd cnt pf ps nr kb lb].
  cbn [ed lines lineCount cursorLine cursorCol] in *.
  unfold cursorUp, cursorDown, clampCol, upd_ed, with_ed, with_cursorCol,
    with_cursorLine, cur_line; cbn.
  repeat split.
  - destruct (Z.ltb_spec l (n - 1)); [|lia].
    destruct (Z.gtb_spec c (wlen (aget [] ls (l + 1)))); cbn;
      do 2 f_equal; lia.
  - destruct (Z.ltb_spec l (n - 1)); [|lia].
    destruct (Z.gtb_spec c (wlen (aget [] ls (l + 1)))); cbn;
      (destruct (Z.gtb_spec (l + 1) 0); [|lia]); cbn;
      rewrite Z.add_simpl_r;
      match goal with
      | |- context [?a >? ?b] => destruct (Z.gtb_spec a b); [lia|]
      end; do 2 f_equal; lia.
  - destruct (Z.gtb_spec l 0); [|lia].
    destruct (Z.gtb_spec c (wlen (aget [] ls (l - 1)))); cbn;
      do 2 f_equal; lia.
  - destruct (Z.gtb_spec l 0); [|lia].
    destruct (Z.gtb_spec c (wlen (aget [] ls (l - 1)))); cbn;
      (destruct (Z.ltb_spec (l - 1) (n - 1)); [|lia]); cbn;
      rewrite Z.sub_simpl_r;
      match goal with
      | |- context [?a >? ?b] => destruct (Z.gtb_spec a b); [lia|]
      end; do 2 f_equal; lia.
  - intros Hlast. destruct (Z.ltb_spec l (n - 1)); [lia | done].
  - intros Hfirst. destruct (Z.gtb_spec l 0); [lia | done].
Qed.

Lemma up_down_clamp_witness :
  let g :=
    insertChars (list_ascii_of_string "abc")
      (handleEnter (insertChar "x" (setup 0))) in
  doc g = ([["x"%char]; list_ascii_of_string "abc"], 2, 1, 3) /\
  doc (cursorUp g) = ([["x"%char]; list_ascii_of_string "abc"], 2, 0, 1) /\
  doc (cursorDown (cursorUp g))
  = ([["x"%char]; list_ascii_of_string "abc"], 2, 1, 1) /\
  cursorDown g = g.
Proof.
  cbv zeta.
  destruct (up_down_clamp
              (insertChars (list_ascii_of_string "abc")
                 (handleEnter (insertChar "x" (setup 0)))))
    as (_ & Hup & Hlast & _); [apply Invb_sound; by_compute|].
  destruct Hup as [Hu Hdu]; [by_compute|].
  split; [by_compute|]. split; [|split].
  - rewrite Hu. by_compute.
  - rewrite Hdu. by_compute.
  - apply Hlast. by_compute.
Defined.

(** * The window and the canvas *)

Lemma in_window_view g g' : view g' = view g -> in_window (ed g') -> in_window (ed g).
Proof.
  unfold view, in_window. intros H. injection H as H1 H2 H3 H4 H5.
  by rewrite H1, H2, H3, H4, H5.
Qed.

Ltac no_if t :=
  lazymatch t with
  | context [if _ then _ else _] => fail
  | _ => idtac
  end.

Ltac window_cases :=
  repeat (match goal with
          | |- context [?a <? ?b] =>
              no_if a; no_if b; destruct (Z.ltb_spec a b)
          | |- context [?a >=? ?b] =>
              no_if a; no_if b; destruct (Z.geb_spec a b)
          end; cbv beta iota).

Ltac window_fields :=
  cbn [ed with_ed with_scrollX with_scrollY cursorLine cursorCol scrollY
       scrollX showLineNumbers].

Lemma ensureCursorVisible_window g : in_window (ed (ensureCursorVisible g)).
Proof.
  rewrite ensureCursorVisible_eq.
  unfold in_window, VISIBLE_LINES, CHARS_PER_LINE. window_fields.
  destruct (showLineNumbers (ed g)); window_cases; lia.
Qed.

Lemma ensureCursorVisible_id g :
  in_window (ed g) -> ensureCursorVisible g = g.
Proof.
  rewrite ensureCursorVisible_eq.
  unfold in_window, VISIBLE_LINES, CHARS_PER_LINE. intros [Hy Hx].
  destruct (Z.ltb_spec (cursorLine (ed g)) (scrollY (ed g))); [lia|].
  destruct (Z.geb_spec (cursorLine (ed g)) (scrollY (ed g) + 13)); [lia|].
  destruct (Z.ltb_spec (cursorCol (ed g)) (scrollX (ed g))); [lia|].
  match goal with
  | |- context [?a >=? ?b] => destruct (Z.geb_spec a b); [lia|]
  end.
  by destruct g as [[] ?].
Qed.

Lemma ensureCursorVisible_scroll g :
  0 <= cursorLine (ed g) -> 0 <= cursorCol (ed g) ->
  0 <= scrollY (ed g) -> 0 <= scrollX (ed g) ->
  0 <= scrollY (ed (ensureCursorVisible g)) /\
  0 <= scrollX (ed (ensureCursorVisible g)).
Proof.
  rewrite ensureCursorVisible_eq. intros Hl Hc Hy Hx.
  unfold VISIBLE_LINES, CHARS_PER_LINE. window_fields.
  destruct (showLineNumbers (ed g)); window_cases; lia.
Qed.

(** The rows of the loop: row [i] is drawn when every row up to it passes
    the loop test. *)
Lemma draw_rows_In now e cmd i : forall n j,
  j <= i < j + Z.of_nat n ->
  i < VISIBLE_LINES -> i + scrollY e < lineCount e ->
  In cmd (draw_row now e i) -> In cmd (draw_rows n j now e).
Proof.
  induction n as [|n IH]; intros j Hj Hv Hc Hin; [lia|].
  cbn [draw_rows].
  destruct (Z.ltb_spec j VISIBLE_LINES); [|lia].
  destruct (Z.ltb_spec (j + scrollY e) (lineCount e)); [|lia].
  cbn [andb]. apply in_or_app.
  destruct (Z.eq_dec i j) as [->|Hne]; [by left|].
  right. apply IH; [lia | done..].
Qed.

Lemma redrawIfNeeded_view now g : view (redrawIfNeeded now g) = view g.
Proof. by destruct (redrawIfNeeded_eq now g) as (nt & nr & lb & ->). Qed.

(** X10.  [ensureCursorVisible] always brings the cursor into the window of
    13 lines and 38 columns (34 with line numbers), and returns the globals
    as they were when the cursor already was there; it keeps non-negative
    scroll offsets non-negative.  In that window [drawEditor], in the half
    second in which the cursor is shown, draws the cursor bar: on the row of
    the cursor line, right of the margin and left of the canvas edge.  Every
    processed poll outside the Ctrl layer ends with the cursor in the
    window. *)
Theorem cursor_stays_on_screen (now : Z) (p : Poll) (g : Globals) :
  Inv g ->
  let e := ed (ensureCursorVisible g) in
  let x := (if showLineNumbers e then 24 else 0)
           + (cursorCol e - scrollX e) * 6 in
  let y := 1 + (cursorLine e - scrollY e) * 9 in
  in_window e /\
  (in_window (ed g) -> ensureCursorVisible g = g) /\
  (0 <= scrollY (ed g) -> 0 <= scrollX (ed g) ->
     0 <= scrollY e /\ 0 <= scrollX e) /\
  ((now / 500) mod 2 = 0 ->
     In (drawLine x y x (y + 8) TFT_WHITE) (drawEditor_canvas now e) /\
     0 <= x < 240 /\ 1 <= y <= 109) /\
  (scrolling_poll p = true -> in_window (ed (loop now p g))).
Proof.
  intros HI. cbv zeta.
  pose proof (ensureCursorVisible_Inv g HI) as (_ & (Hn & Hl & Hc) & _).
  pose proof HI as (_ & (_ & Hl0 & Hc0) & _).
  pose proof (ensureCursorVisible_window g) as Hw.
  split; [done|]. split; [apply ensureCursorVisible_id|].
  split; [apply ensureCursorVisible_scroll; lia|]. split.
  - intros Hblink. pose proof Hw as [Hy Hx].
    set (e := ed (ensureCursorVisible g)) in *.
    unfold VISIBLE_LINES, CHARS_PER_LINE in *.
    split; [|destruct (showLineNumbers e); lia].
    unfold drawEditor_canvas. apply in_or_app. right.
    apply in_or_app. left.
    apply (draw_rows_In _ _ _ (cursorLine e - scrollY e));
      [unfold VISIBLE_LINES; lia | unfold VISIBLE_LINES; lia | lia |].
    unfold draw_row. apply in_or_app. right. apply in_or_app. right.
    replace (cursorLine e - scrollY e + scrollY e) with (cursorLine e) by lia.
    rewrite Z.eqb_refl, Hblink. cbn [Z.eqb].
    match goal with
    | |- context [(?a >=? ?b) && (?c <? ?d)] =>
        destruct (Z.geb_spec a b); [|lia];
        destruct (Z.ltb_spec c d); [|destruct (showLineNumbers e); lia]
    end.
    cbn [andb]. left. do 2 f_equal. lia.
  - intros Hp. unfold scrolling_poll in Hp.
    apply andb_true_iff in Hp as [Hp Hlayer].
    apply andb_true_iff in Hp as [Hch Hpr].
    unfold loop, pollKeyboard. rewrite Hch, Hpr.
    apply (in_window_view _ _ (eq_sym (redrawIfNeeded_view _ _))).
    rewrite keysDown_actions. unfold finishPoll.
    destruct (fn (keysState p)); [apply ensureCursorVisible_window|].
    destruct (ctrl (keysState p)); [done|].
    apply ensureCursorVisible_window.
Qed.

Lemma cursor_stays_on_screen_witness :
  let p :=
    mkPoll true 1
      (mkKeysState false false false false false false false true false 0
         [] [40] []) in
  let g := Nat.iter 13 (handleEnter) (setup 0) in
  cursorLine (ed g) = 13 /\ scrollY (ed g) = 0 /\
  scrollY (ed (ensureCursorVisible g)) = 1 /\
  In (drawLine 0 109 0 117 TFT_WHITE)
     (drawEditor_canvas 1000 (ed (ensureCursorVisible g))) /\
  in_window (ed (loop 1000 p g)).
Proof.
  cbv zeta.
  destruct (cursor_stays_on_screen 1000
    (mkPoll true 1
       (mkKeysState false false false false false false false true false 0
          [] [40] []))
    (Nat.iter 13 (handleEnter) (setup 0)))
    as (_ & _ & _ & Hdraw & Hpoll); [apply Invb_sound; by_compute|].
  split; [by_compute|]. split; [by_compute|]. split; [by_compute|].
  split.
  - destruct Hdraw as [Hin _]; [by_compute|]. exact Hin.
  - apply Hpoll. reflexivity.
Defined.

(** ** Rows *)

Lemma substring_length (s : WString) a b :
  0 <= a <= b -> wlen (substring s a b) <= b - a.
Proof.
  intros Hab. unfold substring.
  destruct (Z.gtb_spec a b); [lia|].
  destruct (Z.geb_spec a (wlen s)); [unfold wlen; simpl; lia|].
  destruct (Z.gtb_spec b (wlen s)); unfold wlen in *;
    rewrite length_take, length_drop; lia.
Qed.

Lemma fmt_3d_length num : wlen (fmt_3d num) <= 4.
Proof. unfold fmt_3d, wlen. rewrite length_take. lia. Qed.

(** Where a drawing call of the rows comes from: the rows are those of the
    screen rows before, the row [i] that issues the call, and the rows
    after. *)
Lemma draw_rows_split now e cmd : forall n j,
  In cmd (draw_rows n j now e) ->
  exists i pre post,
    j <= i < j + Z.of_nat n /\ i < VISIBLE_LINES /\
    draw_rows n j now e = pre ++ draw_row now e i ++ post /\
    In cmd (draw_row now e i).
Proof.
  induction n as [|n IH]; intros j Hin; [done|].
  cbn [draw_rows] in *.
  destruct (Z.ltb_spec j VISIBLE_LINES); [|done].
  destruct (Z.ltb_spec (j + scrollY e) (lineCount e)); [|done].
  cbn [andb] in *. apply in_app_or in Hin as [Hin|Hin].
  - exists j, [], (draw_rows n (j + 1) now e).
    split; [lia|]. split; [done|]. split; [done|]. done.
  - destruct (IH _ Hin) as (i & pre & post & Hi & Hv & Heq & Hrow).
    exists i, (draw_row now e j ++ pre), post.
    split; [lia|]. split; [done|]. split; [|done].
    by rewrite Heq, <- app_assoc.
Qed.

(** The text of a row: with a selection, the bar and then the text on it. *)
Lemma draw_row_text now e i :
  let leftMargin := if showLineNumbers e then 24 else 0 in
  let y := 1 + i * 9 in
  let line := aget [] (lines e) (i + scrollY e) in
  let visible :=
    substring line (unsigned_of_int (scrollX e))
      (unsigned_of_int (scrollX e + Z.quot (240 - leftMargin) 6)) in
  exists number cursor,
    draw_row now e i =
      number
      ++ (if scrollX e <? wlen line then
            (if selectAll e
             then [fillRect leftMargin y (wlen visible * 6) 9 TFT_BLUE]
             else [])
            ++ [drawString visible leftMargin y
                  (if selectAll e then TFT_BLACK else TFT_GREEN) TL_DATUM]
          else [])
      ++ cursor /\
    (forall c, In c number ->
       showLineNumbers e = true /\
       c = drawString (fmt_3d (i + scrollY e + 1)) 0 y TFT_DARKGREY TL_DATUM) /\
    (forall c, In c cursor ->
       exists x, c = drawLine x y x (y + 8) TFT_WHITE /\ leftMargin <= x < 240).
Proof.
  cbv zeta. unfold draw_row. cbv zeta.
  eexists _, _. split; [reflexivity|]. split.
  - intros c Hc. destruct (showLineNumbers e); [|done].
    by destruct Hc as [<-|[]].
  - intros c Hc. destruct (i + scrollY e =? cursorLine e); [|done].
    revert Hc.
    match goal with
    | |- context [(?a >=? ?b) && (?c <? ?d)] =>
        destruct (Z.geb_spec a b); [|done];
        destruct (Z.ltb_spec c d); [|done]
    end.
    cbn [andb]. destruct (_ =? 0); [|done]. intros [<-|[]].
    eexists. split; [|done]. f_equal. lia.
Qed.

(** X11.  The text rows of [drawEditor] stay on the canvas and clear of the
    status bar, whatever the lines hold, once the horizontal scroll offset
    is not negative: a line number ends within the 24-pixel margin; a line's
    text starts at the margin and ends at or before the right edge at 240,
    black when a select-all is pending and green otherwise; a selection bar
    is drawn only with a select-all pending, directly before the text of its
    row, at the place of that text, nine pixels high and as wide as that
    text, and every text drawn with a select-all pending has this bar; the
    cursor bar is vertical and left of the edge; and every row ends above
    y = 118, where the status bar starts at 125. *)
Theorem rows_stay_on_canvas (now : Z) (e : EditorState) (cmd : Draw) :
  0 <= scrollX e ->
  In cmd (draw_rows (Z.to_nat VISIBLE_LINES) 0 now e) ->
  let leftMargin := if showLineNumbers e then 24 else 0 in
  let rows := draw_rows (Z.to_nat VISIBLE_LINES) 0 now e in
  match cmd with
  | drawString s x y TFT_DARKGREY _ =>
      showLineNumbers e = true /\ x = 0 /\ wlen s * 6 <= leftMargin /\
      1 <= y /\ y + 9 <= 118
  | drawString s x y c d =>
      x = leftMargin /\ x + wlen s * 6 <= 240 /\ 1 <= y /\ y + 9 <= 118 /\
      c = (if selectAll e then TFT_BLACK else TFT_GREEN) /\
      (selectAll e = true ->
         exists pre post,
           rows = pre ++ [fillRect x y (wlen s * 6) 9 TFT_BLUE; cmd] ++ post)
  | fillRect x y w h c =>
      selectAll e = true /\
      x = leftMargin /\ 0 <= w /\ x + w <= 240 /\ 1 <= y /\ y + h <= 118 /\
      h = 9 /\ c = TFT_BLUE /\
      exists s pre post,
        w = wlen s * 6 /\
        rows = pre ++ [cmd; drawString s x y TFT_BLACK TL_DATUM] ++ post
  | drawLine x0 y0 x1 y1 _ =>
      leftMargin <= x0 < 240 /\ x1 = x0 /\ 1 <= y0 <= y1 /\ y1 < 118
  | fillScreen _ | pushSprite _ _ => False
  end.
Proof.
  intros Hsx Hin. cbv zeta.
  apply draw_rows_split in Hin as (i & pre & post & Hi & Hv & Hrows & Hin).
  unfold VISIBLE_LINES in Hi, Hv. cbn in Hi.
  assert (0 <= i <= 12) as Hi' by lia. clear Hi Hv.
  destruct (draw_row_text now e i) as (number & cursor & Hrow & Hnum & Hcur).
  cbv zeta in Hrow, Hnum, Hcur.
  rewrite Hrow in Hin, Hrows. clear Hrow.
  set (leftMargin := if showLineNumbers e then 24 else 0) in *.
  set (visible :=
         substring (aget [] (lines e) (i + scrollY e))
           (unsigned_of_int (scrollX e))
           (unsigned_of_int (scrollX e + Z.quot (240 - leftMargin) 6))) in *.
  assert (0 <= wlen visible /\ leftMargin + wlen visible * 6 <= 240)
    as [Hv0 Hv1].
  { split; [apply wlen_nonneg|].
    assert (0 <= Z.quot (240 - leftMargin) 6 /\
            Z.quot (240 - leftMargin) 6 * 6 + leftMargin = 240) as [Hq Hfit]
      by (unfold leftMargin; by destruct (showLineNumbers e)).
    assert (wlen visible <= Z.quot (240 - leftMargin) 6); [|lia].
    unfold visible. rewrite !unsigned_of_int_nonneg by lia.
    etrans; [apply substring_length; lia | lia]. }
  apply in_app_or in Hin as [Hin|Hin]; [|apply in_app_or in Hin as [Hin|Hin]].
  - destruct (Hnum _ Hin) as [Hln ->].
    pose proof (fmt_3d_length (i + scrollY e + 1)).
    unfold leftMargin. rewrite Hln. lia.
  - revert Hin Hrows.
    destruct (scrollX e <? wlen (aget [] (lines e) (i + scrollY e))); [|done].
    destruct (selectAll e).
    + cbn [app]. intros [<-|[<-|[]]] Hrows.
      * repeat (split; [done || lia|]).
        exists visible, (pre ++ number), (cursor ++ post).
        split; [done|]. rewrite Hrows.
        by rewrite <- !app_assoc.
      * repeat (split; [done || lia|]). intros _.
        exists (pre ++ number), (cursor ++ post). rewrite Hrows.
        by rewrite <- !app_assoc.
    + cbn [app]. intros [<-|[]] Hrows.
      repeat (split; [done || lia|]). done.
  - destruct (Hcur _ Hin) as (x & -> & Hx). lia.
Qed.

Lemma rows_stay_on_canvas_witness :
  let e :=
    with_selectAll true
      (with_showLineNumbers true
         (ed (insertChars (list_ascii_of_string "hello") (setup 0)))) in
  draw_rows (Z.to_nat VISIBLE_LINES) 0 0 e
  = [drawString (list_ascii_of_string "  1") 0 1 TFT_DARKGREY TL_DATUM;
     fillRect 24 1 30 9 TFT_BLUE;
     drawString (list_ascii_of_string "hello") 24 1 TFT_BLACK TL_DATUM;
     drawLine 54 1 54 9 TFT_WHITE] /\
  exists pre post,
    draw_rows (Z.to_nat VISIBLE_LINES) 0 0 e
    = pre ++ [fillRect 24 1 (wlen (list_ascii_of_string "hello") * 6) 9 TFT_BLUE;
              drawString (list_ascii_of_string "hello") 24 1 TFT_BLACK
                TL_DATUM] ++ post.
Proof.
  cbv zeta. split; [vm_compute; reflexivity|].
  pose proof (rows_stay_on_canvas 0
    (with_selectAll true
       (with_showLineNumbers true
          (ed (insertChars (list_ascii_of_string "hello") (setup 0)))))
    (drawString (list_ascii_of_string "hello") 24 1 TFT_BLACK TL_DATUM)) as H.
  cbv zeta in H.
  destruct H as (_ & _ & _ & _ & _ & H).
  - clear. vm_compute. discriminate.
  - clear. vm_compute. right. right. left. reflexivity.
  - apply H. reflexivity.
Defined.

(** ** Scroll offsets and the two caps-lock flags *)

Lemma insertChar_scroll c g : scroll (insertChar c g) = scroll g.
Proof. unfold insertChar. split_ifs; reflexivity. Qed.

Lemma tab_loop_scroll n : forall g, scroll (tab_loop n g) = scroll g.
Proof.
  induction n as [|n IH]; intros g; simpl; [done|].
  by rewrite IH, insertChar_scroll.
Qed.

Lemma typeChar_scroll g c : scroll (typeChar g c) = scroll g.
Proof.
  unfold typeChar. rewrite insertChar_scroll. by destruct (selectAll (ed g)).
Qed.

Lemma perform_scroll now g a : scroll (perform now g a) = scroll g.
Proof.
  destruct a; simpl;
    try apply typeChar_scroll; try apply tab_loop_scroll; try reflexivity.
  - unfold cursorUp, clampCol; simpl. split_ifs; reflexivity.
  - unfold cursorLeft. split_ifs; reflexivity.
  - unfold cursorDown, clampCol; simpl. split_ifs; reflexivity.
  - unfold cursorRight. split_ifs; reflexivity.
  - unfold handleEscape. split_ifs; reflexivity.
  - unfold handleForwardDelete. split_ifs; reflexivity.
  - unfold handleBackspace. split_ifs; reflexivity.
  - unfold handleEnter. split_ifs; reflexivity.
  - unfold popUndo. split_ifs; reflexivity.
Qed.

Lemma performAll_scroll now acts : forall g,
  scroll (performAll now acts g) = scroll g.
Proof.
  induction acts as [|a acts IH]; intros g; simpl; [done|].
  by rewrite IH, perform_scroll.
Qed.

Lemma scroll_nonneg g g' :
  scroll g' = scroll g ->
  0 <= scrollY (ed g) /\ 0 <= scrollX (ed g) ->
  0 <= scrollY (ed g') /\ 0 <= scrollX (ed g').
Proof. unfold scroll. intros H. injection H as -> ->. done. Qed.

Lemma loop_scroll now p g :
  Inv g ->
  0 <= scrollY (ed g) /\ 0 <= scrollX (ed g) ->
  0 <= scrollY (ed (loop now p g)) /\ 0 <= scrollX (ed (loop now p g)).
Proof.
  intros HI Hs. unfold loop.
  apply (scroll_nonneg (pollKeyboard now p g)).
  { unfold redrawIfNeeded, drawEditor. split_ifs; reflexivity. }
  unfold pollKeyboard. destruct (isChange p); [|done].
  destruct (negb _); [|done].
  rewrite keysDown_actions.
  set (g1 := performAll now (actionsOf (keysState p))
               (with_prev (fn (keysState p)) (shift (keysState p))
                  (capsToggle now (keysState p) g))).
  assert (Inv g1) as HI1.
  { apply performAll_Inv.
    apply (Inv_frame (capsToggle now (keysState p) g));
      [by apply capsToggle_Inv | done..]. }
  assert (0 <= scrollY (ed g1) /\ 0 <= scrollX (ed g1)) as [Hy Hx].
  { apply (scroll_nonneg g); [|done]. unfold g1.
    rewrite performAll_scroll. unfold capsToggle. by destruct (_ && _). }
  pose proof HI1 as (_ & (_ & Hl & Hc) & _).
  pose proof (ensureCursorVisible_scroll g1) as Hv.
  unfold finishPoll.
  destruct (fn (keysState p)); [apply Hv; lia|].
  destruct (ctrl (keysState p)); [done | apply Hv; lia].
Qed.

(** X12.  In every state the sketch can reach, the scroll offsets are not
    negative, and the caps-lock flag of the editor equals the one kept by
    the keyboard library. *)
Theorem scroll_and_caps_invariant (g : Globals) :
  reachable g ->
  0 <= scrollY (ed g) /\ 0 <= scrollX (ed g) /\
  capsLock (ed g) = kbCapsLocked g.
Proof.
  induction 1 as [now | now g a Hr IH | now p g Hr IH].
  - by_compute.
  - destruct IH as (Hy & Hx & Hcaps).
    pose proof (perform_ctx now g a) as Hctx.
    pose proof (perform_scroll now g a) as Hsc.
    unfold ctx in Hctx. unfold scroll in Hsc.
    injection Hctx as -> -> _ _. injection Hsc as -> ->. done.
  - destruct IH as (Hy & Hx & Hcaps).
    destruct (loop_scroll now p g) as [Hy' Hx'];
      [by apply reachable_Inv | done |].
    split; [done|]. split; [done|].
    assert (ctx (loop now p g) = ctx (pollKeyboard now p g)) as Hctx
      by apply redrawIfNeeded_ctx.
    assert (capsLock (ed (pollKeyboard now p g))
            = kbCapsLocked (pollKeyboard now p g)) as Hpoll.
    { unfold pollKeyboard. destruct (isChange p); [|done].
      destruct (negb _); [|done].
      pose proof (keysDown_ctx now (keysState p) g) as Hk.
      cbv zeta in Hk. unfold ctx in Hk. injection Hk as -> -> _ _.
      rewrite Hcaps.
      destruct (fn _ && shift _ && negb _); [done|].
      by rewrite xorb_false_r. }
    unfold ctx in Hctx. injection Hctx as -> -> _ _. done.
Qed.

Lemma scroll_and_caps_invariant_witness :
  let p :=
    mkPoll true 2
      (mkKeysState false true true false false false false false false 2
         [] [] [129]) in
  let g := loop 10 p (setup 0) in
  capsLock (ed g) = true /\ kbCapsLocked g = true /\
  0 <= scrollY (ed g) /\ 0 <= scrollX (ed g).
Proof.
  cbv zeta.
  destruct (scroll_and_caps_invariant
    (loop 10
       (mkPoll true 2
          (mkKeysState false true true false false false false false false 2
             [] [] [129]))
       (setup 0)))
    as (Hy & Hx & Hcaps); [apply reach_loop, reach_setup|].
  split; [by_compute|]. split; [|done].
  rewrite <- Hcaps. by_compute.
Defined.

(** * One pass of the loop *)

Lemma elapsed_same now : elapsed now now = 0.
Proof. unfold elapsed. by rewrite Z.sub_diag. Qed.

(** X13.  After every pass of [loop] no redraw is pending, a notification
    still held is younger than 1500 ms, and the last blink is less than
    500 ms old, all in 32-bit time.  A pass that finds no key event, no
    pending redraw, no expired notification and no blink due returns the
    globals as they were; so a second pass at the same instant without a key
    event changes nothing. *)
Theorem loop_settles (now : Z) (p q : Poll) (g : Globals) :
  let g' := loop now p g in
  (needsRedraw g' = false /\
   (wlen (notification (ed g')) = 0 \/
    elapsed now (notificationTime (ed g')) < NOTIFICATION_MS) /\
   elapsed now (lastBlink g') < 500) /\
  (idle now p g -> g' = g) /\
  (isChange q = false -> loop now q g' = g').
Proof.
  cbv zeta.
  assert (forall p g, needsRedraw (loop now p g) = false /\
     (wlen (notification (ed (loop now p g))) = 0 \/
      elapsed now (notificationTime (ed (loop now p g))) < NOTIFICATION_MS) /\
     elapsed now (lastBlink (loop now p g)) < 500) as Hpost.
  { clear. intros p g. unfold loop. generalize (pollKeyboard now p g).
    clear. intros g. unfold redrawIfNeeded, drawEditor.
    destruct g as [[ls n l c sy sx cp sel sh nt ntt] st hd cnt pf ps nr kb lb].
    cbn.
    destruct (Z.gtb_spec (wlen nt) 0); cbn;
      [destruct (Z.geb_spec (elapsed now ntt) NOTIFICATION_MS); cbn|];
      (destruct (Z.geb_spec (elapsed now lb) 500); cbn);
      rewrite ?elapsed_same;
      repeat match goal with
             | |- context [if ?b then _ else _] =>
                 let E := fresh in destruct b eqn:E; cbn
             end;
      repeat match goal with
             | H : (_ >? _) = _ |- _ => apply Z.gtb_ltb in H
             | H : (_ <? _) = true |- _ => apply Z.ltb_lt in H
             | H : (_ <? _) = false |- _ => apply Z.ltb_ge in H
             | H : _ && _ = true |- _ => apply andb_true_iff in H as [? ?]
             end;
      unfold wlen in *; cbn in *; repeat split; try done; try lia;
      try (right; lia); try (left; lia);
      rewrite elapsed_same; lia. }
  assert (forall p g, idle now p g -> loop now p g = g) as Hidle.
  { clear. intros p g (Hch & Hnr & Hnote & Hblink).
    unfold loop, pollKeyboard. rewrite Hch.
    unfold redrawIfNeeded.
    destruct (Z.geb_spec (elapsed now (notificationTime (ed g)))
                NOTIFICATION_MS).
    - destruct (Z.gtb_spec (wlen (notification (ed g))) 0); [lia|].
      cbn [andb]. destruct (Z.geb_spec (elapsed now (lastBlink g)) 500); [lia|].
      by rewrite Hnr.
    - rewrite andb_false_r.
      destruct (Z.geb_spec (elapsed now (lastBlink g)) 500); [lia|].
      by rewrite Hnr. }
  split; [apply Hpost|]. split; [apply Hidle|].
  intros Hq. apply Hidle. split; [done|]. apply Hpost.
Qed.

Lemma loop_settles_witness :
  let p :=
    mkPoll true 1
      (mkKeysState false false false false false false false false false 0
         ["a"%char] [4] []) in
  let q := mkPoll false 1 (keysState p) in
  let g := loop 2000 p (setup 0) in
  notification (ed (setup 0)) <> [] /\ notification (ed g) = [] /\
  lastBlink g = 2000 /\ loop 2000 q g = g /\ loop 2499 q g = g /\
  lastBlink (loop 2500 q g) = 2500.
Proof.
  cbv zeta.
  pose proof (loop_settles 2000
    (mkPoll true 1
       (mkKeysState false false false false false false false false false 0
          ["a"%char] [4] []))
    (mkPoll false 1
       (mkKeysState false false false false false false false false false 0
          ["a"%char] [4] []))
    (setup 0)) as (_ & _ & Hagain).
  pose proof (loop_settles 2499
    (mkPoll false 1
       (mkKeysState false false false false false false false false false 0
          ["a"%char] [4] []))
    (mkPoll false 1
       (mkKeysState false false false false false false false false false 0
          ["a"%char] [4] []))
    (loop 2000
       (mkPoll true 1
          (mkKeysState false false false false false false false false false 0
             ["a"%char] [4] []))
       (setup 0))) as (_ & Hidle & _).
  split; [by_compute|]. split; [by_compute|]. split; [by_compute|].
  split; [by apply Hagain|]. split; [|clear; by_compute].
  apply Hidle. clear. unfold idle. vm_compute. repeat split. by left.
Defined.

(** * The Ctrl layer *)

Lemma popUndo_frame now g1 g2 :
  text g1 = text g2 -> ring g1 = ring g2 ->
  text (popUndo now g1) = text (popUndo now g2) /\
  ring (popUndo now g1) = ring (popUndo now g2).
Proof.
  destruct g1 as [[] ?], g2 as [[] ?]. unfold text, ring. cbn.
  intros Ht Hr. injection Ht as -> -> -> ->. injection Hr as -> -> ->.
  unfold popUndo; cbn. split_ifs; done.
Qed.

Lemma popUndo_selectAll now g :
  selectAll (ed (popUndo now g)) = selectAll (ed g).
Proof. unfold popUndo. split_ifs; reflexivity. Qed.

Lemma ctrlKey_cases now g c :
  (is_undo_key c = true /\ ctrlKey now g c = popUndo now g) \/
  (is_undo_key c = false /\
   text (ctrlKey now g c) = text g /\ ring (ctrlKey now g c) = ring g /\
   selectAll (ed (ctrlKey now g c)) = selectAll (ed g) || is_select_key c).
Proof.
  unfold ctrlKey, is_undo_key, is_select_key. cbv zeta.
  destruct (Ascii.eqb_spec (tolower c) "z") as [Hz|Hz].
  - left. rewrite Hz. by cbn.
  - right. split; [done|].
    destruct (Ascii.eqb_spec (tolower c) "s") as [Hs|Hs];
      [rewrite Hs; cbn; by rewrite orb_false_r|].
    destruct (Ascii.eqb_spec (tolower c) "z"); [done|].
    destruct (Ascii.eqb_spec (tolower c) "a");
      [cbn; by rewrite orb_true_r|].
    rewrite orb_false_r.
    destruct (Ascii.eqb_spec (tolower c) "c"); [done|].
    destruct (Ascii.eqb_spec (tolower c) "v"); done.
Qed.

Lemma ctrlKey_scroll now g c : scroll (ctrlKey now g c) = scroll g.
Proof. rewrite ctrlKey_perform. apply performAll_scroll. Qed.

Lemma ctrl_word now cs : forall g1 g2,
  text g1 = text g2 -> ring g1 = ring g2 ->
  let g' := fold_left (ctrlKey now) cs g1 in
  let k := length (List.filter is_undo_key cs) in
  text g' = text (undos (replicate k now) g2) /\
  ring g' = ring (undos (replicate k now) g2) /\
  scroll g' = scroll g1 /\
  selectAll (ed g') = selectAll (ed g1) || existsb is_select_key cs.
Proof.
  induction cs as [|c cs IH]; intros g1 g2 Ht Hr; cbv zeta.
  { cbn. by rewrite orb_false_r. }
  cbn [fold_left List.filter existsb].
  destruct (ctrlKey_cases now g1 c) as [[Hz Hc]|(Hz & Hct & Hcr & Hcs)];
    rewrite Hz.
  - rewrite Hc. cbn [length replicate].
    change (undos (now :: ?ts) g2) with (undos ts (popUndo now g2)).
    destruct (popUndo_frame now g1 g2 Ht Hr) as [Ht' Hr'].
    destruct (IH _ _ Ht' Hr') as (H1 & H2 & H3 & H4).
    split; [done|]. split; [done|]. split.
    + rewrite H3. unfold popUndo. split_ifs; reflexivity.
    + rewrite H4, popUndo_selectAll.
      unfold is_undo_key, is_select_key in *.
      apply Ascii.eqb_eq in Hz. rewrite Hz. done.
  - destruct (IH (ctrlKey now g1 c) g2) as (H1 & H2 & H3 & H4);
      [congruence | congruence |].
    split; [done|]. split; [done|]. split.
    + by rewrite H3, ctrlKey_scroll.
    + by rewrite H4, Hcs, orb_assoc.
Qed.

(** X14.  A processed poll of the Ctrl layer does to the lines, the cursor
    and the undo ring what one [popUndo] per [z] or [Z] of the word does,
    and nothing else: the other characters of the word are not typed, and
    Backspace, Enter and Tab held with Ctrl do not edit.  The poll does not
    scroll, and it leaves the selection flag set when it was set or when the
    word holds [a] or [A]. *)
Theorem ctrl_poll_only_undoes (now : Z) (p : Poll) (g : Globals) :
  ctrl_poll p = true ->
  let cs := word (keysState p) in
  let k := length (List.filter is_undo_key cs) in
  let g' := loop now p g in
  text g' = text (undos (replicate k now) g) /\
  ring g' = ring (undos (replicate k now) g) /\
  scroll g' = scroll g /\
  selectAll (ed g') = selectAll (ed g) || existsb is_select_key cs.
Proof.
  intros Hp. unfold ctrl_poll in Hp.
  apply andb_true_iff in Hp as [Hp Hctrl].
  apply andb_true_iff in Hp as [Hp Hfn]. apply negb_true_iff in Hfn.
  apply andb_true_iff in Hp as [Hch Hpr].
  cbv zeta. unfold loop, pollKeyboard, keysDown, capsToggle.
  rewrite Hch, Hpr, Hfn, Hctrl. cbn [andb].
  set (g0 := with_prev false (shift (keysState p)) g).
  destruct (ctrl_word now (word (keysState p)) g0 g) as (H1 & H2 & H3 & H4);
    [done..|].
  set (g1 := fold_left (ctrlKey now) (word (keysState p)) g0) in *.
  destruct (redrawIfNeeded_frame now (with_needsRedraw true g1)) as [Ht Hr].
  rewrite Ht, Hr. split; [done|]. split; [done|]. split.
  - transitivity (scroll g1); [|done].
    unfold redrawIfNeeded, drawEditor. split_ifs; reflexivity.
  - transitivity (selectAll (ed g1)); [|done].
    unfold redrawIfNeeded, drawEditor. split_ifs; reflexivity.
Qed.

Lemma ctrl_poll_only_undoes_witness :
  let p :=
    mkPoll true 3
      (mkKeysState true false false true false false true true false 1
         (list_ascii_of_string "zqZ") [29; 20] [224]) in
  let g := insertChars (list_ascii_of_string "abc") (setup 0) in
  doc (loop 9 p g) = ([["a"%char]], 1, 0, 1).
Proof.
  cbv zeta.
  destruct (ctrl_poll_only_undoes 9
    (mkPoll true 3
       (mkKeysState true false false true false false true true false 1
          (list_ascii_of_string "zqZ") [29; 20] [224]))
    (insertChars (list_ascii_of_string "abc") (setup 0)))
    as (Ht & _); [reflexivity|].
  rewrite (doc_text _ _ Ht). by_compute.
Defined.

Lemma reachable_iter now p n : forall g,
  reachable g -> reachable (Nat.iter n (loop now p) g).
Proof.
  induction n as [|n IH]; intros g Hr; [done|].
  cbn [Nat.iter]. by apply reach_loop, IH.
Qed.

(** X15.  The Ctrl layer does not bring the cursor back into the window:
    there is a reachable state with the cursor in the window (fourteen polls
    of Enter, twelve of Ctrl+Z) from which one more poll of Ctrl+Z leaves
    the cursor above the window, with no text row drawn at all. *)
Theorem undo_can_leave_the_window :
  exists (now : Z) (p : Poll) (g : Globals),
    reachable g /\ in_window (ed g) /\ ctrl_poll p = true /\
    ~ in_window (ed (loop now p g)) /\
    cursorLine (ed (loop now p g)) < scrollY (ed (loop now p g)) /\
    draw_rows (Z.to_nat VISIBLE_LINES) 0 now (ed (loop now p g)) = [].
Proof.
  set (pe := mkPoll true 1
               (mkKeysState false false false false false false false true
                  false 0 [] [40] [])).
  set (pz := mkPoll true 2
               (mkKeysState false false false true false false false false
                  false 1 ["z"%char] [29] [224])).
  set (g := Nat.iter 12 (loop 0 pz) (Nat.iter 14 (loop 0 pe) (setup 0))).
  exists 0, pz, g.
  assert (cursorLine (ed g) = 2) as Hl by by_compute.
  assert (cursorCol (ed g) = 0) as Hc by by_compute.
  assert (scrollY (ed g) = 2) as Hy by by_compute.
  assert (scrollX (ed g) = 0) as Hx by by_compute.
  assert (showLineNumbers (ed g) = false) as Hs by by_compute.
  assert (cursorLine (ed (loop 0 pz g)) = 1) as Hl' by by_compute.
  assert (scrollY (ed (loop 0 pz g)) = 2) as Hy' by by_compute.
  split; [apply reachable_iter, reachable_iter, reach_setup|].
  split; [unfold in_window, VISIBLE_LINES, CHARS_PER_LINE;
          rewrite Hl, Hc, Hy, Hx, Hs; lia|].
  split; [done|].
  split; [unfold in_window; rewrite Hl', Hy'; lia|].
  split; [rewrite Hl', Hy'; lia|]. by_compute.
Qed.

(** * The diagnostic sketch: the scrolling log *)

Lemma logPrints_snoc ls l st :
  Diagnostic.logPrints (ls ++ [l]) st
  = Diagnostic.logPrint l (Diagnostic.logPrints ls st).
Proof. unfold Diagnostic.logPrints. by rewrite fold_left_app. Qed.

(** The ring after the lines [ls]: the last 16 of them, line [m] in slot
    [m mod 16]. *)
Lemma logPrints_ring ls :
  let st := Diagnostic.logPrints ls Diagnostic.log0 in
  length (Diagnostic.logLines st) = 16%nat /\
  Diagnostic.logHead st = Z.of_nat (length ls) mod 16 /\
  Diagnostic.logCount st = Z.min 16 (Z.of_nat (length ls)) /\
  Diagnostic.serial st = ls /\
  forall m : nat, (m < length ls)%nat -> (length ls <= m + 16)%nat ->
    Diagnostic.logLines st !! Z.to_nat (Z.of_nat m mod 16) = ls !! m.
Proof.
  induction ls as [|l ls IH] using rev_ind; cbv zeta.
  { repeat split; try done. intros m Hm. simpl in Hm. lia. }
  cbv zeta in IH. destruct IH as (Hlen & Hhd & Hcnt & Hser & Hring).
  rewrite logPrints_snoc. set (st := Diagnostic.logPrints ls _) in *.
  unfold Diagnostic.logPrint; cbn [Diagnostic.logLines Diagnostic.logHead
    Diagnostic.logCount Diagnostic.serial].
  rewrite length_app; cbn [length].
  assert (0 <= Diagnostic.logHead st < 16) as Hh by lia.
  split; [by rewrite length_aset|].
  split; [unfold Diagnostic.LOG_LINES; rewrite Hhd; lia|].
  split; [unfold Diagnostic.LOG_LINES; rewrite Hcnt;
          destruct (Z.ltb_spec (Z.min 16 (Z.of_nat (length ls))) 16); lia|].
  split; [by rewrite Hser|].
  intros m Hm Hw. rewrite aset_Z by lia.
  destruct (Nat.eq_dec m (length ls)) as [->|Hne].
  - rewrite Hhd.
    rewrite list_lookup_insert_eq by (rewrite Hlen; lia).
    by rewrite lookup_app_r, Nat.sub_diag by lia.
  - rewrite list_lookup_insert_ne by (rewrite Hhd; lia).
    rewrite lookup_app_l by lia. apply Hring; lia.
Qed.

(** The rows that the loop of [drawLog] draws from row [i] on. *)
Lemma draw_log_lines_eq st startIdx : forall n i,
  0 <= i ->
  Diagnostic.draw_log_lines n i (10 + 8 * i) startIdx st =
    map (fun j : nat =>
           drawString
             (aget [] (Diagnostic.logLines st)
                (Z.rem (startIdx + Z.of_nat j) Diagnostic.LOG_LINES))
             0 (10 + 8 * Z.of_nat j) TFT_GREEN TL_DATUM)
      (seq (Z.to_nat i)
         (Z.to_nat
            (Z.min (Z.min (i + Z.of_nat n) (Diagnostic.logCount st)) 15 - i))).
Proof.
  induction n as [|n IH]; intros i Hi.
  { replace (Z.to_nat (Z.min _ _ - i)) with 0%nat by lia. done. }
  cbn [Diagnostic.draw_log_lines].
  destruct (Z.ltb_spec i (Diagnostic.logCount st));
    [destruct (Z.ltb_spec (10 + 8 * i) 130)|]; cbn [andb].
  - replace (Z.to_nat
               (Z.min (Z.min (i + Z.of_nat (S n)) (Diagnostic.logCount st)) 15
                - i))
      with (S (Z.to_nat
                 (Z.min (Z.min (i + 1 + Z.of_nat n) (Diagnostic.logCount st))
                    15 - (i + 1)))) by lia.
    cbn [seq map]. rewrite Z2Nat.id by lia. f_equal.
    replace (10 + 8 * i + 8) with (10 + 8 * (i + 1)) by lia.
    rewrite IH by lia. by replace (Z.to_nat (i + 1)) with (S (Z.to_nat i)) by lia.
  - by replace (Z.to_nat (Z.min _ _ - i)) with 0%nat by lia.
  - by replace (Z.to_nat (Z.min _ _ - i)) with 0%nat by lia.
Qed.

Lemma drawLog_logPrints (ls : list WString) :
  Diagnostic.drawLog (Diagnostic.logPrints ls Diagnostic.log0) =
    Diagnostic.log_screen (take 15 (drop (length ls - 16) ls)).
Proof.
  destruct (logPrints_ring ls) as (Hlen & Hhd & Hcnt & Hser & Hring).
  set (st := Diagnostic.logPrints ls _) in *.
  unfold Diagnostic.drawLog, Diagnostic.log_screen. do 2 f_equal.
  change 10 with (10 + 8 * 0) at 1.
  rewrite draw_log_lines_eq by lia.
  apply list_eq. intros j.
  rewrite list_lookup_imap, list_lookup_fmap.
  change (Z.to_nat 0) with 0%nat.
  set (k := Z.to_nat (Z.min (Z.min (0 + Z.of_nat (Z.to_nat (Diagnostic.logCount st)))
                               (Diagnostic.logCount st)) 15 - 0)).
  assert (k = Nat.min 15 (Nat.min 16 (length ls))) as Hk by lia.
  destruct (Nat.lt_ge_cases j k) as [Hj|Hj].
  - rewrite lookup_seq_lt by done. cbn [fmap option_fmap option_map].
    rewrite lookup_take_lt by lia. rewrite lookup_drop.
    destruct (lookup_lt_is_Some_2 ls (length ls - 16 + j)) as [l Hl]; [lia|].
    rewrite Hl. cbn. do 2 f_equal.
    unfold Diagnostic.LOG_LINES.
    destruct (Z.ltb_spec (Diagnostic.logCount st) 16).
    + rewrite aget_Z by lia.
      replace (Z.rem (0 + Z.of_nat j) 16) with (Z.of_nat j mod 16) by lia.
      rewrite Hring by lia.
      replace (length ls - 16 + j)%nat with j in Hl by lia. by rewrite Hl.
    + rewrite aget_Z by lia.
      replace (Z.rem (Diagnostic.logHead st + Z.of_nat j) 16)
        with (Z.of_nat (length ls - 16 + j) mod 16) by (rewrite Hhd; lia).
      rewrite Hring by lia. by rewrite Hl.
  - rewrite lookup_seq_ge by done. cbn.
    rewrite lookup_ge_None_2; [done|].
    rewrite length_take, length_drop. lia.
Qed.

Lemma last_sixteen_cut (ls : list WString) :
  (16 <= length ls)%nat ->
  take 15 (drop (length ls - 16) ls) ++ [List.last ls []]
  = drop (length ls - 16) ls.
Proof.
  intros Hlen.
  set (d := drop (length ls - 16) ls).
  assert (length d = 16%nat) as Hd by (unfold d; rewrite length_drop; lia).
  rewrite <- (take_drop 15 d) at 2. f_equal.
  assert (length (drop 15 d) = 1%nat) as H1 by (rewrite length_drop; lia).
  destruct (drop 15 d) as [|x [|y r]] eqn:Hx; try done. f_equal.
  rewrite <- (take_drop (length ls - 16) ls). fold d.
  rewrite <- (take_drop 15 d), Hx, app_assoc. apply last_last.
Qed.

(** X16.  After any lines printed with [logPrint], [Serial] has received all
    of them in order, and [drawLog] draws, under its header, the first
    fifteen of the last sixteen lines, oldest first, eight pixels apart from
    y = 10.  So once sixteen lines have been printed, the screen shows the
    last sixteen lines without the newest one. *)
Theorem log_shows_fifteen_of_last_sixteen (ls : list WString) :
  let st := Diagnostic.logPrints ls Diagnostic.log0 in
  let shown := take 15 (drop (length ls - 16) ls) in
  Diagnostic.serial st = ls /\
  Diagnostic.drawLog st = Diagnostic.log_screen shown /\
  ((16 <= length ls)%nat ->
     shown ++ [List.last ls []] = drop (length ls - 16) ls).
Proof.
  cbv zeta. split; [apply logPrints_ring|].
  split; [apply drawLog_logPrints | apply last_sixteen_cut].
Qed.

Lemma log_shows_fifteen_of_last_sixteen_witness :
  let ls := map (fun n => [ascii_of_nat (65 + n)]) (seq 0 17) in
  Diagnostic.drawLog (Diagnostic.logPrints ls Diagnostic.log0)
  = Diagnostic.log_screen (map (fun n => [ascii_of_nat (65 + n)]) (seq 1 15))
  /\ List.last ls [] = ["Q"%char].
Proof.
  cbv zeta.
  destruct (log_shows_fifteen_of_last_sixteen
              (map (fun n => [ascii_of_nat (65 + n)]) (seq 0 17)))
    as (_ & Hdraw & _).
  split; [exact Hdraw | reflexivity].
Defined.

(** * The diagnostic sketch: how keys are rendered *)

Lemma hexDigit_inj d e :
  0 <= d < 16 -> 0 <= e < 16 ->
  Diagnostic.hexDigit d = Diagnostic.hexDigit e -> d = e.
Proof.
  intros Hd He. unfold Diagnostic.hexDigit.
  assert (forall i j : nat, (i < 16)%nat -> (j < 16)%nat ->
            nth i (lit "0123456789ABCDEF") "0"%char
            = nth j (lit "0123456789ABCDEF") "0"%char -> i = j) as Hinj.
  { intros i j Hi Hj.
    do 16 (destruct i as [|i]; [do 16 (destruct j as [|j]; [done|]); lia|]).
    lia. }
  intros H. apply Hinj in H; lia.
Qed.

Lemma hexByte_eq v :
  Diagnostic.hexByte v =
    ["0"%char; "x"%char; Diagnostic.hexDigit (v mod 256 / 16);
     Diagnostic.hexDigit (v mod 256 mod 16)].
Proof. reflexivity. Qed.

Lemma code_bound c : 0 <= code c < 256.
Proof.
  unfold code. pose proof (N_ascii_bounded c). lia.
Qed.

Lemma code_inj a b : code a = code b -> a = b.
Proof.
  unfold code. intros H. apply N2Z.inj in H.
  by rewrite <- (ascii_N_embedding a), <- (ascii_N_embedding b), H.
Qed.

(** X17.  The log renders every byte and every character so that it can be
    told apart: [hexByte] gives four characters that determine the byte
    (its argument modulo 256), and [printableChar] gives three characters
    for a printable character and four for any other, and never the same
    text for two different characters. *)
Theorem key_rendering_is_injective :
  (forall v, wlen (Diagnostic.hexByte v) = 4) /\
  (forall v w,
     Diagnostic.hexByte v = Diagnostic.hexByte w -> v mod 256 = w mod 256) /\
  (forall c,
     wlen (Diagnostic.printableChar c)
     = if Diagnostic.printable c then 3 else 4) /\
  (forall a b,
     Diagnostic.printableChar a = Diagnostic.printableChar b -> a = b).
Proof.
  assert (forall v w,
     Diagnostic.hexByte v = Diagnostic.hexByte w -> v mod 256 = w mod 256)
    as Hhex.
  { intros v w. rewrite !hexByte_eq. intros H. injection H as H1 H2.
    apply hexDigit_inj in H1; [|lia..]. apply hexDigit_inj in H2; [|lia..].
    lia. }
  split; [done|]. split; [done|]. split.
  - intros c. unfold Diagnostic.printableChar, Diagnostic.printable.
    by destruct (_ && _).
  - intros a b. unfold Diagnostic.printableChar.
    destruct ((32 <=? code a) && (code a <=? 126));
      destruct ((32 <=? code b) && (code b <=? 126)).
    + cbn. intros H. by injection H.
    + rewrite hexByte_eq. cbn. discriminate.
    + rewrite hexByte_eq. cbn. discriminate.
    + intros H. apply Hhex in H. apply code_inj.
      pose proof (code_bound a). pose proof (code_bound b). lia.
Qed.

(** * The diagnostic sketch: passes of the loop *)

Lemma serial_logPrint l st :
  Diagnostic.serial (Diagnostic.logPrint l st) = Diagnostic.serial st ++ [l].
Proof. reflexivity. Qed.

(** The log is what printing its serial lines makes of the empty log. *)
Lemma logPrint_generated l st :
  st = Diagnostic.logPrints (Diagnostic.serial st) Diagnostic.log0 ->
  Diagnostic.logPrint l st
  = Diagnostic.logPrints (Diagnostic.serial (Diagnostic.logPrint l st))
      Diagnostic.log0.
Proof.
  intros H. rewrite serial_logPrint, logPrints_snoc. by rewrite <- H.
Qed.

(** What [dumpKeysState] prints: four to six lines, the last a rule. *)
Lemma dumpKeysState_lines s caps st :
  exists new,
    Diagnostic.dumpKeysState s caps st = Diagnostic.logPrints new st /\
    (4 <= length new <= 6)%nat /\ List.last new [] = lit "---".
Proof.
  unfold Diagnostic.dumpKeysState. cbv zeta.
  generalize (Diagnostic.flags s) (Diagnostic.wordStr s)
    (Diagnostic.hidStr s) (Diagnostic.modStr s).
  intros f w h m.
  destruct (modifier_keys s) as [|k ks], caps.
  - exists [f; w; h; lit "CAPS: ON"; lit "---"]. cbn. repeat split; (done || lia).
  - exists [f; w; h; lit "---"]. cbn. repeat split; (done || lia).
  - exists [f; w; h; m; lit "CAPS: ON"; lit "---"]. cbn. repeat split; (done || lia).
  - exists [f; w; h; m; lit "---"]. cbn. repeat split; (done || lia).
Qed.

Lemma logPrints_app a b st :
  Diagnostic.logPrints (a ++ b) st
  = Diagnostic.logPrints b (Diagnostic.logPrints a st).
Proof. unfold Diagnostic.logPrints. by rewrite fold_left_app. Qed.

Lemma serial_logPrints new : forall st,
  Diagnostic.serial (Diagnostic.logPrints new st)
  = Diagnostic.serial st ++ new.
Proof.
  induction new as [|l new IH]; intros st; cbn; [by rewrite app_nil_r|].
  change (fold_left _ new ?x) with (Diagnostic.logPrints new x).
  rewrite IH, serial_logPrint, <- app_assoc. done.
Qed.

Lemma logPrints_generated new st :
  st = Diagnostic.logPrints (Diagnostic.serial st) Diagnostic.log0 ->
  Diagnostic.logPrints new st
  = Diagnostic.logPrints (Diagnostic.serial (Diagnostic.logPrints new st))
      Diagnostic.log0.
Proof.
  intros H. rewrite serial_logPrints, logPrints_app. by rewrite <- H.
Qed.

(** What a processed pass prints: five to eight lines, the last a rule. *)
Lemma loop_lines p k g :
  isChange p && negb (isPressed p =? 0) = true ->
  exists new,
    Diagnostic.log (Diagnostic.loop p k g)
      = Diagnostic.logPrints new (Diagnostic.log g) /\
    Diagnostic.canvas (Diagnostic.loop p k g)
      = Diagnostic.drawLog (Diagnostic.log (Diagnostic.loop p k g)) /\
    (5 <= length new <= 8)%nat /\ List.last new [] = lit "---".
Proof.
  intros Hp. apply andb_true_iff in Hp as [Hch Hpr].
  unfold Diagnostic.loop. rewrite Hch, Hpr. cbv zeta.
  match goal with
  | |- context [Diagnostic.logPrint ?pos _] =>
      lazymatch pos with
      | fold_left _ _ _ => generalize pos
      end
  end.
  intros pos.
  destruct (fn (keysState p) && shift (keysState p)
            && negb (Diagnostic.prevFn g && Diagnostic.prevShift g));
    cbn [Diagnostic.log Diagnostic.capslocked Diagnostic.canvas].
  - match goal with
    | |- context [Diagnostic.logPrint pos (Diagnostic.logPrint ?t _)] =>
        generalize t
    end.
    intros t.
    destruct (dumpKeysState_lines (keysState p)
                (negb (Diagnostic.capslocked g))
                (Diagnostic.logPrint pos
                   (Diagnostic.logPrint t (Diagnostic.log g))))
      as (new & Hd & Hn & Hl).
    exists (t :: pos :: new). rewrite Hd. split; [done|]. split; [done|].
    split; [cbn [length]; lia|].
    destruct new as [|x new]; [simpl in Hn; lia | done].
  - destruct (dumpKeysState_lines (keysState p) (Diagnostic.capslocked g)
                (Diagnostic.logPrint pos (Diagnostic.log g)))
      as (new & Hd & Hn & Hl).
    exists (pos :: new). rewrite Hd. split; [done|]. split; [done|].
    split; [cbn [length]; lia|].
    destruct new as [|x new]; [simpl in Hn; lia | done].
Qed.

Lemma loop_idle p k g :
  isChange p && negb (isPressed p =? 0) = false ->
  Diagnostic.log (Diagnostic.loop p k g) = Diagnostic.log g /\
  Diagnostic.canvas (Diagnostic.loop p k g) = Diagnostic.canvas g.
Proof.
  unfold Diagnostic.loop.
  destruct (isChange p); [|done]. destruct (negb _); [done|]. done.
Qed.

Lemma last_app_nonempty (a b : list WString) :
  b <> [] -> List.last (a ++ b) [] = List.last b [].
Proof.
  intros Hb. destruct b as [|x b] using rev_ind; [done|].
  by rewrite app_assoc, !last_last.
Qed.

(** The invariant of the sketch: the log is generated by its serial lines,
    the canvas shows the log, and the last line printed is a rule. *)
Lemma run_generated ps :
  let g := Diagnostic.run ps Diagnostic.setup in
  Diagnostic.log g
    = Diagnostic.logPrints (Diagnostic.serial (Diagnostic.log g))
        Diagnostic.log0 /\
  Diagnostic.canvas g = Diagnostic.drawLog (Diagnostic.log g) /\
  (5 <= length (Diagnostic.serial (Diagnostic.log g)))%nat /\
  List.last (Diagnostic.serial (Diagnostic.log g)) [] = lit "---".
Proof.
  induction ps as [|[p k] ps IH] using rev_ind; cbv zeta.
  { repeat split; cbn; lia. }
  cbv zeta in IH. destruct IH as (Hgen & Hcan & Hlen & Hlast).
  unfold Diagnostic.run in *. rewrite fold_left_app. cbn [fold_left fst snd].
  set (g := fold_left _ ps Diagnostic.setup) in *.
  destruct (isChange p && negb (isPressed p =? 0)) eqn:Hp.
  - destruct (loop_lines p k g Hp) as (new & Hlog & Hc & Hn & Hl).
    rewrite Hc, Hlog. split; [by apply logPrints_generated|].
    split; [done|]. rewrite serial_logPrints, length_app.
    split; [lia|]. rewrite last_app_nonempty; [done|].
    destruct new; [simpl in Hn; lia | done].
  - destruct (loop_idle p k g Hp) as [-> ->]. done.
Qed.

(** X18.  After [setup()] and any passes of [loop()], the canvas shows the
    first fifteen of the last sixteen lines sent to [Serial]; at least five
    lines have been sent and the last one is the rule [---].  A pass that
    processes a key event sends five to eight lines, ending with the rule,
    and redraws; any other pass sends nothing and leaves the canvas. *)
Theorem diagnostic_screen_follows_serial
  (ps : list (Poll * list (Z * Z))) (p : Poll) (keyList : list (Z * Z)) :
  let g := Diagnostic.run ps Diagnostic.setup in
  let out := Diagnostic.serial (Diagnostic.log g) in
  let g' := Diagnostic.loop p keyList g in
  let out' := Diagnostic.serial (Diagnostic.log g') in
  (Diagnostic.canvas g
     = Diagnostic.log_screen (take 15 (drop (length out - 16) out)) /\
   (5 <= length out)%nat /\ List.last out [] = lit "---") /\
  (if isChange p && negb (isPressed p =? 0) then
     exists new, out' = out ++ new /\ (5 <= length new <= 8)%nat /\
                 List.last new [] = lit "---"
   else out' = out /\ Diagnostic.canvas g' = Diagnostic.canvas g).
Proof.
  cbv zeta. destruct (run_generated ps) as (Hgen & Hcan & Hlen & Hlast).
  cbv zeta in *. set (g := Diagnostic.run ps Diagnostic.setup) in *.
  split.
  - split; [|done]. rewrite Hcan, Hgen, serial_logPrints. cbn [app].
    apply drawLog_logPrints.
  - destruct (isChange p && negb (isPressed p =? 0)) eqn:Hp.
    + destruct (loop_lines p keyList g Hp) as (new & Hlog & _ & Hn & Hl).
      exists new. by rewrite Hlog, serial_logPrints.
    + destruct (loop_idle p keyList g Hp) as [-> ->]. done.
Qed.

(** * The two sketches and caps lock *)

Lemma ctx_fields g a b c d :
  ctx g = (a, b, c, d) ->
  capsLock (ed g) = a /\ kbCapsLocked g = b /\ prevFn g = c /\ prevShift g = d.
Proof. unfold ctx. intros H. by injection H. Qed.

(** X19.  The two sketches toggle caps lock on the same passes: run on the
    same sequence of keyboard states from their [setup()], the diagnostic
    sketch and the editor hold the same caps-lock flag and the same
    previous-frame flags after every pass. *)
Theorem sketches_agree_on_caps (now0 : Z)
  (ts : list (Tick * list (Z * Z))) :
  let g := run (map fst ts) (setup now0) in
  let d :=
    Diagnostic.run (map (fun t => (snd (fst t), snd t)) ts)
      Diagnostic.setup in
  Diagnostic.capslocked d = kbCapsLocked g /\
  Diagnostic.capslocked d = capsLock (ed g) /\
  Diagnostic.prevFn d = prevFn g /\
  Diagnostic.prevShift d = prevShift g.
Proof.
  induction ts as [|[t k] ts IH] using rev_ind; cbv zeta; [done|].
  cbv zeta in IH. destruct IH as (Hkb & Hcaps & Hfn & Hsh).
  rewrite !map_app. cbn [map fst snd].
  unfold run, Diagnostic.run in *. rewrite !fold_left_app.
  cbn [fold_left fst snd].
  set (g := fold_left pass _ (setup now0)) in *.
  set (d := fold_left _ _ Diagnostic.setup) in *.
  destruct (ctx_fields _ _ _ _ _ (pass_ctx g t)) as (H1 & H2 & H3 & H4).
  rewrite H1, H2, H3, H4. clear H1 H2 H3 H4.
  unfold Diagnostic.loop. rewrite Hfn, Hsh.
  destruct (isChange (snd t)); cbn [andb]; [|by rewrite xorb_false_r].
  destruct (isPressed (snd t) =? 0); cbn [negb andb];
    [by rewrite xorb_false_r|].
  destruct (fn (keysState (snd t)) && shift (keysState (snd t))
            && negb (prevFn g && prevShift g));
    cbn [Diagnostic.capslocked Diagnostic.prevFn Diagnostic.prevShift].
  - rewrite Hcaps. by destruct (capsLock (ed g)).
  - by rewrite xorb_false_r.
Qed.
